(** * Splide: lifecycle, clones, slide status, layout queries and option merging

    A shallow embedding of the parts of the Splide slider that its
    specification talks about, with the properties proved over it.

    - [JS]           the few JavaScript primitives the sources rely on
                     (own-key order, [forOwn], [assign], [slice], classes);
    - [Clones]       components/Clones/Clones.ts;
    - [SlideStatus]  components/Slides/Slide.ts, the status updates;
    - [Layout]       the size queries of the Layout component;
    - [Merge]        utils/object/merge/merge.ts, over a store of objects;
    - [Core]         core/Splide/Splide.ts, [mount] and [destroy];
    - [ClonesDestroy], [SlideMore], [Arrows], [MergeCopy]
                     the rest of what is modelled of Clones.ts and Slide.ts,
                     [init] of components/Arrows/Arrows.ts, and what a copy
                     made by [merge] is.

    The definitions come first; the modules named [...Proofs] and
    [...More] hold what is proved about them.

    Conventions.  JavaScript numbers that count things are integers ([Z]).
    The two measures [computeCloneCount] divides are doubles (IEEE 754
    binary64), and their quotient is rounded as a double is; the pixel
    measures that are only added, subtracted and compared are rationals
    ([Q]).  A numeric option that is absent is read the way the code reads
    it, through its truthiness, so [undefined] and [0] are one value.  A
    flag the code passes on with [&&] keeps the value [&&] gives it, which
    need not be a boolean ([SlideStatus.Flag]).  An object may have a
    property of its own under [__proto__]; [forOwn] and [assign] pass it
    over.  Hooks of components and callbacks supplied by users are
    opaque: running one leaves an entry in a trace. *)

From Stdlib Require Import ZArith QArith Qround Qabs Lia List String Sorted.
From Stdlib Require SpecFloat.
From stdpp Require Import base list strings.

Local Open Scope Z_scope.

(* ===================================================================== *)
(** ** JavaScript primitives *)
(* ===================================================================== *)

Module JS.

(** [ToIntegerOrInfinity] followed by the clamping of
    [Array.prototype.slice]: a negative position counts from the end. *)
Definition rel_index (len i : Z) : Z :=
  if i <? 0 then Z.max (len + i) 0 else Z.min i len.

(** [l.slice(start, end)]. *)
Definition slice {A} (l : list A) (start end_ : Z) : list A :=
  let len := Z.of_nat (length l) in
  let k := rel_index len start in
  let final := rel_index len end_ in
  take (Z.to_nat (final - k)) (drop (Z.to_nat k) l).

(** [l.slice(start)]: [end] is absent and stands for the length. *)
Definition slice_from {A} (l : list A) (start : Z) : list A :=
  slice l start (Z.of_nat (length l)).

(** [l.forEach((x, index) => ...)] threading a state. *)
Fixpoint forEachi {A S} (f : A -> Z -> S -> S) (l : list A) (i : Z) (s : S) : S :=
  match l with
  | [] => s
  | x :: l' => forEachi f l' (i + 1) (f x i s)
  end.

(** JavaScript truthiness of a number, and [a || b] on numbers. *)
Definition truthy (n : Z) : bool := negb (n =? 0).
Definition or_else (a b : Z) : Z := if truthy a then a else b.

(** A number that is measured and divided is a double: IEEE 754
    binary64, as the library gives it, with its zeros, infinities and
    NaN.  [is_double] tells the values that are doubles from the other
    terms of the type. *)
Abbreviation double := SpecFloat.spec_float.
Definition prec : Z := 53.
Definition emax : Z := 1024.
Definition is_double (x : double) : bool := SpecFloat.valid_binary prec emax x.

(** [x / y], rounded to the nearest double. *)
Definition fdiv (x y : double) : double := SpecFloat.SFdiv prec emax x y.

(** Truthiness of a double: [0], [-0] and [NaN] are falsy. *)
Definition ftruthy (x : double) : bool :=
  match x with
  | SpecFloat.S754_zero _ | SpecFloat.S754_nan => false
  | _ => true
  end.

Definition is_infinity (x : double) : bool :=
  match x with
  | SpecFloat.S754_infinity _ => true
  | _ => false
  end.

(** [0 <= x]. *)
Definition fnonneg (x : double) : bool :=
  SpecFloat.SFleb (SpecFloat.S754_zero false) x.

(** [Math.ceil( x )] as the integer it is, for a finite [x]: with
    [x = (-1)^s * m * 2^e] it is minus the floor of [-x].  [NaN] stays
    [NaN], which is falsy; here it is 0, which is falsy too, and the code
    modelled uses the ceiling through [||] only.  An infinity has no
    integer: see [Clones.Env]. *)
Definition ceil (x : double) : Z :=
  match x with
  | SpecFloat.S754_finite s m e => - Z.shiftl (if s then Zpos m else Zneg m) e
  | _ => 0
  end.

(** The double of an integer, and of a decimal [n / 10^d] as a numeric
    literal gives it. *)
Definition of_Z (n : Z) : double := SpecFloat.binary_normalize prec emax n 0 false.
Definition of_decimal (n : Z) (d : nat) : double := fdiv (of_Z n) (of_Z (10 ^ Z.of_nat d)).

(** A property key: an array index (a canonical numeric string) or any
    other name. *)
Inductive Key :=
| KIdx (i : nat)
| KName (s : string).

#[global] Instance Key_eq_dec : EqDecision Key.
Proof. solve_decision. Defined.

(** An object as the list of its own enumerable properties in the order
    [Object.keys] reports them: index keys ascending, then the other
    names in the order they were created. *)
Definition Obj (V : Type) : Type := list (Key * V).

Definition key_before (k k' : Key) : bool :=
  match k, k' with
  | KIdx i, KIdx j => (i <? j)%nat
  | KIdx _, KName _ => true
  | KName _, _ => false
  end.

Fixpoint oget {V} (o : Obj V) (k : Key) : option V :=
  match o with
  | [] => None
  | (k', v) :: o' => if decide (k = k') then Some v else oget o' k
  end.

(** The name [__proto__].  An object has a property of its own under it
    only when something like [JSON.parse] put it there. *)
Definition PROTO : Key := KName "__proto__".

(** [o[k] = v], for a key other than [__proto__]: an existing property
    keeps its place.  (Under [__proto__] the assignment does not write a
    property of the object; no code modelled here gets that far, since
    [forOwn] and [assign] pass the key over.) *)
Fixpoint oset {V} (k : Key) (v : V) (o : Obj V) : Obj V :=
  match o with
  | [] => [(k, v)]
  | (k', v') :: o' =>
      if decide (k = k') then (k, v) :: o'
      else if key_before k k' then (k, v) :: (k', v') :: o'
      else (k', v') :: oset k v o'
  end.

Definition ownKeys {V} (o : Obj V) : list Key := map fst o.

(** Modelled from the spec: utils/object/forOwn, which [mount], [destroy]
    and [merge] call, is not among the sources, and the specification
    speaks of it only through them.  [forOwn( object, iteratee, right )]
    is the library's loop over the own enumerable keys of [object]: it
    calls [iteratee( object[ key ], key )] for every key but [__proto__],
    which it passes over, and its optional third argument [right] makes it
    walk the keys from the end.  No iteratee in the sources returns a
    value, so the early exit on [false] never happens. *)
Definition forOwn {V S} (o : Obj V) (iteratee : V -> Key -> S -> S)
    (right : bool) (s : S) : S :=
  fold_left (fun s k => if decide (k = PROTO) then s
                        else match oget o k with
                             | Some v => iteratee v k s
                             | None => s
                             end)
            (if right then rev (ownKeys o) else ownKeys o) s.

(** Modelled from the spec: utils/object/assign is not among the sources,
    and the specification speaks of it only through [mount].
    [assign( target, ...sources )] is the library's name for
    [Object.assign], which sets on the target every own enumerable
    property of each source, in the order of the source's keys.  Setting
    [__proto__] changes the prototype of the target and gives it no
    property of its own, so that key adds nothing to the keys. *)
Definition assign1 {V} (target source : Obj V) : Obj V :=
  fold_left (fun t kv => if decide (fst kv = PROTO) then t
                         else oset (fst kv) (snd kv) t) source target.

Definition assign {V} (target : Obj V) (sources : list (Obj V)) : Obj V :=
  fold_left assign1 sources target.

(** [classList]: [hasClass], [addClass], [removeClass], [toggleClass]. *)
Definition hasClass (classes : list string) (c : string) : bool :=
  existsb (String.eqb c) classes.
Definition addClass (classes : list string) (c : string) : list string :=
  if hasClass classes c then classes else classes ++ [c].
Definition removeClass (classes : list string) (c : string) : list string :=
  filter (fun x => String.eqb c x = false) classes.
Definition toggleClass (classes : list string) (c : string) (add : bool) : list string :=
  if add then addClass classes c else removeClass classes c.

End JS.

(* ===================================================================== *)
(** ** Clones *)
(* ===================================================================== *)

Module Clones.
Import JS.

(** A DOM element of the list: an original slide, known by its position
    among the children, or the deep copy [cloneDeep] makes of one, known
    by the number that goes into its id ("...-cloneNN"). *)
Inductive Elm :=
| RealElm (i : Z)
| CloneElm (seqno : Z) (source : Elm).

Definition Elm_eqb_dec : forall a b : Elm, {a = b} + {a <> b}.
Proof. decide equality; apply Z.eq_dec. Defined.

(** The part of a Slide sub component ([Slide.ts]) the Clones component
    reads: [index], [slideIndex] (-1 unless a clone) and [slide]. *)
Record SlideH := mkSlide { index : Z; slideIndex : Z; slide : Elm }.

Definition isClone (s : SlideH) : bool := -1 <? slideIndex s.

Record Options := {
  type : string;
  clones_opt : Z;         (* options.clones *)
  perPage : Z;
  drag : bool;            (* truthiness of options.drag *)
  flickMaxPages : Z;
  autoWidth : bool        (* options[ resolve( 'autoWidth' ) ] *)
}.

(** What the component measures on the page: two doubles.  The clone
    count is an integer here, so the measures are taken to be such that
    the quotient the code forms of them, when it forms it, is not an
    infinity; a track [1.8e308] fixed sizes wide is left out. *)
Record Env := {
  fixedSize : double;     (* measure( Elements.list, options[ resolve( 'fixedWidth' ) ] ) *)
  trackSize : double;     (* rect( Elements.track )[ resolve( 'width' ) ] *)
  measured : is_double fixedSize && is_double trackSize = true;
  counted : ftruthy fixedSize && is_infinity (fdiv trackSize fixedSize) = false
}.

Record State := {
  Slides : list SlideH;   (* the registry of the Slides component *)
  list_dom : list Elm;    (* the children of Elements.list *)
  clones : list Elm;      (* const clones: HTMLElement[] *)
  cloneCount : Z;
  emitted : list string
}.

Definition LOOP : string := "loop".
Definition EVENT_RESIZE : string := "resize".
Definition EVENT_REFRESH : string := "refresh".

(** Modelled from the spec: the Slides component is not among the sources.
    [register] adds a handle, and [get] returns the handles in display
    order, so a handle goes in front of the first one with a greater
    placement index. *)
Fixpoint insert_sorted (s : SlideH) (l : list SlideH) : list SlideH :=
  match l with
  | [] => [s]
  | x :: l' => if index s <? index x then s :: x :: l' else x :: insert_sorted s l'
  end.

Definition register (e : Elm) (idx sidx : Z) (st : State) : State :=
  {| Slides := insert_sorted (mkSlide idx sidx e) (Slides st);
     list_dom := list_dom st; clones := clones st;
     cloneCount := cloneCount st; emitted := emitted st |}.

(** Modelled from the spec: [getLength( true )] is the number of handles
    that are not clones, [getLength( false )] the number of all handles. *)
Definition getLength (excludeClones : bool) (st : State) : Z :=
  Z.of_nat (length (if excludeClones
                    then filter (fun s => isClone s = false) (Slides st)
                    else Slides st)).

(** [before( clone, ref )]: [ref.parentNode.insertBefore( clone, ref )]. *)
Fixpoint insert_before (c ref : Elm) (l : list Elm) : list Elm :=
  match l with
  | [] => []
  | x :: l' => if Elm_eqb_dec x ref then c :: x :: l' else x :: insert_before c ref l'
  end.

Definition cloneDeep (e : Elm) (idx : Z) : Elm := CloneElm (idx + 1) e.

(** The number in the id [cloneDeep] gives a clone; a slide of the page
    has none. *)
Definition clone_number (e : Elm) : option Z :=
  match e with
  | CloneElm n _ => Some n
  | RealElm _ => None
  end.

(** [while ( slides.length < count ) push( slides, slides )].  The loop
    is run with a bound on its iterations; [None] means the bound was
    reached with the condition still true. *)
Fixpoint grow (fuel : nat) (slides : list SlideH) (count : Z) : option (list SlideH) :=
  if Z.of_nat (length slides) <? count then
    match fuel with
    | O => None
    | S fuel' => grow fuel' (slides ++ slides) count
    end
  else Some slides.

(** The body of the [forEach] in [generate]. *)
Definition generate_one (count len : Z) (slides : list SlideH)
    (Sl : SlideH) (idx : Z) (st : State) : State :=
  let isHead := idx <? count in
  let clone := cloneDeep (slide Sl) idx in
  let dom :=
    if isHead then
      match slides with
      | s0 :: _ => insert_before clone (slide s0) (list_dom st)
      | [] => list_dom st
      end
    else list_dom st ++ [clone] in
  register clone (idx - count + (if isHead then 0 else len)) (index Sl)
    {| Slides := Slides st; list_dom := dom; clones := clones st ++ [clone];
       cloneCount := cloneCount st; emitted := emitted st |}.

Definition generate (count : Z) (st : State) : option State :=
  let slides := Slides st in
  let len := Z.of_nat (length slides) in
  if truthy len then
    match grow (Z.to_nat count) slides count with
    | None => None
    | Some slides =>
        Some (forEachi (generate_one count len slides)
                (slice_from slides (- count) ++ slice slides 0 count) 0 st)
    end
  else Some st.

Definition emit (ev : string) (st : State) : State :=
  {| Slides := Slides st; list_dom := list_dom st; clones := clones st;
     cloneCount := cloneCount st; emitted := emitted st ++ [ev] |}.

Definition set_cloneCount (c : Z) (st : State) : State :=
  {| Slides := Slides st; list_dom := list_dom st; clones := clones st;
     cloneCount := c; emitted := emitted st |}.

Definition is_type (o : Options) (t : string) : bool := String.eqb (type o) t.

Definition computeCloneCount (o : Options) (env : Env) (st : State) : Z :=
  if negb (is_type o LOOP) then 0
  else if negb (truthy (clones_opt o)) then
    let fixedCount :=
      if ftruthy (fixedSize env) then ceil (fdiv (trackSize env) (fixedSize env)) else 0 in
    let baseCount :=
      or_else (or_else fixedCount (if autoWidth o then getLength true st else 0))
              (perPage o) in
    baseCount * (if drag o then or_else (flickMaxPages o) 1 + 1 else 2)
  else clones_opt o.

Definition init (o : Options) (env : Env) (st : State) : option State :=
  let c := computeCloneCount o env st in
  let st := set_cloneCount c st in
  if truthy c then
    match generate c st with
    | Some st' => Some (emit EVENT_RESIZE st')
    | None => None
    end
  else Some st.

(** [observe]: refresh when more clones are needed than are installed. *)
Definition observe (o : Options) (env : Env) (st : State) : State :=
  if cloneCount st <? computeCloneCount o env st then emit EVENT_REFRESH st else st.

(** The registry and the list as the Slides component leaves them before
    any clone exists: one handle per child, [slideIndex] -1. *)
Definition real_slide (i : nat) : SlideH := mkSlide (Z.of_nat i) (-1) (RealElm (Z.of_nat i)).
Definition real_slides (n : nat) : list SlideH := map real_slide (seq 0 n).
Definition real_elms (n : nat) : list Elm := map slide (real_slides n).

(** The clones [generate] is expected to install, [j] counting from 0 on
    either side. *)
Definition head_clone (rc : nat) (N : Z) (j : nat) : SlideH :=
  let s := (Z.of_nat j - N) mod Z.of_nat rc in
  mkSlide (Z.of_nat j - N) s (CloneElm (Z.of_nat j + 1) (RealElm s)).

Definition tail_clone (rc : nat) (N : Z) (j : nat) : SlideH :=
  let s := Z.of_nat j mod Z.of_nat rc in
  mkSlide (Z.of_nat rc + Z.of_nat j) s (CloneElm (N + Z.of_nat j + 1) (RealElm s)).

Definition head_clones (rc : nat) (N : Z) : list SlideH :=
  map (head_clone rc N) (seq 0 (Z.to_nat N)).
Definition tail_clones (rc : nat) (N : Z) : list SlideH :=
  map (tail_clone rc N) (seq 0 (Z.to_nat N)).

(** The state with the first [a] head clones and the first [b] tail
    clones installed around [rc] real slides. *)
Definition installed (rc : nat) (N : Z) (a b : nat) (st : State) : State :=
  let heads := map (head_clone rc N) (seq 0 a) in
  let tails := map (tail_clone rc N) (seq 0 b) in
  {| Slides := heads ++ real_slides rc ++ tails;
     list_dom := map slide heads ++ real_elms rc ++ map slide tails;
     clones := clones st ++ map slide heads ++ map slide tails;
     cloneCount := cloneCount st;
     emitted := emitted st |}.

(** The safety factor of [computeCloneCount]. *)
Definition factor (o : Options) : Z :=
  if drag o then or_else (flickMaxPages o) 1 + 1 else 2.

(** The clone count as the specification words it: the base count is the
    ceiling whenever a fixed size is set, otherwise the number of slides
    whenever the width is automatic, otherwise the per-page option. *)
Definition stated_baseCount (o : Options) (env : Env) (st : State) : Z :=
  if ftruthy (fixedSize env) then ceil (fdiv (trackSize env) (fixedSize env))
  else if autoWidth o then getLength true st
  else perPage o.

Definition stated_cloneCount (o : Options) (env : Env) (st : State) : Z :=
  stated_baseCount o env st * factor o.

(** Options of a slider that does not loop. *)
Definition slide_options : Options :=
  {| type := "slide"; clones_opt := 4; perPage := 3; drag := true;
     flickMaxPages := 1; autoWidth := false |}.

(** The inputs on which the wording of the specification and the code
    part: a fixed size is set and the track has no width. *)
Definition loop_options : Options :=
  {| type := "loop"; clones_opt := 0; perPage := 3; drag := false;
     flickMaxPages := 0; autoWidth := false |}.

Definition hidden_track : Env :=
  {| fixedSize := of_Z 100; trackSize := of_Z 0;
     measured := eq_refl; counted := eq_refl |}.

(** A track of 800 and no fixed size. *)
Definition no_fixed_size : Env :=
  {| fixedSize := of_Z 0; trackSize := of_Z 800;
     measured := eq_refl; counted := eq_refl |}.

(** A fixed size of 50.07 and a track of 150.21: the quotient of the two
    doubles is a little above 3, and rounded to a double it is 3. *)
Definition rounded_track : Env :=
  {| fixedSize := of_decimal 5007 2; trackSize := of_decimal 15021 2;
     measured := eq_refl; counted := eq_refl |}.

(** A loop slider of one slide a page. *)
Definition one_per_page : Options :=
  {| type := "loop"; clones_opt := 0; perPage := 1; drag := false;
     flickMaxPages := 0; autoWidth := false |}.

(** A mounted slider of [rc] slides before [init] has run. *)
Definition st0 (rc : nat) : State :=
  {| Slides := real_slides rc; list_dom := real_elms rc; clones := [];
     cloneCount := 0; emitted := [] |}.

End Clones.


(* ===================================================================== *)
(** ** Slide: activity and visibility status *)
(* ===================================================================== *)

Module SlideStatus.
Import JS.

Definition CLASS_ACTIVE : string := "is-active".
Definition CLASS_VISIBLE : string := "is-visible".
Definition CLASS_PREV : string := "is-prev".
Definition CLASS_NEXT : string := "is-next".

Definition EVENT_ACTIVE : string := "active".
Definition EVENT_INACTIVE : string := "inactive".
Definition EVENT_VISIBLE : string := "visible".
Definition EVENT_HIDDEN : string := "hidden".

Definition ARIA_CURRENT : string := "aria-current".
Definition ARIA_HIDDEN : string := "aria-hidden".
Definition TAB_INDEX : string := "tabindex".

(** What the code takes for a flag: [Yes] is [true], [No] is [false], and
    [Falsy] is a falsy value that is not [false] (undefined, null, 0, '').
    As a condition a flag counts by its truth; compared with [!==] to a
    boolean, [Falsy] differs from both. *)
Inductive Flag := Yes | No | Falsy.

Definition truth (f : Flag) : bool :=
  match f with
  | Yes => true
  | No | Falsy => false
  end.

Coercion truth : Flag >-> bool.

Definition of_bool (b : bool) : Flag := if b then Yes else No.

(** [f !== b], for a boolean [b]. *)
Definition differs (f : Flag) (b : bool) : bool :=
  match f with
  | Yes => negb b
  | No => b
  | Falsy => true
  end.

Definition is_boolean (f : Flag) : bool :=
  match f with
  | Yes | No => true
  | Falsy => false
  end.

(** What is fixed when [Slide( Splide, index, slideIndex, slide )] is
    called, options included.  [isNavigation] and [slideFocus] are read
    as conditions only.  [cloneStatus] is the operand of an [&&] whose
    value [isActive] returns: [Yes] stands for a truthy option, [No] for
    [false], and [Falsy] for any other falsy value, which the options
    allow ([cloneStatus?: boolean], and whatever the data attribute
    holds). *)
Record Config := {
  index : Z;
  slideIndex : Z;
  isNavigation : bool;
  cloneStatus : Flag;
  slideFocus : bool;
  is_fade : bool           (* Splide.is( FADE ) *)
}.

Definition isClone (c : Config) : bool := -1 <? slideIndex c.

(** What an update reads from its surroundings: the current index and
    the rectangles of the track and of the slide. *)
Record Env := {
  curr : Z;                (* Splide.index *)
  track_left : Q; track_right : Q;
  slide_left : Q; slide_right : Q
}.

(** The slide element and the closure's variables. *)
Record State := {
  classes : list string;
  attrs : list (string * string);
  focusable_tabindex : option string;  (* tabindex of the focusable nodes *)
  destroyed : bool;
  emitted : list string
}.

(** [setAttribute( elm, attr, value )]: [null] removes the attribute. *)
Definition setAttr (a : string) (v : option string) (l : list (string * string))
  : list (string * string) :=
  let l' := filter (fun p => String.eqb a (fst p) = false) l in
  match v with
  | Some x => l' ++ [(a, x)]
  | None => l'
  end.

Definition set_classes (f : list string -> list string) (s : State) : State :=
  {| classes := f (classes s); attrs := attrs s;
     focusable_tabindex := focusable_tabindex s;
     destroyed := destroyed s; emitted := emitted s |}.

Definition set_attrs (f : list (string * string) -> list (string * string))
    (s : State) : State :=
  {| classes := classes s; attrs := f (attrs s);
     focusable_tabindex := focusable_tabindex s;
     destroyed := destroyed s; emitted := emitted s |}.

Definition set_focusable (v : option string) (s : State) : State :=
  {| classes := classes s; attrs := attrs s; focusable_tabindex := v;
     destroyed := destroyed s; emitted := emitted s |}.

Definition emit (ev : string) (s : State) : State :=
  {| classes := classes s; attrs := attrs s;
     focusable_tabindex := focusable_tabindex s;
     destroyed := destroyed s; emitted := emitted s ++ [ev] |}.

(** [curr === index || ( options.cloneStatus && curr === slideIndex )]:
    [true] at the current index; elsewhere what the [&&] gives, which is
    the option itself when the option is falsy. *)
Definition isActive (c : Config) (e : Env) : Flag :=
  if curr e =? index c then Yes
  else match cloneStatus c with
       | Yes => of_bool (curr e =? slideIndex c)
       | No => No
       | Falsy => Falsy
       end.

Definition isVisible (c : Config) (e : Env) : Flag :=
  if is_fade c then isActive c e
  else of_bool ((Qfloor (track_left e) <=? Qceiling (slide_left e))
                && (Qfloor (slide_right e) <=? Qceiling (track_right e))).

Definition updateActivity (c : Config) (active : Flag) (s : State) : State :=
  if differs active (hasClass (classes s) CLASS_ACTIVE) then
    let s := set_classes (fun cl => toggleClass cl CLASS_ACTIVE active) s in
    let s := if isNavigation c
             then set_attrs (setAttr ARIA_CURRENT (if truth active then Some "true" else None)) s
             else s in
    emit (if truth active then EVENT_ACTIVE else EVENT_INACTIVE) s
  else s.

Definition updateVisibility (c : Config) (e : Env) (visible : Flag) (s : State) : State :=
  let hidden := negb visible && (negb (isActive c e) || isClone c) in
  let s := set_attrs (setAttr ARIA_HIDDEN (if hidden then Some "true" else None)) s in
  let s := set_attrs (setAttr TAB_INDEX
                        (if negb hidden && slideFocus c then Some "0" else None)) s in
  let s := set_focusable (if hidden then Some "-1" else None) s in
  if differs visible (hasClass (classes s) CLASS_VISIBLE) then
    emit (if truth visible then EVENT_VISIBLE else EVENT_HIDDEN)
         (set_classes (fun cl => toggleClass cl CLASS_VISIBLE visible) s)
  else s.

Definition update (c : Config) (e : Env) (s : State) : State :=
  if negb (destroyed s) then
    let s := updateActivity c (isActive c e) s in
    let s := updateVisibility c e (isVisible c e) s in
    let s := set_classes (fun cl => toggleClass cl CLASS_PREV (index c =? curr e - 1)) s in
    set_classes (fun cl => toggleClass cl CLASS_NEXT (index c =? curr e + 1)) s
  else s.

End SlideStatus.

(* ===================================================================== *)
(** ** Layout: the size queries *)
(* ===================================================================== *)

Module Layout.
Import JS.

(** The measurements the queries read from the page. *)
Record Page := {
  rect_width : Clones.Elm -> Q;   (* rect( elm )[ resolve( 'width' ) ] *)
  rect_left : Clones.Elm -> Q;
  rect_right : Clones.Elm -> Q;
  list_left : Q;                  (* rect( list )[ resolve( 'left' ) ] *)
  list_width : Q;
  margin : Clones.Elm -> option Q (* parseFloat( style( elm, marginRight ) ), NaN is None *)
}.

(** Modelled from the spec: the Slides component is not among the sources.
    [getAt( index )] returns the handle whose index matches, if any. *)
Definition getAt (slides : list Clones.SlideH) (i : Z) : option Clones.SlideH :=
  head (filter (fun s => Clones.index s = i) slides).

Definition getLength (slides : list Clones.SlideH) (excludeClones : bool) : Z :=
  Z.of_nat (length (if excludeClones
                    then filter (fun s => Clones.isClone s = false) slides
                    else slides)).

Definition getGap (p : Page) (slides : list Clones.SlideH) : Q :=
  match getAt slides 0 with
  | Some Sl => match margin p (Clones.slide Sl) with
              | Some g => g     (* 0 || 0 is 0 *)
              | None => 0
              end
  | None => 0
  end.

Definition listSize (p : Page) : Q := list_width p.

Definition slideSize (p : Page) (slides : list Clones.SlideH)
    (index : option Z) (withoutGap : bool) : Q :=
  match getAt slides (match index with Some i => or_else i 0 | None => 0 end) with
  | Some Sl => rect_width p (Clones.slide Sl) + (if withoutGap then 0 else getGap p slides)
  | None => 0
  end.

Definition totalSize (p : Page) (slides : list Clones.SlideH)
    (index : Z) (withoutGap : bool) : Q :=
  match getAt slides index with
  | Some Sl =>
      let right := rect_right p (Clones.slide Sl) in
      let left := list_left p in
      Qabs (right - left) + (if withoutGap then 0 else getGap p slides)
  | None => 0
  end.

Definition sliderSize (p : Page) (slides : list Clones.SlideH) : Q :=
  match getAt slides 0, getAt slides (getLength slides true - 1) with
  | Some firstSlide, Some lastSlide =>
      rect_right p (Clones.slide lastSlide) - rect_left p (Clones.slide firstSlide)
  | _, _ => 0
  end.

(** A page on which nothing has a size but the list. *)
Definition blank_page : Page :=
  {| rect_width := fun _ => 0%Q; rect_left := fun _ => 0%Q;
     rect_right := fun _ => 0%Q; list_left := 0%Q; list_width := 640%Q;
     margin := fun _ => None |}.

End Layout.

(* ===================================================================== *)
(** ** merge: objects in a store *)
(* ===================================================================== *)

Module Merge.
Import JS.

Abbreviation loc := nat (only parsing).

(** A JavaScript value is a primitive, a function (opaque) or a reference
    to an object of the store. *)
Inductive value :=
| VUndef
| VNull
| VBool (b : bool)
| VNum (n : Z)
| VStr (s : string)
| VFun (id : nat)
| VRef (l : loc).

(** An object of the store: its own properties, and whether it is an
    array.  The elements of an array are its index properties; an array
    may hold named properties as any object does. *)
Record cell := { is_array : bool; props : Obj value }.

Abbreviation heap := (list cell) (only parsing).

Definition empty_object : cell := {| is_array := false; props := [] |}.

Definition cell_at (h : heap) (l : loc) : cell := default empty_object (h !! l).

(** [object[ key ]]. *)
Definition get (h : heap) (l : loc) (k : Key) : value :=
  default VUndef (oget (props (cell_at h l)) k).

(** [object[ key ] = v]. *)
Definition set (h : heap) (l : loc) (k : Key) (v : value) : heap :=
  match h !! l with
  | Some c => <[l := {| is_array := is_array c; props := oset k v (props c) |}]> h
  | None => h
  end.

(** A new object gets the next free location. *)
Definition alloc (h : heap) (c : cell) : heap * loc := (h ++ [c], length h).

Definition isArray (h : heap) (v : value) : bool :=
  match v with
  | VRef l => is_array (cell_at h l)
  | _ => false
  end.

(** [isObject]: [!isNull( v ) && typeof v === 'object'], arrays included. *)
Definition isObject (v : value) : bool :=
  match v with
  | VRef _ => true
  | _ => false
  end.

Definition is_index (k : Key) : bool :=
  match k with
  | KIdx _ => true
  | KName _ => false
  end.

(** [value.slice()]: a new array with the elements of the old one, which
    are not copied themselves. *)
Definition slice_cell (c : cell) : cell :=
  {| is_array := true; props := filter (fun kv => is_index (fst kv) = true) (props c) |}.

Definition array_slice (h : heap) (l : loc) : heap * loc :=
  alloc h (slice_cell (cell_at h l)).

(** The iteratee [merge] hands to [forOwn], with [rec] for the recursive
    call.  [source[ key ]] is read when its turn comes. *)
Definition merge_step (rec : heap -> loc -> loc -> option (heap * loc))
    (object source : loc) (acc : option heap) (key : Key) : option heap :=
  match acc with
  | None => None
  | Some h =>
      let value := get h source key in
      if isArray h value then
        match value with
        | VRef a =>
            let '(h1, copy) := array_slice h a in
            Some (set h1 object key (VRef copy))
        | _ => Some h
        end
      else
        match value with
        | VRef src =>
            let '(h1, target) :=
              match get h object key with
              | VRef t => (h, t)
              | _ => alloc h empty_object
              end in
            match rec h1 target src with
            | Some (h2, r) => Some (set h2 object key (VRef r))
            | None => None
            end
        | _ => Some (set h object key value)
        end
  end.

(** [merge( object, source )]: the loop of [forOwn] over the keys the
    source has when the call starts, [__proto__] passed over.  The
    recursion follows the nesting of the source, which a store can make
    endless, so it is bounded by [fuel]; [None] means the bound was
    reached. *)
Fixpoint merge (fuel : nat) (h : heap) (object source : loc) : option (heap * loc) :=
  match fuel with
  | O => None
  | S fuel' =>
      match fold_left (fun acc key =>
                         if decide (key = PROTO) then acc
                         else merge_step (merge fuel') object source acc key)
                      (ownKeys (props (cell_at h source))) (Some h) with
      | Some h' => Some (h', object)
      | None => None
      end
  end.

(** The property of the cell the loop of [forOwn] reaches under [k]:
    none under [__proto__]. *)
Definition own (c : cell) (k : Key) : option value :=
  if decide (k = PROTO) then None else oget (props c) k.


(** What [merge] is to leave under the key [k] of the object [o], given
    the source object [src] and the store [h] it started from: a scalar
    of the source as it is; for an array of the source a new array, at a
    location that [h] does not have, with the same elements; for another
    object [l] of the source the object [t] that [o] held under [k], or a
    new one when it held none, with [nested t l] telling what became of
    it; and what [o] held when the source lacks the key or the key is
    [__proto__]. *)
Definition merged_at (nested : loc -> loc -> Prop) (h : heap) (o : loc)
    (src : cell) (k : Key) (h' : heap) : Prop :=
  match own src k with
  | Some (VRef l) =>
      if is_array (cell_at h l)
      then exists a, get h' o k = VRef a /\ (length h <= a)%nat
                     /\ h' !! a = Some (slice_cell (cell_at h l))
      else exists t, get h' o k = VRef t
                     /\ match get h o k with
                        | VRef t0 => t = t0
                        | _ => (length h <= t)%nat
                        end
                     /\ (t < length h')%nat
                     /\ nested t l
  | Some v => get h' o k = v
  | None => get h' o k = get h o k
  end.

(** The store [h'] holds the source [s] merged into [o], down to the
    depth [m], relative to the store [h] before the call. *)
Fixpoint merged (m : nat) (h : heap) (o s : loc) (h' : heap) : Prop :=
  match m with
  | O => True
  | S m' =>
      forall k, merged_at (fun t l => merged m' h t l h') h o (cell_at h s) k h'
  end.

(** The object below [o] is a tree when every object in it is referenced
    once; [D] lists its locations, [d] bounds its height. *)
Fixpoint tree (d : nat) (h : heap) (D : list loc) (o : loc) : Prop :=
  match d with
  | O => False
  | S d' =>
      exists c Ds,
        h !! o = Some c
        /\ Forall2 (fun kv Di => match snd kv with
                                 | VRef t => tree d' h Di t
                                 | _ => Di = []
                                 end) (props c) Ds
        /\ NoDup (o :: concat Ds)
        /\ D = o :: concat Ds
  end.

(** A source of nesting depth at most [m] that lies outside [D]: its
    objects are allocated, have no key twice, and none of them nor of the
    arrays they hold directly is in [D]. *)
Fixpoint source_ok (m : nat) (h : heap) (D : list loc) (s : loc) : Prop :=
  match m with
  | O => False
  | S m' =>
      exists c,
        h !! s = Some c
        /\ (s ∉ D)
        /\ NoDup (ownKeys (props c))
        /\ forall k l, (k, VRef l) ∈ props c ->
             (l < length h)%nat /\ (l ∉ D)
             /\ (is_array (cell_at h l) = false -> source_ok m' h D l)
  end.

(** The invariant of the loop of [merge] on the target [o], whose cell
    was [c] in the store [h] at the start, with the source cell [cs] and
    [dom] giving the locations below each key of the target: [ps] are the
    keys done, [ks] those to come, [hc] the store by now.  Nothing outside
    the target tree [D] has changed, nor anything below a key to come;
    the target holds under the keys not done what it held; and the keys
    done are merged, to the depth [m] below them. *)
Definition merging (m : nat) (h : heap) (D : list loc) (o : loc) (c cs : cell)
    (dom : Key -> list loc) (ps ks : list Key) (hc : heap) : Prop :=
  (length h <= length hc)%nat
  /\ (forall l, (l < length h)%nat -> l ∉ D -> hc !! l = h !! l)
  /\ (forall k l, k ∈ ks -> l ∈ dom k -> hc !! l = h !! l)
  /\ (exists co, hc !! o = Some co /\ is_array co = is_array c
                 /\ forall k, k ∉ ps -> oget (props co) k = oget (props c) k)
  /\ (forall k, k ∈ ps -> merged_at (fun t l => merged m h t l hc) h o cs k hc).

(** A store in which the target (0) holds one object (1) under two keys;
    the source (2) has an array (4) holding the object at 7 under the
    first key and an object with the key 0 under the second. *)
Definition shared_store : list cell :=
  [ {| is_array := false; props := [(KName "k1", VRef 1); (KName "k2", VRef 1)] |};
    {| is_array := false; props := [] |};
    {| is_array := false; props := [(KName "k1", VRef 3); (KName "k2", VRef 5)] |};
    {| is_array := false; props := [(KName "arr", VRef 4)] |};
    {| is_array := true; props := [(KIdx 0, VRef 7)] |};
    {| is_array := false; props := [(KName "arr", VRef 6)] |};
    {| is_array := false; props := [(KIdx 0, VRef 8)] |};
    {| is_array := false; props := [] |};
    {| is_array := false; props := [(KName "p", VNum 1)] |} ].



(** A store to run [merge] on: at 0 a target with a nested object (1)
    and an array (2); at 3 a source with a scalar, a nested object (4),
    an array (5) holding that object, and the object once more. *)
Definition example_store : list cell :=
  [ {| is_array := false;
       props := [(KName "a", VNum 1); (KName "n", VRef 1); (KName "arr", VRef 2)] |};
    {| is_array := false; props := [(KName "x", VNum 1)] |};
    {| is_array := true; props := [(KIdx 0, VNum 7)] |};
    {| is_array := false;
       props := [(KName "a", VNum 2); (KName "n", VRef 4);
                 (KName "arr", VRef 5); (KName "m", VRef 4)] |};
    {| is_array := false; props := [(KName "y", VNum 3)] |};
    {| is_array := true; props := [(KIdx 0, VRef 4); (KIdx 1, VNum 9)] |} ].

End Merge.

(* ===================================================================== *)
(** ** Splide: mount and destroy *)
(* ===================================================================== *)

Module Core.
Import JS.

Definition CREATED : Z := 1.
Definition MOUNTED : Z := 2.
Definition IDLE : Z := 3.
Definition MOVING : Z := 4.
Definition DRAGGING : Z := 5.
Definition DESTROYED : Z := 6.

Definition EVENT_MOUNTED : string := "mounted".
Definition EVENT_READY : string := "ready".
Definition EVENT_DESTROY : string := "destroy".
Definition CLASS_INITIALIZED : string := "is-initialized".
Definition FADE : string := "fade".

(** A component factory and the component it returns.  A component may
    or may not have each of the three hooks. *)
Record ComponentConstructor := {
  ctor_id : nat;
  with_setup : bool;
  with_mount : bool;
  with_destroy : bool
}.

Record Component := {
  made_by : nat;
  c_setup : bool;
  c_mount : bool;
  c_destroy : bool
}.

(** [Component( this, Components, this._options )]. *)
Definition instantiate (C : ComponentConstructor) : Component :=
  {| made_by := ctor_id C; c_setup := with_setup C;
     c_mount := with_mount C; c_destroy := with_destroy C |}.

(** What an observer sees happen, in order. *)
Inductive Action :=
| Instantiated (key : Key) (ctor : nat)
| SetupHook (key : Key)
| MountHook (key : Key)
| DestroyHook (key : Key) (completely : bool)
| StateSet (s : Z)
| Emitted (ev : string)
| Called (callback : nat) (ev : string).

(** A callback on the bus: one a user or a component registered, or
    [this.destroy.bind( this, completely )]. *)
Inductive Callback :=
| UserCallback (id : nat)
| BoundDestroy (completely : bool).

Record Handler := {
  h_event : string;
  h_callback : Callback;
  h_owned : bool;          (* registered with [this] as its key *)
  h_priority : Z
}.

Record Splide := {
  state : Z;
  Components : Obj Component;        (* this.Components *)
  has_Components : bool;             (* this._Components has been assigned *)
  _Extensions : Obj ComponentConstructor;
  _Transition : option ComponentConstructor;
  splides : list nat;
  bus : list Handler;
  options_type : string;             (* this._options.type *)
  root_classes : list string;
  trace : list Action
}.

Definition set_state (s : Z) (w : Splide) : Splide :=
  {| state := s; Components := Components w; has_Components := has_Components w;
     _Extensions := _Extensions w; _Transition := _Transition w;
     splides := splides w; bus := bus w; options_type := options_type w;
     root_classes := root_classes w; trace := trace w ++ [StateSet s] |}.

Definition set_Components (c : Obj Component) (w : Splide) : Splide :=
  {| state := state w; Components := c; has_Components := has_Components w;
     _Extensions := _Extensions w; _Transition := _Transition w;
     splides := splides w; bus := bus w; options_type := options_type w;
     root_classes := root_classes w; trace := trace w |}.

Definition set_has_Components (w : Splide) : Splide :=
  {| state := state w; Components := Components w; has_Components := true;
     _Extensions := _Extensions w; _Transition := _Transition w;
     splides := splides w; bus := bus w; options_type := options_type w;
     root_classes := root_classes w; trace := trace w |}.

Definition set_factories (E : Obj ComponentConstructor) (T : ComponentConstructor)
    (w : Splide) : Splide :=
  {| state := state w; Components := Components w; has_Components := has_Components w;
     _Extensions := E; _Transition := Some T;
     splides := splides w; bus := bus w; options_type := options_type w;
     root_classes := root_classes w; trace := trace w |}.

Definition set_splides (l : list nat) (w : Splide) : Splide :=
  {| state := state w; Components := Components w; has_Components := has_Components w;
     _Extensions := _Extensions w; _Transition := _Transition w;
     splides := l; bus := bus w; options_type := options_type w;
     root_classes := root_classes w; trace := trace w |}.

Definition set_bus (b : list Handler) (w : Splide) : Splide :=
  {| state := state w; Components := Components w; has_Components := has_Components w;
     _Extensions := _Extensions w; _Transition := _Transition w;
     splides := splides w; bus := b; options_type := options_type w;
     root_classes := root_classes w; trace := trace w |}.

Definition set_root_classes (c : list string) (w : Splide) : Splide :=
  {| state := state w; Components := Components w; has_Components := has_Components w;
     _Extensions := _Extensions w; _Transition := _Transition w;
     splides := splides w; bus := bus w; options_type := options_type w;
     root_classes := c; trace := trace w |}.

Definition log (a : Action) (w : Splide) : Splide :=
  {| state := state w; Components := Components w; has_Components := has_Components w;
     _Extensions := _Extensions w; _Transition := _Transition w;
     splides := splides w; bus := bus w; options_type := options_type w;
     root_classes := root_classes w; trace := trace w ++ [a] |}.

(** [this._Components]: the registry once [mount] has assigned it, and
    undefined, which [forOwn] passes over, before. *)
Definition _Components (w : Splide) : Obj Component :=
  if has_Components w then Components w else [].

(** Modelled from the spec: the State object is not among the sources.
    [set] overwrites the state, [is] is a membership test. *)
Definition state_is (w : Splide) (states : list Z) : bool :=
  existsb (Z.eqb (state w)) states.

(** [is( type )]. *)
Definition is_type (w : Splide) (t : string) : bool := String.eqb (options_type w) t.

(** Modelled from the spec: the EventBus is not among the sources.  [on]
    registers a handler; [emit] calls the handlers of the event by
    descending priority, registration order breaking ties, over a snapshot
    taken when the emit starts; [destroy] removes every handler. *)
Fixpoint bus_insert (x : Handler) (l : list Handler) : list Handler :=
  match l with
  | [] => [x]
  | y :: l' => if h_priority y <? h_priority x then x :: y :: l' else y :: bus_insert x l'
  end.

Definition handlers_for (ev : string) (b : list Handler) : list Handler :=
  filter (fun x => h_event x = ev) b.

Inductive Result :=
| Ok (w : Splide)
| Throw (message : string) (w : Splide)
| OutOfFuel.

Section WithLibrary.

(** What the class imports from files that are not among the sources: the
    table of the built-in components, the two transitions, and the
    priority the bus gives a handler registered without one. *)
Variable ComponentConstructors : Obj ComponentConstructor.
Variable Fade Slide : ComponentConstructor.
Variable DEFAULT_EVENT_PRIORITY : Z.

Definition event_on (ev : string) (cb : Callback) (owned : bool) (w : Splide) : Splide :=
  set_bus (bus_insert {| h_event := ev; h_callback := cb; h_owned := owned;
                         h_priority := DEFAULT_EVENT_PRIORITY |} (bus w)) w.

(** The else branch of [destroy], with [emit] as a parameter. *)
Definition teardown (emit : string -> Splide -> option Splide)
    (completely : bool) (w : Splide) : option Splide :=
  let w := forOwn (_Components w)
                  (fun component key w =>
                     if c_destroy component then log (DestroyHook key completely) w else w)
                  true w in
  match emit EVENT_DESTROY w with
  | None => None
  | Some w =>
      let w := set_bus [] w in
      let w := if completely then set_splides [] w else w in
      Some (set_state DESTROYED w)
  end.

Definition destroy_with (emit : string -> Splide -> option Splide)
    (completely : bool) (w : Splide) : option Splide :=
  if state_is w [CREATED] then
    (* Postpones destruction requested before the slider becomes ready. *)
    Some (event_on EVENT_READY (BoundDestroy completely) true w)
  else teardown emit completely w.

Definition invoke (emit : string -> Splide -> option Splide) (ev : string)
    (acc : option Splide) (x : Handler) : option Splide :=
  match acc with
  | None => None
  | Some w =>
      match h_callback x with
      | UserCallback id => Some (log (Called id ev) w)
      | BoundDestroy completely => destroy_with emit completely w
      end
  end.

(** [emit( event )].  A handler may call [destroy], which emits in turn;
    [fuel] bounds this nesting and [None] means the bound was reached. *)
Fixpoint emit (fuel : nat) (ev : string) (w : Splide) : option Splide :=
  match fuel with
  | O => None
  | S fuel' =>
      fold_left (invoke (emit fuel') ev) (handlers_for ev (bus w))
                (Some (log (Emitted ev) w))
  end.

Definition destroy (fuel : nat) (completely : bool) (w : Splide) : option Splide :=
  destroy_with (emit fuel) completely w.

Definition Constructors (w : Splide) : Obj ComponentConstructor :=
  assign [] [ComponentConstructors;
             _Extensions w;
             match _Transition w with
             | Some T => [(KName "Transition", T)]
             | None => []
             end].

Definition mount (fuel : nat) (Extensions : option (Obj ComponentConstructor))
    (Transition : option ComponentConstructor) (w : Splide) : Result :=
  if negb (state_is w [CREATED; DESTROYED]) then Throw "Already mounted!" w
  else
    let w := set_state CREATED w in
    let w := set_has_Components w in
    let T := match Transition with
             | Some T => T
             | None => match _Transition w with
                       | Some T => T
                       | None => if is_type w FADE then Fade else Slide
                       end
             end in
    let E := match Extensions with
             | Some E => E
             | None => _Extensions w
             end in
    let w := set_factories E T w in
    let w := forOwn (Constructors w)
               (fun C key w =>
                  let component := instantiate C in
                  let w := log (Instantiated key (ctor_id C)) w in
                  let w := set_Components (oset key component (Components w)) w in
                  if c_setup component then log (SetupHook key) w else w)
               false w in
    let w := forOwn (Components w)
               (fun component key w =>
                  if c_mount component then log (MountHook key) w else w)
               false w in
    match emit fuel EVENT_MOUNTED w with
    | None => OutOfFuel
    | Some w =>
        let w := set_root_classes (addClass (root_classes w) CLASS_INITIALIZED) w in
        let w := set_state IDLE w in
        match emit fuel EVENT_READY w with
        | None => OutOfFuel
        | Some w => Ok w
        end
    end.

End WithLibrary.

(** A bus on which only 'ready' carries postponed destructions, which is
    how [destroy] leaves it. *)
Definition bus_ok (w : Splide) : Prop :=
  forall x c, x ∈ bus w -> h_callback x = BoundDestroy c -> h_event x = EVENT_READY.

(** The hooks one pass over the registry runs, by key; [forOwn] passes
    over [__proto__]. *)
Definition destroy_hooks (completely : bool) (comps : Obj Component)
    (keys : list Key) : list Action :=
  flat_map (fun k => if decide (k = PROTO) then []
                     else match oget comps k with
                          | Some c => if c_destroy c then [DestroyHook k completely] else []
                          | None => []
                          end) keys.

Definition mount_hooks (comps : Obj Component) : list Action :=
  flat_map (fun k => if decide (k = PROTO) then []
                     else match oget comps k with
                          | Some c => if c_mount c then [MountHook k] else []
                          | None => []
                          end) (ownKeys comps).

Definition setup_actions (ctors : Obj ComponentConstructor) : list Action :=
  flat_map (fun k => if decide (k = PROTO) then []
                     else match oget ctors k with
                          | Some C => Instantiated k (ctor_id C)
                                      :: (if with_setup C then [SetupHook k] else [])
                          | None => []
                          end) (ownKeys ctors).

(** The keys under which a stretch of the trace stored a component, in
    the order it did: [Components[ key ] = component] follows the call of
    the factory. *)
Definition stored_keys (t : list Action) : list Key :=
  flat_map (fun a => match a with Instantiated k _ => [k] | _ => [] end) t.

Definition is_setup_or_mount (a : Action) : bool :=
  match a with
  | Instantiated _ _ | SetupHook _ | MountHook _ => true
  | _ => false
  end.

Definition log_all (t : list Action) (w : Splide) : Splide :=
  {| state := state w; Components := Components w; has_Components := has_Components w;
     _Extensions := _Extensions w; _Transition := _Transition w;
     splides := splides w; bus := bus w; options_type := options_type w;
     root_classes := root_classes w; trace := trace w ++ t |}.

(** What the user callbacks among the handlers leave in the trace. *)
Definition calls (ev : string) (hs : list Handler) : list Action :=
  flat_map (fun x => match h_callback x with
                     | UserCallback id => [Called id ev]
                     | BoundDestroy _ => []
                     end) hs.

(** The registry once every factory of [ctors] has stored its component. *)
Definition registered (ctors : Obj ComponentConstructor) (comps : Obj Component)
  : Obj Component :=
  fold_left (fun comps k => if decide (k = PROTO) then comps
                            else match oget ctors k with
                                 | Some C => oset k (instantiate C) comps
                                 | None => comps
                                 end) (ownKeys ctors) comps.

(** The slider after a teardown that met user callbacks only. *)
Definition torn_down (completely : bool) (w : Splide) : Splide :=
  let hooks := destroy_hooks completely (_Components w)
                 (rev (ownKeys (_Components w))) in
  let w1 := log_all (hooks ++ Emitted EVENT_DESTROY
                             :: calls EVENT_DESTROY (handlers_for EVENT_DESTROY (bus w))) w in
  let w2 := set_bus [] w1 in
  set_state DESTROYED (if completely then set_splides [] w2 else w2).

(** The teardown as the specification words it: the hooks run in the
    order of registration. *)
Definition stated_destroy_hooks (completely : bool) (comps : Obj Component) : list Action :=
  destroy_hooks completely comps (ownKeys comps).

(** Handlers that are all callbacks of users or components. *)
Definition user_only (hs : list Handler) : Prop :=
  Forall (fun x => exists id, h_callback x = UserCallback id) hs.

(** A stretch of the trace in which nothing is instantiated, set up or
    mounted. *)
Definition quiet (t : list Action) : Prop :=
  Forall (fun a => is_setup_or_mount a = false) t.

(** The factories [mount] runs, given its arguments. *)
Definition chosen_Transition (Fade Slide : ComponentConstructor)
    (Transition : option ComponentConstructor) (w : Splide) : ComponentConstructor :=
  match Transition with
  | Some T => T
  | None => match _Transition w with
            | Some T => T
            | None => if is_type w FADE then Fade else Slide
            end
  end.

Definition chosen_Extensions (Extensions : option (Obj ComponentConstructor))
    (w : Splide) : Obj ComponentConstructor :=
  match Extensions with
  | Some E => E
  | None => _Extensions w
  end.

(** A slider as its constructor leaves it. *)
Definition created (t : string) : Splide :=
  {| state := CREATED; Components := []; has_Components := false;
     _Extensions := []; _Transition := None; splides := []; bus := [];
     options_type := t; root_classes := []; trace := [] |}.

(** A small slider to run: no built-in component, two extensions with
    every hook, and the transition. *)
Definition full_ctor (id : nat) : ComponentConstructor :=
  {| ctor_id := id; with_setup := true; with_mount := true; with_destroy := true |}.

Definition two_extensions : Obj ComponentConstructor :=
  [(KName "First", full_ctor 1); (KName "Second", full_ctor 2)].

Definition mount_example (fuel : nat) (w : Splide) : Result :=
  mount [] (full_ctor 8) (full_ctor 9) 10 fuel (Some two_extensions) None w.

Definition mounted_example : Splide :=
  match mount_example 2 (created "slide") with
  | Ok w => w
  | _ => created "slide"
  end.

(** The example torn down, and mounted again with its two extensions
    given the other way round. *)
Definition swapped_extensions : Obj ComponentConstructor :=
  [(KName "Second", full_ctor 2); (KName "First", full_ctor 1)].

Definition torn_down_example : Splide :=
  match destroy 10 1 true mounted_example with
  | Some w => w
  | None => mounted_example
  end.

Definition remounted_example : Splide :=
  match mount [] (full_ctor 8) (full_ctor 9) 10 2 (Some swapped_extensions) None
              torn_down_example with
  | Ok w => w
  | _ => torn_down_example
  end.

End Core.

(* ===================================================================== *)
(** ** Clones: destroy *)
(* ===================================================================== *)

Module ClonesDestroy.
Import JS Clones.

#[global] Instance Elm_eq_dec : EqDecision Elm := Elm_eqb_dec.

(** [remove( nodes )]: every node is taken out of its parent. *)
Definition remove (nodes : list Elm) (dom : list Elm) : list Elm :=
  filter (fun x => x ∉ nodes) dom.

(** [destroy]: [remove( clones ); empty( clones )].  The registry of the
    Slides component is not touched. *)
Definition destroy (st : State) : State :=
  {| Slides := Slides st; list_dom := remove (clones st) (list_dom st);
     clones := []; cloneCount := cloneCount st; emitted := emitted st |}.

End ClonesDestroy.

(* ===================================================================== *)
(** ** Slide: distance, destruction, attributes *)
(* ===================================================================== *)

Module SlideMore.
Import JS SlideStatus.

(** [getAttribute( elm, attr )]. *)
Definition getAttr (a : string) (l : list (string * string)) : option string :=
  match filter (fun p => String.eqb a (fst p) = true) l with
  | p :: _ => Some (snd p)
  | [] => None
  end.

(** [removeAttribute( elm, attrs )]. *)
Definition removeAttrs (names : list string) (l : list (string * string))
  : list (string * string) :=
  filter (fun p => existsb (String.eqb (fst p)) names = false) l.

(** [isWithin( from, distance )], with [options.rewind], [Splide.is( LOOP )]
    and [Splide.length] as arguments. *)
Definition isWithin (c : Config) (rewind is_loop : bool) (length : Z)
    (from distance : Z) : bool :=
  let diff := Z.abs (from - index c) in
  let diff := if negb (isClone c) && (rewind || is_loop)
              then Z.min diff (length - diff)
              else diff in
  diff <=? distance.

(** [destroy], with the two constants it takes from constants/classes and
    constants/attributes and the style the slide had when it was made. *)
Definition destroy (STATUS_CLASSES ALL_ATTRIBUTES : list string)
    (styles : option string) (s : State) : State :=
  {| classes := fold_left removeClass STATUS_CLASSES (classes s);
     attrs := setAttr "style" styles (removeAttrs ALL_ATTRIBUTES (attrs s));
     focusable_tabindex := focusable_tabindex s;
     destroyed := true;
     emitted := emitted s |}.

(** [onMove]. *)
Definition onMove (c : Config) (e : Env) (s : State) : State :=
  if negb (destroyed s) then update c e s else s.

End SlideMore.

(* ===================================================================== *)
(** ** Arrows: init *)
(* ===================================================================== *)

Module Arrows.
Import JS.

(** [options.arrows]: absent, a boolean, or 'slider'. *)
Inductive ArrowsOption :=
| ArrowsUndefined
| ArrowsFalse
| ArrowsTrue
| ArrowsSlider.

Definition is_on (o : ArrowsOption) : bool :=
  match o with
  | ArrowsTrue | ArrowsSlider => true
  | ArrowsUndefined | ArrowsFalse => false
  end.

(** An element: one found in the markup or one the component made. *)
Inductive Node :=
| InMarkup (id : nat)
| Made (id : nat).

(** Where [createArrows] puts the wrapper: in front of the first child of
    the slider element or of the root. *)
Inductive Place :=
| InSlider
| InRoot.

Record State := {
  wrapper : option Node;
  prev : option Node;
  next : option Node;
  created : bool;
  arrows_prev : option Node;     (* arrows.prev *)
  arrows_next : option Node;
  placed : option Place;         (* where a wrapper that was made went *)
  controls : list Node;          (* the nodes given aria-controls *)
  listens : nat;                 (* how many times listen() has run *)
  displayed : option string;     (* the last value given to display( wrapper, . ) *)
  emitted : list string
}.

Definition EVENT_ARROWS_MOUNTED : string := "arrows:mounted".

Definition createArrows (o : ArrowsOption) (has_slider : bool) (s : State) : State :=
  {| wrapper := Some (Made 0); prev := Some (Made 1); next := Some (Made 2);
     created := true;
     arrows_prev := arrows_prev s; arrows_next := arrows_next s;
     placed := Some (match o with
                     | ArrowsSlider => if has_slider then InSlider else InRoot
                     | _ => InRoot
                     end);
     controls := controls s; listens := listens s;
     displayed := displayed s; emitted := emitted s |}.

Definition init (o : ArrowsOption) (has_slider : bool) (s : State) : State :=
  let s :=
    if is_on o then
      match prev s, next s with
      | Some _, Some _ => s
      | _, _ => createArrows o has_slider s
      end
    else s in
  match prev s, next s with
  | Some p, Some n =>
      let s :=
        match arrows_prev s with
        | None =>
            {| wrapper := wrapper s; prev := prev s; next := next s;
               created := created s;
               arrows_prev := Some p; arrows_next := Some n;
               placed := placed s;
               controls := controls s ++ [p; n];
               listens := S (listens s);
               displayed := displayed s;
               emitted := emitted s ++ [EVENT_ARROWS_MOUNTED] |}
        | Some _ => s
        end in
      {| wrapper := wrapper s; prev := prev s; next := next s;
         created := created s;
         arrows_prev := arrows_prev s; arrows_next := arrows_next s;
         placed := placed s; controls := controls s; listens := listens s;
         displayed := Some (match o with
                            | ArrowsFalse => "none"
                            | _ => EmptyString
                            end);
         emitted := emitted s |}
  | _, _ => s
  end.

(** The component before its first [init], given what the markup has. *)
Definition fresh (w p n : option Node) : State :=
  {| wrapper := w; prev := p; next := n; created := false;
     arrows_prev := None; arrows_next := None; placed := None;
     controls := []; listens := 0; displayed := None; emitted := [] |}.

End Arrows.

(* ===================================================================== *)
(** ** merge: copies *)
(* ===================================================================== *)

Module MergeCopy.
Import JS Merge.

(** The store [h'] holds under [t] a copy of the source [s] of the store
    [h], down to the depth [m]: the scalars; for every array of the source
    a new array, at a location [h] does not have, with the same elements
    (the elements are not copied: an object in the array is the object the
    source array holds); for every other object a new object that is a
    copy in the same way; and nothing under a key the source lacks or
    under [__proto__]. *)
Fixpoint copied (m : nat) (h : heap) (s t : loc) (h' : heap) : Prop :=
  match m with
  | O => True
  | S m' =>
      forall k,
        match own (cell_at h s) k with
        | Some (VRef l) =>
            if is_array (cell_at h l)
            then exists a, get h' t k = VRef a /\ (length h <= a)%nat
                           /\ h' !! a = Some (slice_cell (cell_at h l))
            else exists t', get h' t k = VRef t' /\ (length h <= t')%nat
                            /\ copied m' h l t' h'
        | Some v => get h' t k = v
        | None => get h' t k = VUndef
        end
  end.

End MergeCopy.

(* ===================================================================== *)
(** * Properties *)
(* ===================================================================== *)

(** ** Clones *)

Module ClonesProofs.
Import JS Clones.

Section Lists.
Context {A : Type}.
Implicit Types l base : list A.

Lemma slice_from_last l (N : Z) :
  0 < N <= Z.of_nat (length l) ->
  slice_from l (- N) = drop (length l - Z.to_nat N) l.
Proof.
  intros HN. unfold slice_from, slice, rel_index.
  assert ((- N <? 0) = true) as -> by lia.
  assert ((Z.of_nat (length l) <? 0) = false) as -> by lia.
  rewrite Z.min_id.
  replace (Z.to_nat (Z.max (Z.of_nat (length l) + - N) 0))
    with (length l - Z.to_nat N)%nat by lia.
  apply firstn_all2. rewrite length_drop. lia.
Qed.

Lemma slice_first l (N : Z) :
  0 < N <= Z.of_nat (length l) ->
  slice l 0 N = take (Z.to_nat N) l.
Proof.
  intros HN. unfold slice, rel_index. simpl.
  assert ((N <? 0) = false) as -> by lia.
  rewrite Z.min_l by lia. rewrite Z.min_l by lia.
  simpl. f_equal. lia.
Qed.

Lemma forEachi_app {S} (f : A -> Z -> S -> S) l1 l2 i s :
  forEachi f (l1 ++ l2) i s
  = forEachi f l2 (i + Z.of_nat (length l1)) (forEachi f l1 i s).
Proof.
  revert i s. induction l1 as [|x l1 IH]; intros i s; simpl.
  - f_equal. lia.
  - rewrite IH. f_equal. lia.
Qed.

(** Repeating a list: every position holds what the base list holds at
    that position modulo its length. *)
Lemma lookup_repeated base m i :
  (i < m * length base)%nat ->
  concat (replicate m base) !! i = base !! (i mod length base)%nat.
Proof.
  revert i. induction m as [|m IH]; intros i Hi; [lia|].
  assert (length base <> 0)%nat by (intros E; rewrite E in Hi; lia).
  simpl. destruct (Nat.lt_ge_cases i (length base)) as [Hlt|Hge].
  - rewrite lookup_app_l by done. by rewrite Nat.mod_small.
  - rewrite lookup_app_r by done. rewrite IH by lia.
    f_equal.
    replace i with ((i - length base) + 1 * length base)%nat at 2 by lia.
    by rewrite Nat.Div0.mod_add.
Qed.

Lemma length_repeated base m :
  length (concat (replicate m base)) = (m * length base)%nat.
Proof.
  induction m as [|m IH]; simpl; [done|]. rewrite length_app, IH. lia.
Qed.

Lemma repeated_double base m :
  concat (replicate m base) ++ concat (replicate m base)
  = concat (replicate (m + m) base).
Proof. by rewrite replicate_add, concat_app. Qed.

End Lists.

(** The loop of [generate] ends, with the real sequence repeated a whole
    number of times and at least [count] entries. *)
Lemma grow_repeats base :
  base <> [] ->
  forall fuel m (N : Z),
    (1 <= m)%nat ->
    (Z.to_nat N <= fuel + m * length base)%nat ->
    exists m', (1 <= m')%nat
      /\ grow fuel (concat (replicate m base)) N = Some (concat (replicate m' base))
      /\ N <= Z.of_nat (m' * length base).
Proof.
  intros Hne. assert (0 < length base)%nat by (destruct base; simpl; [done|lia]).
  induction fuel as [|fuel IH]; intros m N Hm Hf; simpl;
    rewrite length_repeated;
    destruct (Z.ltb_spec (Z.of_nat (m * length base)) N) as [Hlt|Hge].
  - lia.
  - exists m. split_and!; [done|done|lia].
  - rewrite repeated_double. apply IH; [lia|]. nia.
  - exists m. split_and!; [done|done|lia].
Qed.

Lemma length_real_slides n : length (real_slides n) = n.
Proof. unfold real_slides. by rewrite length_map, length_seq. Qed.

Lemma lookup_real_slides n i :
  (i < n)%nat -> real_slides n !! i = Some (real_slide i).
Proof.
  intros Hi. unfold real_slides.
  change (map real_slide (seq 0 n)) with (real_slide <$> seq 0 n).
  rewrite list_lookup_fmap, lookup_seq_lt by done. done.
Qed.

(** The sources of the head clones: the last [N] entries of the repeated
    sequence. *)
Lemma head_sources rc m (N : Z) :
  (0 < rc)%nat -> 0 < N -> N <= Z.of_nat (m * rc) ->
  drop (m * rc - Z.to_nat N) (concat (replicate m (real_slides rc)))
  = map (fun j => real_slide (Z.to_nat ((Z.of_nat j - N) mod Z.of_nat rc)))
        (seq 0 (Z.to_nat N)).
Proof.
  intros Hrc HN HL. apply list_eq. intros j.
  change (map ?f ?l) with (f <$> l).
  rewrite lookup_drop, list_lookup_fmap.
  destruct (Nat.lt_ge_cases j (Z.to_nat N)) as [Hj|Hj].
  - rewrite lookup_seq_lt by done. simpl.
    rewrite lookup_repeated by (rewrite length_real_slides; lia).
    rewrite length_real_slides.
    rewrite lookup_real_slides by (apply Nat.mod_upper_bound; lia).
    do 2 f_equal. apply Nat2Z.inj.
    rewrite Nat2Z.inj_mod, Z2Nat.id by (apply Z.mod_pos_bound; lia).
    replace (Z.of_nat (m * rc - Z.to_nat N + j))
      with (Z.of_nat j - N + Z.of_nat m * Z.of_nat rc) by lia.
    by rewrite Z.mod_add by lia.
  - rewrite lookup_seq_ge by done. simpl.
    apply lookup_ge_None. rewrite length_repeated, length_real_slides. lia.
Qed.

(** The sources of the tail clones: the first [N] entries. *)
Lemma tail_sources rc m (N : Z) :
  (0 < rc)%nat -> 0 < N -> N <= Z.of_nat (m * rc) ->
  take (Z.to_nat N) (concat (replicate m (real_slides rc)))
  = map (fun j => real_slide (Z.to_nat (Z.of_nat j mod Z.of_nat rc)))
        (seq 0 (Z.to_nat N)).
Proof.
  intros Hrc HN HL. apply list_eq. intros j.
  change (map ?f ?l) with (f <$> l).
  rewrite list_lookup_fmap.
  destruct (Nat.lt_ge_cases j (Z.to_nat N)) as [Hj|Hj].
  - rewrite lookup_take_lt by done.
    rewrite lookup_seq_lt by done. simpl.
    rewrite lookup_repeated by (rewrite length_real_slides; lia).
    rewrite length_real_slides.
    rewrite lookup_real_slides by (apply Nat.mod_upper_bound; lia).
    do 2 f_equal. apply Nat2Z.inj.
    rewrite Nat2Z.inj_mod, Z2Nat.id by (apply Z.mod_pos_bound; lia). done.
  - rewrite lookup_take_ge by done.
    by rewrite lookup_seq_ge by done.
Qed.

(** Where [register] and [before] put a new entry. *)
Lemma insert_sorted_between s l1 l2 :
  Forall (fun x => index x <= index s) l1 ->
  match l2 with [] => True | y :: _ => index s < index y end ->
  insert_sorted s (l1 ++ l2) = l1 ++ s :: l2.
Proof.
  induction 1 as [|x l1 Hx _ IH]; intros H2; simpl.
  - destruct l2 as [|y l2]; [done|]. simpl.
    by assert ((index s <? index y) = true) as -> by lia.
  - assert ((index s <? index x) = false) as -> by lia.
    by rewrite IH.
Qed.

Lemma insert_before_here c r l1 l2 :
  r ∉ l1 -> insert_before c r (l1 ++ r :: l2) = l1 ++ c :: r :: l2.
Proof.
  induction l1 as [|x l1 IH]; intros Hr; simpl.
  - by destruct (Elm_eqb_dec r r).
  - apply not_elem_of_cons in Hr as [Hx Hr].
    destruct (Elm_eqb_dec x r) as [->|_]; [done|].
    by rewrite IH.
Qed.

Lemma real_slides_cons rc :
  (0 < rc)%nat -> exists l, real_slides rc = real_slide 0 :: l
    /\ real_elms rc = RealElm 0 :: map slide l.
Proof.
  intros H. destruct rc as [|rc]; [lia|]. unfold real_elms, real_slides. simpl.
  eexists. split; reflexivity.
Qed.

Lemma seq_snoc a : seq 0 (S a) = seq 0 a ++ [a].
Proof. by rewrite seq_S. Qed.

Section Generate.
Variables (rc : nat) (N : Z) (st : State) (slides : list SlideH).
Hypothesis Hrc : (0 < rc)%nat.
Hypothesis HN : 0 < N.
Hypothesis Hslides : exists l, slides = real_slide 0 :: l.

Local Abbreviation body := (generate_one N (Z.of_nat rc) slides).

(** One head clone more. *)
Lemma generate_one_head a :
  Z.of_nat a < N ->
  body (real_slide (Z.to_nat ((Z.of_nat a - N) mod Z.of_nat rc))) (Z.of_nat a)
       (installed rc N a 0 st)
  = installed rc N (S a) 0 st.
Proof using Hrc HN Hslides.
  intros Ha. destruct Hslides as [l0 ->].
  destruct (real_slides_cons rc Hrc) as (l & Hl & Hel).
  assert (0 <= (Z.of_nat a - N) mod Z.of_nat rc) as Hs by (apply Z.mod_pos_bound; lia).
  unfold generate_one, register, installed, cloneDeep.
  rewrite !seq_snoc, !map_app. simpl.
  assert ((Z.of_nat a <? N) = true) as -> by lia. simpl.
  rewrite !app_nil_r, Z2Nat.id, Z.add_0_r by done.
  fold (head_clone rc N a). f_equal.
  - rewrite <- (app_nil_r (map _ _ ++ real_slides rc)) at 1.
    rewrite <- app_assoc.
    rewrite insert_sorted_between; [by rewrite app_nil_r, <- app_assoc| |].
    + apply Forall_forall. intros x Hx. apply list_elem_of_In in Hx.
      apply in_map_iff in Hx as (j & <- & Hj).
      apply in_seq in Hj. simpl. lia.
    + rewrite Hl. simpl. lia.
  - rewrite Hel, insert_before_here; [by rewrite <- app_assoc|].
    intros Hin. apply list_elem_of_In in Hin.
    apply in_map_iff in Hin as (x & Hx & Hin).
    apply in_map_iff in Hin as (j & <- & _). discriminate.
  - by rewrite <- !app_assoc.
Qed.

(** One tail clone more, once the [n] head clones are in. *)
Lemma generate_one_tail b :
  body (real_slide (Z.to_nat (Z.of_nat b mod Z.of_nat rc))) (N + Z.of_nat b)
       (installed rc N (Z.to_nat N) b st)
  = installed rc N (Z.to_nat N) (S b) st.
Proof using Hrc HN Hslides.
  assert (0 <= Z.of_nat b mod Z.of_nat rc) as Hs by (apply Z.mod_pos_bound; lia).
  unfold generate_one, register, installed, cloneDeep.
  rewrite !seq_snoc, !map_app. simpl.
  assert ((N + Z.of_nat b <? N) = false) as -> by lia. simpl.
  rewrite Z2Nat.id by done.
  replace (N + Z.of_nat b - N + Z.of_nat rc) with (Z.of_nat rc + Z.of_nat b) by lia.
  fold (tail_clone rc N b). f_equal.
  - rewrite <- (app_nil_r (map _ _ ++ real_slides rc ++ map _ _)) at 1.
    rewrite insert_sorted_between; [by rewrite <- !app_assoc | | done].
    apply Forall_forall. intros x Hx.
    apply list_elem_of_In in Hx.
    apply in_app_or in Hx as [Hx|Hx]; [|apply in_app_or in Hx as [Hx|Hx]];
      apply in_map_iff in Hx as (j & <- & Hj); apply in_seq in Hj; simpl; lia.
  - by rewrite <- !app_assoc.
  - by rewrite <- !app_assoc.
Qed.

Lemma generate_heads k : forall a,
  Z.of_nat (a + k) <= N ->
  forEachi body
    (map (fun j => real_slide (Z.to_nat ((Z.of_nat j - N) mod Z.of_nat rc))) (seq a k))
    (Z.of_nat a) (installed rc N a 0 st)
  = installed rc N (a + k) 0 st.
Proof using Hrc HN Hslides.
  induction k as [|k IH]; intros a Ha; simpl.
  - by rewrite Nat.add_0_r.
  - rewrite generate_one_head by lia.
    replace (Z.of_nat a + 1) with (Z.of_nat (S a)) by lia.
    rewrite IH by lia. f_equal. lia.
Qed.

Lemma generate_tails k : forall b,
  forEachi body
    (map (fun j => real_slide (Z.to_nat (Z.of_nat j mod Z.of_nat rc))) (seq b k))
    (N + Z.of_nat b) (installed rc N (Z.to_nat N) b st)
  = installed rc N (Z.to_nat N) (b + k) st.
Proof using Hrc HN Hslides.
  induction k as [|k IH]; intros b; simpl.
  - by rewrite Nat.add_0_r.
  - rewrite generate_one_tail.
    replace (N + Z.of_nat b + 1) with (N + Z.of_nat (S b)) by lia.
    rewrite IH. f_equal. lia.
Qed.

End Generate.

(** [generate] always returns: its loop is not entered on an empty
    registry and ends on any other. *)
Lemma generate_returns (count : Z) st : is_Some (generate count st).
Proof.
  unfold generate. destruct (Slides st) as [|x l] eqn:E; [by eexists|].
  assert (truthy (Z.of_nat (length (x :: l))) = true) as ->
    by (unfold truthy; apply negb_true_iff; simpl; lia).
  destruct (grow_repeats (x :: l) ltac:(done) (Z.to_nat count) 1 count)
    as (m & _ & Hg & _); [done|lia|].
  simpl in Hg. rewrite app_nil_r in Hg. rewrite Hg. by eexists.
Qed.

(** What [generate] does to a slider that has its real slides only. *)
Lemma generate_installs rc (N : Z) st :
  (0 < rc)%nat -> 0 < N ->
  Slides st = real_slides rc -> list_dom st = real_elms rc ->
  generate N st = Some (installed rc N (Z.to_nat N) (Z.to_nat N) st).
Proof.
  intros Hrc HN HS HD. unfold generate. rewrite HS, length_real_slides.
  assert (truthy (Z.of_nat rc) = true) as -> by (unfold truthy; apply negb_true_iff; lia).
  assert (real_slides rc <> []) as Hne.
  { destruct (real_slides_cons rc Hrc) as (l & -> & _). done. }
  destruct (grow_repeats (real_slides rc) Hne (Z.to_nat N) 1 N) as (m & Hm & Hg & HL);
    [done|lia|].
  simpl in Hg. rewrite app_nil_r in Hg. rewrite Hg.
  rewrite length_real_slides in HL.
  rewrite slice_from_last, slice_first by (rewrite length_repeated, length_real_slides; lia).
  rewrite length_repeated, length_real_slides.
  rewrite head_sources, tail_sources by done.
  assert (exists l, concat (replicate m (real_slides rc)) = real_slide 0 :: l) as Hhd.
  { destruct m as [|m]; [lia|]. destruct (real_slides_cons rc Hrc) as (l & -> & _).
    simpl. eauto. }
  assert (st = installed rc N 0 0 st) as Hst.
  { destruct st; unfold installed; simpl in *. subst. by rewrite !app_nil_r. }
  rewrite forEachi_app, length_map, length_seq. f_equal.
  rewrite Hst at 1.
  change 0 with (Z.of_nat 0) at 2.
  rewrite (generate_heads rc N st _ Hrc HN Hhd (Z.to_nat N) 0%nat) by lia.
  simpl. rewrite Z2Nat.id by lia.
  replace (0 + N) with (N + Z.of_nat 0) by lia.
  by rewrite (generate_tails rc N st _ Hrc HN Hhd (Z.to_nat N) 0%nat).
Qed.

Lemma head_clone_ok rc (N : Z) j :
  (0 < rc)%nat -> (j < Z.to_nat N)%nat ->
  let c := head_clone rc N j in
  - N <= index c <= -1
  /\ 0 <= slideIndex c < Z.of_nat rc
  /\ exists r, real_slides rc !! Z.to_nat (slideIndex c) = Some r
               /\ index r = slideIndex c
               /\ slide c = cloneDeep (slide r) (Z.of_nat j).
Proof.
  intros Hrc Hj. simpl.
  assert (0 <= (Z.of_nat j - N) mod Z.of_nat rc < Z.of_nat rc) by (apply Z.mod_pos_bound; lia).
  split_and!; try lia.
  eexists. rewrite lookup_real_slides by lia. split; [done|].
  unfold real_slide, cloneDeep. simpl. rewrite Z2Nat.id by lia. done.
Qed.

Lemma tail_clone_ok rc (N : Z) j :
  (0 < rc)%nat -> (j < Z.to_nat N)%nat ->
  let c := tail_clone rc N j in
  Z.of_nat rc <= index c <= Z.of_nat rc + N - 1
  /\ 0 <= slideIndex c < Z.of_nat rc
  /\ exists r, real_slides rc !! Z.to_nat (slideIndex c) = Some r
               /\ index r = slideIndex c
               /\ slide c = cloneDeep (slide r) (N + Z.of_nat j).
Proof.
  intros Hrc Hj. simpl.
  assert (0 <= Z.of_nat j mod Z.of_nat rc < Z.of_nat rc) by (apply Z.mod_pos_bound; lia).
  split_and!; try lia.
  eexists. rewrite lookup_real_slides by lia. split; [done|].
  unfold real_slide, cloneDeep. simpl. rewrite Z2Nat.id by lia. done.
Qed.

(** C1.  On a loop slider with [rc > 0] real slides, generating [N > 0]
    clones ends and leaves the registry and the list as
    [heads ++ real slides ++ tails]: exactly [N] head clones in front of
    the first real slide, with the placement indices [-N .. -1] in order,
    and exactly [N] tail clones behind the last one, with the indices
    [rc .. rc + N - 1] in order.  Every clone is the copy of a real slide
    and carries that slide's index, which lies in [0, rc); this holds as
    well when [rc < N], the real sequence being repeated first. *)
Theorem generate_head_and_tail_clones (rc : nat) (N : Z) (st : State) :
  (0 < rc)%nat -> 0 < N ->
  Slides st = real_slides rc -> list_dom st = real_elms rc ->
  exists st',
    generate N st = Some st'
    /\ Slides st' = head_clones rc N ++ real_slides rc ++ tail_clones rc N
    /\ list_dom st' = map slide (head_clones rc N) ++ real_elms rc
                      ++ map slide (tail_clones rc N)
    /\ clones st' = clones st ++ map slide (head_clones rc N)
                    ++ map slide (tail_clones rc N)
    /\ Z.of_nat (length (head_clones rc N)) = N
    /\ Z.of_nat (length (tail_clones rc N)) = N
    /\ map index (head_clones rc N) = map (fun j => - N + Z.of_nat j) (seq 0 (Z.to_nat N))
    /\ map index (tail_clones rc N)
       = map (fun j => Z.of_nat rc + Z.of_nat j) (seq 0 (Z.to_nat N))
    /\ Forall (fun c => isClone c = true
                 /\ 0 <= slideIndex c < Z.of_nat rc
                 /\ exists r q, real_slides rc !! Z.to_nat (slideIndex c) = Some r
                                /\ index r = slideIndex c
                                /\ slide c = cloneDeep (slide r) q)
              (head_clones rc N ++ tail_clones rc N).
Proof.
  intros Hrc HN HS HD. eexists. split; [by apply generate_installs|].
  unfold installed, head_clones, tail_clones. simpl.
  rewrite !length_map, !length_seq, !map_map. simpl.
  split_and!; try done; try lia.
  - apply map_ext. intros j. lia.
  - apply Forall_app. split; apply Forall_forall; intros c Hc;
      apply list_elem_of_In, in_map_iff in Hc as (j & <- & Hj); apply in_seq in Hj.
    + destruct (head_clone_ok rc N j) as (_ & Hs & r & Hr); [done|lia|].
      split_and!; [unfold isClone; apply Z.ltb_lt; lia|lia|lia|by eexists _, _].
    + destruct (tail_clone_ok rc N j) as (_ & Hs & r & Hr); [done|lia|].
      split_and!; [unfold isClone; apply Z.ltb_lt; lia|lia|lia|by eexists _, _].
Qed.

(** Two real slides and five clones a side: the sequence is repeated and
    five head and five tail clones come out. *)
Lemma generate_two_slides_five_clones :
  exists st',
    generate 5 (st0 2) = Some st'
    /\ length (head_clones 2 5) = 5%nat
    /\ length (tail_clones 2 5) = 5%nat
    /\ Slides st' = head_clones 2 5 ++ real_slides 2 ++ tail_clones 2 5
    /\ map slideIndex (head_clones 2 5) = [1; 0; 1; 0; 1]
    /\ map slideIndex (tail_clones 2 5) = [0; 1; 0; 1; 0].
Proof.
  destruct (generate_head_and_tail_clones 2 5 (st0 2)) as (st' & Hg & HS & _);
    [lia | lia | reflexivity | reflexivity |].
  exists st'. repeat split; try assumption; reflexivity.
Defined.

(** C2.  On a slider whose type is not 'loop' the clone count is 0 and
    [init] generates and registers nothing: the registry, the list and the
    clones are what they were, so a registry of [rc] real slides holds
    [rc] handles, none of them a clone. *)
Theorem no_clones_unless_loop (o : Options) (env : Env) (st : State) :
  type o <> LOOP ->
  computeCloneCount o env st = 0
  /\ init o env st = Some (set_cloneCount 0 st)
  /\ (forall st', init o env st = Some st' ->
        Slides st' = Slides st /\ list_dom st' = list_dom st
        /\ clones st' = clones st /\ emitted st' = emitted st
        /\ cloneCount st' = 0
        /\ forall rc, Slides st = real_slides rc ->
             getLength false st' = Z.of_nat rc /\ getLength true st' = Z.of_nat rc).
Proof.
  intros Ht.
  assert (computeCloneCount o env st = 0) as Hc.
  { unfold computeCloneCount, is_type.
    destruct (String.eqb_spec (type o) LOOP); [done|reflexivity]. }
  assert (init o env st = Some (set_cloneCount 0 st)) as Hi.
  { unfold init. rewrite Hc. reflexivity. }
  split_and!; [done|done|].
  intros st' Hst'. rewrite Hi in Hst'. injection Hst' as <-. simpl.
  split_and!; try done.
  intros rc Hrc. unfold getLength. simpl. rewrite Hrc.
  assert (filter (fun s => isClone s = false) (real_slides rc) = real_slides rc) as ->.
  { unfold real_slides. induction (seq 0 rc) as [|i l IH]; [done|].
    simpl. rewrite filter_cons_True by done. by rewrite IH. }
  by rewrite length_real_slides.
Qed.

Lemma no_clones_on_a_slide_slider :
  computeCloneCount slide_options no_fixed_size (st0 5) = 0
  /\ option_map (fun s => getLength false s)
       (init slide_options no_fixed_size (st0 5)) = Some 5.
Proof.
  destruct (no_clones_unless_loop slide_options no_fixed_size (st0 5)) as (Hc & Hi & _).
  - discriminate.
  - split; [exact Hc|]. rewrite Hi. reflexivity.
Defined.

(** C3, as stated, fails: with a fixed size of 100 and a track of width 0
    the ceiling is 0, and the code falls through to the per-page option,
    3 x 2 = 6 clones, where the statement gives 0 x 2 = 0. *)
Lemma cloneCount_not_as_stated :
  computeCloneCount loop_options hidden_track (st0 5) = 6
  /\ stated_cloneCount loop_options hidden_track (st0 5) = 0
  /\ computeCloneCount loop_options hidden_track (st0 5)
     <> stated_cloneCount loop_options hidden_track (st0 5).
Proof. split_and!; [reflexivity | reflexivity | discriminate]. Qed.

(** C3, amended.  On a loop slider without a clone count of its own, the
    clone count is a base count times the safety factor (2 without
    dragging, [flickMaxPages + 1] with it, [flickMaxPages] counting as 1
    when absent or 0).  The base count is the ceiling of track width over
    fixed size, the quotient being the double the division gives, when a
    fixed size is set (it is not 0 nor NaN) and that ceiling is not 0;
    otherwise the number of real slides when the width is automatic and
    that number is not 0; otherwise the per-page option. *)
Theorem cloneCount_formula (o : Options) (env : Env) (st : State) :
  type o = LOOP -> clones_opt o = 0 ->
  let fixedCount := ceil (fdiv (trackSize env) (fixedSize env)) in
  let base :=
    if ftruthy (fixedSize env) && truthy fixedCount then fixedCount
    else if autoWidth o && truthy (getLength true st) then getLength true st
    else perPage o in
  computeCloneCount o env st = base * factor o
  /\ factor o = (if drag o
                 then (if flickMaxPages o =? 0 then 1 else flickMaxPages o) + 1
                 else 2).
Proof.
  intros Ht Hc. simpl. unfold computeCloneCount, is_type, factor, or_else.
  rewrite Ht, Hc. simpl.
  split.
  - f_equal.
    destruct (ftruthy (fixedSize env));
      destruct (truthy (ceil (fdiv (trackSize env) (fixedSize env)))) eqn:E1;
      destruct (autoWidth o);
      destruct (truthy (getLength true st)) eqn:E2;
      simpl; rewrite ?E1, ?E2; simpl; rewrite ?E1, ?E2; done.
  - unfold truthy. by destruct (flickMaxPages o =? 0).
Qed.

(** On the hidden track the base count is the per-page option, 3; with
    a fixed size of 50.07 on a track of 150.21 it is the ceiling of the
    quotient as the division rounds it, 3 and not 4. *)
Lemma cloneCount_formula_on_hidden_track :
  computeCloneCount loop_options hidden_track (st0 5) = 3 * 2
  /\ computeCloneCount one_per_page rounded_track (st0 5) = 3 * 2.
Proof.
  split.
  - destruct (cloneCount_formula loop_options hidden_track (st0 5)) as [H _];
      [reflexivity | reflexivity |].
    exact H.
  - destruct (cloneCount_formula one_per_page rounded_track (st0 5)) as [H _];
      [reflexivity | reflexivity |].
    exact H.
Defined.

End ClonesProofs.

(** ** Slide status *)

Module SlideStatusProofs.
Import JS SlideStatus.

Lemma hasClass_app cl1 cl2 c :
  hasClass (cl1 ++ cl2) c = hasClass cl1 c || hasClass cl2 c.
Proof. apply existsb_app. Qed.

Lemma hasClass_addClass cl c : hasClass (addClass cl c) c = true.
Proof.
  unfold addClass. destruct (hasClass cl c) eqn:E; [done|].
  rewrite hasClass_app. simpl. rewrite String.eqb_refl. by rewrite orb_true_r.
Qed.

Lemma hasClass_removeClass cl c : hasClass (removeClass cl c) c = false.
Proof.
  unfold removeClass, hasClass. induction cl as [|x cl IH]; [done|].
  destruct (String.eqb c x) eqn:E.
  - by rewrite filter_cons_False by (rewrite E; done).
  - rewrite filter_cons_True by done. simpl. by rewrite E.
Qed.

Lemma hasClass_toggle cl c b : hasClass (toggleClass cl c b) c = b.
Proof. destruct b; [apply hasClass_addClass | apply hasClass_removeClass]. Qed.

Lemma hasClass_toggle_other cl c c' b :
  c <> c' -> hasClass (toggleClass cl c' b) c = hasClass cl c.
Proof.
  intros Hne. assert (String.eqb c c' = false) as Hcc by by apply String.eqb_neq.
  destruct b; simpl.
  - unfold addClass. destruct (hasClass cl c'); [done|].
    rewrite hasClass_app. simpl. by rewrite Hcc, !orb_false_r.
  - unfold removeClass, hasClass. induction cl as [|x cl IH]; [done|].
    destruct (String.eqb c' x) eqn:E.
    + rewrite filter_cons_False by (rewrite E; done). simpl.
      apply String.eqb_eq in E as <-. by rewrite Hcc.
    + rewrite filter_cons_True by done. simpl. by rewrite IH.
Qed.

Lemma differs_false f b : differs f b = false -> truth f = b /\ is_boolean f = true.
Proof. by destruct f, b. Qed.

Lemma differs_boolean f b : is_boolean f = true -> differs f b = negb (Bool.eqb f b).
Proof. by destruct f, b. Qed.

Lemma updateActivity_emitted c active s :
  emitted (updateActivity c active s)
  = emitted s ++ (if differs active (hasClass (classes s) CLASS_ACTIVE)
                  then [if truth active then EVENT_ACTIVE else EVENT_INACTIVE]
                  else []).
Proof.
  unfold updateActivity.
  destruct (differs active (hasClass (classes s) CLASS_ACTIVE)); simpl.
  - by destruct (isNavigation c).
  - by rewrite app_nil_r.
Qed.

Lemma updateActivity_class c active s :
  hasClass (classes (updateActivity c active s)) CLASS_ACTIVE = active.
Proof.
  unfold updateActivity.
  destruct (differs active (hasClass (classes s) CLASS_ACTIVE)) eqn:E; simpl.
  - destruct (isNavigation c); simpl; apply hasClass_toggle.
  - symmetry. by apply differs_false in E as [E _].
Qed.

Lemma updateActivity_other c active s cls :
  cls <> CLASS_ACTIVE ->
  hasClass (classes (updateActivity c active s)) cls = hasClass (classes s) cls
  /\ destroyed (updateActivity c active s) = destroyed s.
Proof.
  intros Hne. unfold updateActivity.
  destruct (differs active (hasClass (classes s) CLASS_ACTIVE)); simpl; [|done].
  destruct (isNavigation c); simpl; by rewrite hasClass_toggle_other.
Qed.

Lemma updateVisibility_emitted c e visible s :
  emitted (updateVisibility c e visible s)
  = emitted s ++ (if differs visible (hasClass (classes s) CLASS_VISIBLE)
                  then [if truth visible then EVENT_VISIBLE else EVENT_HIDDEN]
                  else []).
Proof.
  unfold updateVisibility. simpl.
  destruct (differs visible (hasClass (classes s) CLASS_VISIBLE)); simpl; [done|].
  by rewrite app_nil_r.
Qed.

Lemma updateVisibility_class c e visible s :
  hasClass (classes (updateVisibility c e visible s)) CLASS_VISIBLE = visible.
Proof.
  unfold updateVisibility. simpl.
  destruct (differs visible (hasClass (classes s) CLASS_VISIBLE)) eqn:E; simpl.
  - apply hasClass_toggle.
  - symmetry. by apply differs_false in E as [E _].
Qed.

Lemma updateVisibility_other c e visible s cls :
  cls <> CLASS_VISIBLE ->
  hasClass (classes (updateVisibility c e visible s)) cls = hasClass (classes s) cls
  /\ destroyed (updateVisibility c e visible s) = destroyed s.
Proof.
  intros Hne. unfold updateVisibility. simpl.
  destruct (differs visible (hasClass (classes s) CLASS_VISIBLE)); simpl; [|done].
  by rewrite hasClass_toggle_other.
Qed.

(** What one [update] leaves behind and what it emits. *)
Lemma update_result c e s :
  destroyed s = false ->
  let s' := update c e s in
  hasClass (classes s') CLASS_ACTIVE = isActive c e
  /\ hasClass (classes s') CLASS_VISIBLE = isVisible c e
  /\ destroyed s' = false
  /\ emitted s'
     = emitted s
       ++ (if differs (isActive c e) (hasClass (classes s) CLASS_ACTIVE)
           then [if truth (isActive c e) then EVENT_ACTIVE else EVENT_INACTIVE] else [])
       ++ (if differs (isVisible c e) (hasClass (classes s) CLASS_VISIBLE)
           then [if truth (isVisible c e) then EVENT_VISIBLE else EVENT_HIDDEN] else []).
Proof.
  intros Hd. unfold update. rewrite Hd. simpl.
  rewrite !hasClass_toggle_other by discriminate.
  destruct (updateVisibility_other c e (isVisible c e)
              (updateActivity c (isActive c e) s) CLASS_ACTIVE) as [-> ->]; [discriminate|].
  destruct (updateActivity_other c (isActive c e) s CLASS_VISIBLE) as [Hv ->]; [discriminate|].
  rewrite updateActivity_class, updateVisibility_class.
  rewrite updateVisibility_emitted, updateActivity_emitted, Hv.
  by rewrite <- app_assoc.
Qed.

(** The events of [updateActivity] and [updateVisibility], whatever the
    flag is.  A boolean flag is announced when it differs from the class
    the slide carries and leaves the class equal to it, so the same flag
    again announces nothing.  A flag that is falsy without being [false]
    differs from the class whatever the class is: 'inactive', or 'hidden',
    is emitted at every call. *)
Lemma status_events (c : Config) (e : Env) (flag : Flag) (s : State) :
  emitted (updateActivity c flag s)
  = emitted s ++ (if differs flag (hasClass (classes s) CLASS_ACTIVE)
                  then [if truth flag then EVENT_ACTIVE else EVENT_INACTIVE] else [])
  /\ emitted (updateVisibility c e flag s)
     = emitted s ++ (if differs flag (hasClass (classes s) CLASS_VISIBLE)
                     then [if truth flag then EVENT_VISIBLE else EVENT_HIDDEN] else [])
  /\ (is_boolean flag = true ->
      emitted (updateActivity c flag (updateActivity c flag s))
      = emitted (updateActivity c flag s)
      /\ emitted (updateVisibility c e flag (updateVisibility c e flag s))
         = emitted (updateVisibility c e flag s))
  /\ (flag = Falsy ->
      emitted (updateActivity c flag (updateActivity c flag s))
      = emitted s ++ [EVENT_INACTIVE; EVENT_INACTIVE]
      /\ emitted (updateVisibility c e flag (updateVisibility c e flag s))
         = emitted s ++ [EVENT_HIDDEN; EVENT_HIDDEN]).
Proof.
  split_and!.
  - apply updateActivity_emitted.
  - apply updateVisibility_emitted.
  - intros Hb. split.
    + rewrite (updateActivity_emitted c flag (updateActivity _ _ _)).
      rewrite updateActivity_class, differs_boolean by done.
      rewrite Bool.eqb_reflx. by rewrite app_nil_r.
    + rewrite (updateVisibility_emitted c e flag (updateVisibility _ _ _ _)).
      rewrite updateVisibility_class, differs_boolean by done.
      rewrite Bool.eqb_reflx. by rewrite app_nil_r.
  - intros ->. split.
    + rewrite !updateActivity_emitted. simpl. by rewrite <- app_assoc.
    + rewrite !updateVisibility_emitted. simpl. by rewrite <- app_assoc.
Qed.

(** C8 fails on the code.  With [options.cloneStatus] undefined, a slide
    that is not at the current index has [isActive()] undefined, and
    [undefined !== hasClass( slide, 'is-active' )] holds whatever the class
    is: every [update] emits 'inactive', though the slide was inactive and
    stays so.  Here the slide comes into view at the first update, which
    emits 'visible' once; the second update finds nothing changed and
    emits 'inactive' again. *)
Theorem inactive_emitted_at_every_update :
  let c := {| index := 1; slideIndex := -1; isNavigation := false;
              cloneStatus := Falsy; slideFocus := false; is_fade := false |} in
  let e := {| curr := 0; track_left := 0; track_right := 100;
              slide_left := 50; slide_right := 100 |} in
  let s := {| classes := []; attrs := []; focusable_tabindex := None;
              destroyed := false; emitted := [] |} in
  hasClass (classes s) CLASS_ACTIVE = false
  /\ emitted (update c e s) = [EVENT_INACTIVE; EVENT_VISIBLE]
  /\ hasClass (classes (update c e s)) CLASS_ACTIVE = false
  /\ hasClass (classes (update c e s)) CLASS_VISIBLE = true
  /\ emitted (update c e (update c e s))
     = [EVENT_INACTIVE; EVENT_VISIBLE; EVENT_INACTIVE].
Proof. intros c e s. split_and!; reflexivity. Qed.

End SlideStatusProofs.

(** ** Layout *)

Module LayoutProofs.
Import JS Layout.

(** C9.  When the registry has no handle to give, as in a slider without
    slides, [slideSize], [totalSize] and [sliderSize] are 0. *)
Theorem sizes_of_empty_slider (p : Page) (slides : list Clones.SlideH) :
  (forall i, getAt slides i = None) ->
  (forall index withoutGap, slideSize p slides index withoutGap = 0%Q)
  /\ (forall index withoutGap, totalSize p slides index withoutGap = 0%Q)
  /\ sliderSize p slides = 0%Q
  /\ getGap p slides = 0%Q.
Proof.
  intros Hnone. unfold slideSize, totalSize, sliderSize, getGap.
  split_and!; intros; by rewrite ?Hnone.
Qed.

Lemma sizes_without_slides :
  slideSize blank_page [] (Some 2) false = 0%Q
  /\ totalSize blank_page [] 2 false = 0%Q
  /\ sliderSize blank_page [] = 0%Q.
Proof.
  destruct (sizes_of_empty_slider blank_page []) as (H1 & H2 & H3 & _).
  - intros i. reflexivity.
  - split_and!; [apply H1 | apply H2 | exact H3].
Defined.

End LayoutProofs.

(** ** Mount and destroy *)

Module CoreProofs.
Import JS Core.

Lemma fold_left_pointwise {A B} (f g : A -> B -> A) l a :
  (forall a b, f a b = g a b) -> fold_left f l a = fold_left g l a.
Proof. intros H. revert a. induction l as [|b l IH]; intros a; simpl; [done|]. by rewrite H, IH. Qed.

Lemma log_all_nil w : log_all [] w = w.
Proof. destruct w. unfold log_all. simpl. by rewrite app_nil_r. Qed.

Lemma log_all_log_all t1 t2 w : log_all t2 (log_all t1 w) = log_all (t1 ++ t2) w.
Proof. unfold log_all. simpl. by rewrite app_assoc. Qed.

Lemma log_as_log_all a w : log a w = log_all [a] w.
Proof. reflexivity. Qed.

Lemma fold_log_all {K} (f : K -> list Action) ks w :
  fold_left (fun w k => log_all (f k) w) ks w = log_all (flat_map f ks) w.
Proof.
  revert w. induction ks as [|k ks IH]; intros w; simpl.
  - by rewrite log_all_nil.
  - by rewrite IH, log_all_log_all.
Qed.

(** The pass of [destroy] over the registry. *)
Lemma forOwn_destroy_hooks completely comps w :
  forOwn comps
    (fun component key w =>
       if c_destroy component then log (DestroyHook key completely) w else w)
    true w
  = log_all (destroy_hooks completely comps (rev (ownKeys comps))) w.
Proof.
  unfold forOwn, destroy_hooks. rewrite <- fold_log_all.
  apply fold_left_pointwise. intros a k.
  destruct (decide (k = PROTO)); [by rewrite log_all_nil|].
  destruct (oget comps k) as [c|]; [|by rewrite log_all_nil].
  destruct (c_destroy c); [done|by rewrite log_all_nil].
Qed.

(** The second pass of [mount]. *)
Lemma forOwn_mount_hooks comps w :
  forOwn comps
    (fun component key w => if c_mount component then log (MountHook key) w else w)
    false w
  = log_all (mount_hooks comps) w.
Proof.
  unfold forOwn, mount_hooks. rewrite <- fold_log_all.
  apply fold_left_pointwise. intros a k.
  destruct (decide (k = PROTO)); [by rewrite log_all_nil|].
  destruct (oget comps k) as [c|]; [|by rewrite log_all_nil].
  destruct (c_mount c); [done|by rewrite log_all_nil].
Qed.

(** The first pass of [mount]. *)
Lemma forOwn_setup ctors w :
  forOwn ctors
    (fun C key w =>
       let component := instantiate C in
       let w := log (Instantiated key (ctor_id C)) w in
       let w := set_Components (oset key component (Components w)) w in
       if c_setup component then log (SetupHook key) w else w)
    false w
  = set_Components (registered ctors (Components w)) (log_all (setup_actions ctors) w).
Proof.
  unfold forOwn, setup_actions, registered.
  generalize (ownKeys ctors) as ks. intros ks. revert w.
  induction ks as [|k ks IH]; intros w; simpl.
  - destruct w. unfold set_Components, log_all. simpl. by rewrite app_nil_r.
  - rewrite IH. destruct (decide (k = PROTO)); [done|].
    destruct (oget ctors k) as [C|]; [|done].
    destruct w. unfold set_Components, log_all, log. simpl.
    destruct (with_setup C); simpl; f_equal; by rewrite <- ?app_assoc.
Qed.

Section WithLibrary.
Variable ComponentConstructors : Obj ComponentConstructor.
Variable Fade Slide : ComponentConstructor.
Variable DEFAULT_EVENT_PRIORITY : Z.

Local Abbreviation emit := (Core.emit DEFAULT_EVENT_PRIORITY).
Local Abbreviation destroy := (Core.destroy DEFAULT_EVENT_PRIORITY).
Local Abbreviation destroy_with := (Core.destroy_with DEFAULT_EVENT_PRIORITY).
Local Abbreviation teardown := (Core.teardown).
Local Abbreviation event_on := (Core.event_on DEFAULT_EVENT_PRIORITY).
Local Abbreviation invoke := (Core.invoke DEFAULT_EVENT_PRIORITY).
Local Abbreviation mount :=
  (Core.mount ComponentConstructors Fade Slide DEFAULT_EVENT_PRIORITY).

Lemma bus_ok_user_only w ev :
  bus_ok w -> ev <> EVENT_READY -> user_only (handlers_for ev (bus w)).
Proof.
  intros Hok Hev. apply Forall_forall. intros x Hx.
  apply list_elem_of_filter in Hx as [He Hx].
  destruct (h_callback x) as [id|c] eqn:E; [by eexists|].
  specialize (Hok x c Hx E). congruence.
Qed.

Lemma invoke_user_only em ev hs w :
  user_only hs ->
  fold_left (invoke em ev) hs (Some w) = Some (log_all (calls ev hs) w).
Proof.
  intros H. revert w. induction H as [|x hs [id Hx] _ IH]; intros w.
  - simpl. by rewrite log_all_nil.
  - cbn [fold_left]. unfold Core.invoke at 2. rewrite Hx, IH.
    unfold calls. cbn [flat_map]. rewrite Hx. simpl.
    by rewrite log_as_log_all, log_all_log_all.
Qed.

(** An emit that meets user callbacks only. *)
Lemma emit_user_only n ev w :
  user_only (handlers_for ev (bus w)) ->
  emit (S n) ev w = Some (log_all (Emitted ev :: calls ev (handlers_for ev (bus w))) w).
Proof.
  intros H. simpl. rewrite invoke_user_only by done.
  by rewrite log_as_log_all, log_all_log_all.
Qed.

(** The teardown, on a bus that is in order. *)
Lemma teardown_exact n completely w :
  bus_ok w ->
  teardown (emit (S n)) completely w = Some (torn_down completely w).
Proof.
  intros Hok. unfold Core.teardown. rewrite forOwn_destroy_hooks.
  rewrite emit_user_only by (apply bus_ok_user_only; [done|discriminate]).
  simpl. rewrite log_all_log_all. unfold torn_down.
  by destruct completely.
Qed.

Lemma destroy_immediate n completely w :
  bus_ok w -> state w <> CREATED ->
  destroy (S n) completely w = Some (torn_down completely w).
Proof.
  intros Hok Hst. unfold Core.destroy, Core.destroy_with, state_is. simpl.
  assert ((state w =? CREATED) = false) as -> by lia. simpl.
  by apply teardown_exact.
Qed.

Lemma destroy_postponed n completely w :
  state w = CREATED ->
  destroy n completely w = Some (event_on EVENT_READY (BoundDestroy completely) true w).
Proof.
  intros Hst. unfold Core.destroy, Core.destroy_with, state_is. simpl.
  by rewrite Hst.
Qed.

Lemma elem_of_bus_insert x y l : x ∈ bus_insert y l <-> x = y \/ x ∈ l.
Proof.
  induction l as [|z l IH]; simpl.
  - rewrite list_elem_of_singleton. split; [by left|]. intros [->|H]; [done|]. by apply elem_of_nil in H.
  - destruct (h_priority z <? h_priority y).
    + by rewrite elem_of_cons.
    + rewrite !elem_of_cons, IH. tauto.
Qed.

Lemma event_on_bus_ok completely w :
  bus_ok w -> bus_ok (event_on EVENT_READY (BoundDestroy completely) true w).
Proof.
  intros Hok x c Hx Hc. simpl in Hx. apply elem_of_bus_insert in Hx as [->|Hx]; [done|].
  by apply (Hok x c).
Qed.

Lemma torn_down_facts completely w :
  let w' := torn_down completely w in
  state w' = DESTROYED /\ bus w' = [] /\ bus_ok w'
  /\ splides w' = (if completely then [] else splides w)
  /\ Components w' = Components w /\ has_Components w' = has_Components w.
Proof.
  unfold torn_down. destruct completely; simpl; split_and!; try done;
    intros x c Hx; by apply elem_of_nil in Hx.
Qed.

Lemma quiet_app t1 t2 : quiet t1 -> quiet t2 -> quiet (t1 ++ t2).
Proof. intros. by apply Forall_app. Qed.

Lemma quiet_calls ev hs : quiet (calls ev hs).
Proof.
  unfold calls. induction hs as [|x hs IH]; simpl; [constructor|].
  apply quiet_app; [|done]. destruct (h_callback x); repeat constructor.
Qed.

Lemma quiet_destroy_hooks c comps ks : quiet (destroy_hooks c comps ks).
Proof.
  unfold destroy_hooks. induction ks as [|k ks IH]; simpl; [constructor|].
  apply quiet_app; [|done].
  destruct (decide (k = PROTO)); [constructor|].
  destruct (oget comps k) as [x|]; [destruct (c_destroy x)|]; repeat constructor.
Qed.

Lemma trace_torn_down c w :
  trace (torn_down c w)
  = trace w
    ++ destroy_hooks c (_Components w) (rev (ownKeys (_Components w)))
    ++ Emitted EVENT_DESTROY :: calls EVENT_DESTROY (handlers_for EVENT_DESTROY (bus w))
    ++ [StateSet DESTROYED].
Proof.
  unfold torn_down. destruct c; simpl; by rewrite <- !app_assoc.
Qed.

(** The handlers of one emit, run on a slider that is past its created
    state: every one returns, a postponed destruction among them tears
    the slider down, and the registry is left alone. *)
Lemma handlers_after_created n ev hs : forall w,
  state w <> CREATED -> bus_ok w ->
  exists w' t,
    fold_left (invoke (emit (S n)) ev) hs (Some w) = Some w'
    /\ trace w' = trace w ++ t /\ quiet t
    /\ state w' <> CREATED /\ bus_ok w'
    /\ Components w' = Components w /\ has_Components w' = has_Components w
    /\ (user_only hs -> state w' = state w)
    /\ (forall x c, x ∈ hs -> h_callback x = BoundDestroy c ->
          state w' = DESTROYED
          /\ exists t1 t2,
               t = t1 ++ destroy_hooks c (_Components w) (rev (ownKeys (_Components w)))
                      ++ Emitted EVENT_DESTROY :: t2)
    /\ (state w = DESTROYED -> state w' = DESTROYED).
Proof.
  induction hs as [|x hs IH]; intros w Hst Hok.
  - exists w, []. simpl. rewrite app_nil_r.
    split_and!; try done; [constructor|].
    intros x c Hx. by apply elem_of_nil in Hx.
  - cbn [fold_left]. unfold Core.invoke at 2.
    destruct (h_callback x) as [id|c0] eqn:Hx.
    + destruct (IH (log (Called id ev) w)) as (w' & t & Hf & Ht & Hq & Hs & Hb & HC & HhC & Hu & Hd & Hdd);
        [done|done|].
      exists w', (Called id ev :: t). rewrite Hf. simpl in *.
      split_and!; try done.
      * rewrite Ht. by rewrite <- app_assoc.
      * constructor; done.
      * intros Huo. inversion Huo; subst. by rewrite Hu.
      * intros y c Hy Hyc. apply elem_of_cons in Hy as [->|Hy]; [congruence|].
        destruct (Hd y c Hy Hyc) as (? & t1 & t2 & ->).
        split; [done|]. by exists (Called id ev :: t1), t2.
    + change (destroy_with (emit (S n)) c0 w) with (destroy (S n) c0 w).
      rewrite destroy_immediate by done.
      destruct (torn_down_facts c0 w) as (Hs1 & _ & Hb1 & _ & HC1 & HhC1).
      destruct (IH (torn_down c0 w)) as (w' & t & Hf & Ht & Hq & Hs & Hb & HC & HhC & Hu & Hd & Hdd);
        [rewrite Hs1; discriminate|done|].
      rewrite Hf.
      exists w', (destroy_hooks c0 (_Components w) (rev (ownKeys (_Components w)))
                  ++ Emitted EVENT_DESTROY
                     :: calls EVENT_DESTROY (handlers_for EVENT_DESTROY (bus w))
                     ++ [StateSet DESTROYED] ++ t).
      split_and!; try done.
      * rewrite Ht, trace_torn_down. rewrite <- !app_assoc. simpl.
        by rewrite <- !app_assoc.
      * apply quiet_app; [apply quiet_destroy_hooks|].
        constructor; [done|]. apply quiet_app; [apply quiet_calls|].
        apply quiet_app; [|done]. by repeat constructor.
      * congruence.
      * congruence.
      * intros Huo. inversion Huo as [|? ? [id Hid] ?]; subst. congruence.
      * intros y c Hy Hyc. split; [by apply Hdd|].
        apply elem_of_cons in Hy as [->|Hy].
        -- assert (c = c0) as -> by congruence.
           by exists [], (calls EVENT_DESTROY (handlers_for EVENT_DESTROY (bus w))
                           ++ [StateSet DESTROYED] ++ t).
        -- destruct (Hd y c Hy Hyc) as (_ & t1 & t2 & ->).
           unfold _Components. rewrite HC1, HhC1. fold (_Components w).
           exists (destroy_hooks c0 (_Components w) (rev (ownKeys (_Components w)))
                   ++ Emitted EVENT_DESTROY
                      :: calls EVENT_DESTROY (handlers_for EVENT_DESTROY (bus w))
                      ++ [StateSet DESTROYED] ++ t1), t2.
           rewrite <- !app_assoc. simpl. by rewrite <- !app_assoc.
      * intros _. by apply Hdd.
Qed.

Lemma emit_S n ev w :
  emit (S n) ev w
  = fold_left (invoke (emit n) ev) (handlers_for ev (bus w)) (Some (log (Emitted ev) w)).
Proof. reflexivity. Qed.

(** A whole [mount], step by step. *)
Lemma mount_runs n Extensions Transition w :
  state w = CREATED \/ state w = DESTROYED -> bus_ok w ->
  let T := chosen_Transition Fade Slide Transition w in
  let E := chosen_Extensions Extensions w in
  let Cs := assign [] [ComponentConstructors; E; [(KName "Transition", T)]] in
  let comps := registered Cs (Components w) in
  exists w' hr,
    mount (S (S n)) Extensions Transition w = Ok w'
    /\ trace w' = trace w ++ [StateSet CREATED] ++ setup_actions Cs ++ mount_hooks comps
                  ++ Emitted EVENT_MOUNTED
                     :: calls EVENT_MOUNTED (handlers_for EVENT_MOUNTED (bus w))
                  ++ [StateSet IDLE; Emitted EVENT_READY] ++ hr
    /\ quiet hr
    /\ Components w' = comps /\ has_Components w' = true
    /\ (user_only (handlers_for EVENT_READY (bus w)) -> state w' = IDLE)
    /\ (forall x c, x ∈ bus w -> h_event x = EVENT_READY ->
          h_callback x = BoundDestroy c ->
          state w' = DESTROYED
          /\ exists t1 t2,
               hr = t1 ++ destroy_hooks c comps (rev (ownKeys comps))
                       ++ Emitted EVENT_DESTROY :: t2).
Proof.
  intros Hst Hok T E Cs comps.
  unfold Core.mount.
  assert (state_is w [CREATED; DESTROYED] = true) as ->.
  { unfold state_is. simpl. destruct Hst as [-> | ->]; reflexivity. }
  cbn [negb].
  rewrite forOwn_setup, forOwn_mount_hooks.
  set (w1 := set_factories _ _ _).
  assert (Core.Constructors ComponentConstructors w1 = Cs) as -> by reflexivity.
  set (w2 := log_all (mount_hooks _) _).
  assert (bus w2 = bus w) as Hb2 by reflexivity.
  rewrite emit_user_only
    by (rewrite Hb2; apply bus_ok_user_only; [done|discriminate]).
  rewrite Hb2.
  set (w3 := set_state IDLE _).
  rewrite emit_S.
  assert (bus w3 = bus w) as Hb3 by reflexivity.
  destruct (handlers_after_created n EVENT_READY (handlers_for EVENT_READY (bus w3))
              (log (Emitted EVENT_READY) w3))
    as (w' & t & Hf & Ht & Hq & Hs & Hb & HC & HhC & Hu & Hd & _);
    [discriminate | done |].
  rewrite Hf. exists w', t.
  split_and!; try done.
  - rewrite Ht. simpl. by repeat (rewrite <- ?app_assoc; simpl).
  - intros x c Hx He Hc.
    destruct (Hd x c) as (Hdes & t1 & t2 & ->); [|done|].
    { rewrite Hb3. by apply list_elem_of_filter. }
    split; [done|]. by exists t1, t2.
Qed.

Lemma oget_Some_ownKeys {V} (o : Obj V) k v : oget o k = Some v -> In k (ownKeys o).
Proof.
  induction o as [|[k' v'] o IH]; simpl; [done|].
  destruct (decide (k = k')) as [->|_]; [by left|]. intros H. right. by apply IH.
Qed.

Lemma oget_oset_other {V} (o : Obj V) k k' v :
  k' <> k -> oget (oset k v o) k' = oget o k'.
Proof.
  intros Hne. induction o as [|[k0 v0] o IH]; simpl.
  - by rewrite decide_False.
  - destruct (decide (k = k0)) as [->|Hk]; simpl.
    + by rewrite !decide_False.
    + destruct (key_before k k0); simpl.
      * by rewrite (decide_False (P := k' = k)).
      * destruct (decide (k' = k0)); [done|apply IH].
Qed.

(** [assign] gives the target no property [__proto__]. *)
Lemma oget_assign1_PROTO {V} (s : Obj V) : forall t : Obj V,
  oget (assign1 t s) PROTO = oget t PROTO.
Proof.
  unfold assign1. induction s as [|[k v] s IH]; intros t; [done|].
  simpl. rewrite IH. destruct (decide (k = PROTO)) as [_|Hne]; [done|].
  apply oget_oset_other. congruence.
Qed.

Lemma oget_assign_PROTO {V} (l : list (Obj V)) : forall t : Obj V,
  oget (assign t l) PROTO = oget t PROTO.
Proof.
  unfold assign. induction l as [|s l IH]; intros t; [done|].
  simpl. by rewrite IH, oget_assign1_PROTO.
Qed.

Lemma ownKeys_oget {V} (o : Obj V) k : In k (ownKeys o) -> exists v, oget o k = Some v.
Proof.
  induction o as [|[k' v'] o IH]; simpl; [done|].
  intros [->|Hin].
  - exists v'. by rewrite decide_True.
  - destruct (decide (k = k')); [by eexists|by apply IH].
Qed.

(** The order of the own keys of an object: no key twice, and no key
    after one it goes before. *)
Local Abbreviation key_order := (fun k k' : Key => k <> k' /\ key_before k' k = false).
Local Abbreviation key_sorted o := (StronglySorted key_order (ownKeys o)).

Lemma key_order_before k k' x :
  key_before k k' = true -> (x = k' \/ key_order k' x) -> key_order k x.
Proof.
  intros Hb [->|[Hne Hx]].
  - destruct k as [i|?], k' as [j|?]; simpl in *; try done.
    apply Nat.ltb_lt in Hb. split; [intros [= ->]; lia | apply Nat.ltb_ge; lia].
  - destruct k as [i|?], k' as [j|?], x as [m|?]; simpl in *; try done.
    apply Nat.ltb_lt in Hb. apply Nat.ltb_ge in Hx.
    split; [intros [= ->]; lia | apply Nat.ltb_ge; lia].
Qed.

Lemma ownKeys_oset {V} (o : Obj V) k v x :
  In x (ownKeys (oset k v o)) -> x = k \/ In x (ownKeys o).
Proof.
  induction o as [|[k' v'] o IH]; simpl.
  - intros [<-|[]]. by left.
  - destruct (decide (k = k')) as [->|Hne]; simpl.
    + intros [<-|Hin]; [by left|by right; right].
    + destruct (key_before k k'); simpl.
      * intros [<-|[<-|Hin]]; [by left|by right; left|by right; right].
      * intros [<-|Hin]; [by right; left|].
        destruct (IH Hin) as [->|?]; [by left|by right; right].
Qed.

Lemma key_sorted_oset {V} (o : Obj V) k v : key_sorted o -> key_sorted (oset k v o).
Proof.
  induction o as [|[k' v'] o IH]; simpl; intros Hs.
  - repeat constructor.
  - apply StronglySorted_inv in Hs as [Hs Hall].
    destruct (decide (k = k')) as [->|Hne]; simpl; [by constructor|].
    destruct (key_before k k') eqn:Hb; simpl.
    + constructor; [by constructor|].
      constructor; [by apply (key_order_before k k'); [|left]|].
      eapply Forall_impl; [exact Hall|]. intros x Hx.
      apply (key_order_before k k'); [done|by right].
    + constructor; [by apply IH|].
      apply Forall_forall. intros x Hx. apply list_elem_of_In, ownKeys_oset in Hx as [->|Hx].
      * split; [congruence|done].
      * rewrite Forall_forall in Hall. apply Hall. by apply list_elem_of_In.
Qed.

Lemma key_sorted_assign1 {V} (s : Obj V) : forall t : Obj V,
  key_sorted t -> key_sorted (assign1 t s).
Proof.
  unfold assign1. induction s as [|[k v] s IH]; intros t Ht; [done|].
  simpl. apply IH. destruct (decide (k = PROTO)); [done|by apply key_sorted_oset].
Qed.

Lemma key_sorted_assign {V} (l : list (Obj V)) : forall t : Obj V,
  key_sorted t -> key_sorted (assign t l).
Proof.
  unfold assign. induction l as [|s l IH]; intros t Ht; [done|].
  simpl. apply IH. by apply key_sorted_assign1.
Qed.

Lemma sorted_before {A} (R : A -> A -> Prop) (l : list A) k ks :
  StronglySorted R (l ++ k :: ks) -> Forall (fun x => R x k) l.
Proof.
  induction l as [|a l IH]; simpl; intros Hs; [constructor|].
  apply StronglySorted_inv in Hs as [Hs Hall]. constructor; [|by apply IH].
  rewrite Forall_forall in Hall. apply Hall, list_elem_of_In, in_or_app. right. by left.
Qed.

(** A key that comes after every key of the object is added at the end. *)
Lemma oset_last {V} (o : Obj V) k v :
  Forall (fun x => key_order x k) (ownKeys o) -> oset k v o = o ++ [(k, v)].
Proof.
  induction o as [|[k' v'] o IH]; simpl; [done|].
  intros Hall. apply Forall_cons in Hall as [[Hne Hb] Hall].
  rewrite decide_False by congruence. rewrite Hb. by rewrite IH.
Qed.

Lemma ownKeys_registered_from ctors : forall ks comps,
  StronglySorted key_order (ownKeys comps ++ ks) ->
  (forall k, In k ks -> k <> PROTO /\ In k (ownKeys ctors)) ->
  ownKeys (fold_left (fun comps k => if decide (k = PROTO) then comps
                                     else match oget ctors k with
                                          | Some C => oset k (instantiate C) comps
                                          | None => comps
                                          end) ks comps)
  = ownKeys comps ++ ks.
Proof.
  induction ks as [|k ks IH]; intros comps Hs Hks; simpl.
  - by rewrite app_nil_r.
  - destruct (Hks k) as [Hp Hin]; [by left|].
    rewrite decide_False by done.
    destruct (ownKeys_oget ctors k Hin) as [C ->].
    assert (oset k (instantiate C) comps = comps ++ [(k, instantiate C)]) as ->.
    { apply oset_last. by apply (sorted_before key_order _ k ks). }
    rewrite IH.
    + unfold ownKeys. rewrite map_app. simpl. by rewrite <- app_assoc.
    + unfold ownKeys in *. rewrite map_app. simpl. by rewrite <- app_assoc.
    + intros k' Hk'. apply Hks. by right.
Qed.

Lemma ownKeys_registered_fresh ctors :
  key_sorted ctors -> PROTO ∉ ownKeys ctors ->
  ownKeys (registered ctors []) = ownKeys ctors.
Proof.
  intros Hs Hp. unfold registered. rewrite ownKeys_registered_from; [done|done|].
  intros k Hk. split; [|done]. intros ->. by apply Hp, list_elem_of_In.
Qed.

Lemma stored_keys_setup_actions ctors :
  PROTO ∉ ownKeys ctors -> stored_keys (setup_actions ctors) = ownKeys ctors.
Proof.
  intros Hp. unfold setup_actions, stored_keys.
  assert (forall ks, (forall k, In k ks -> k <> PROTO /\ In k (ownKeys ctors)) ->
            flat_map (fun a => match a with Instantiated k _ => [k] | _ => [] end)
              (flat_map (fun k => if decide (k = PROTO) then []
                                  else match oget ctors k with
                                       | Some C => Instantiated k (ctor_id C)
                                                   :: (if with_setup C then [SetupHook k] else [])
                                       | None => []
                                       end) ks) = ks) as H.
  { induction ks as [|k ks IH]; intros Hks; simpl; [done|].
    destruct (Hks k) as [Hne Hin]; [by left|].
    rewrite decide_False by done.
    destruct (ownKeys_oget ctors k Hin) as [C ->].
    rewrite flat_map_app, IH by (intros k' Hk'; apply Hks; by right).
    simpl. by destruct (with_setup C). }
  apply H. intros k Hk. split; [|done]. intros ->. by apply Hp, list_elem_of_In.
Qed.

Lemma setup_actions_complete ctors k C :
  k <> PROTO -> oget ctors k = Some C ->
  In (Instantiated k (ctor_id C)) (setup_actions ctors)
  /\ (with_setup C = true -> In (SetupHook k) (setup_actions ctors)).
Proof.
  intros Hk H. unfold setup_actions.
  split; [|intros Hs]; apply in_flat_map; exists k;
    (split; [by eapply oget_Some_ownKeys|]); rewrite decide_False by done;
    rewrite H; [by left|].
  rewrite Hs. right. by left.
Qed.

Lemma setup_actions_only ctors a :
  In a (setup_actions ctors) ->
  (exists k id, a = Instantiated k id) \/ (exists k, a = SetupHook k).
Proof.
  unfold setup_actions. intros H. apply in_flat_map in H as (k & _ & H).
  destruct (decide (k = PROTO)); [done|].
  destruct (oget ctors k) as [C|]; [|done].
  destruct H as [<-|H]; [left; by eexists _, _|].
  destruct (with_setup C); [|done]. destruct H as [<-|[]]. right. by eexists.
Qed.

Lemma mount_hooks_only comps a :
  In a (mount_hooks comps) -> exists k, a = MountHook k.
Proof.
  unfold mount_hooks. intros H. apply in_flat_map in H as (k & _ & H).
  destruct (decide (k = PROTO)); [done|].
  destruct (oget comps k) as [c|]; [|done].
  destruct (c_mount c); [|done]. destruct H as [<-|[]]. by eexists.
Qed.

(** C4.  [mount] on a slider that is neither created nor destroyed fails
    with the assertion 'Already mounted!' and leaves the slider as it was:
    the state cell is untouched and no factory is called. *)
Theorem mount_refused_when_mounted (fuel : nat)
    (Extensions : option (Obj ComponentConstructor))
    (Transition : option ComponentConstructor) (w : Splide) :
  state w <> CREATED -> state w <> DESTROYED ->
  mount fuel Extensions Transition w = Throw "Already mounted!" w.
Proof.
  intros H1 H2. unfold Core.mount, state_is. simpl.
  assert ((state w =? CREATED) = false) as -> by lia.
  assert ((state w =? DESTROYED) = false) as -> by lia.
  reflexivity.
Qed.

(** C5.  A [mount] on a created or destroyed slider returns, and what
    happens is, in this order: the factories are called and the [setup]
    hooks run; then the [mount] hooks run; then 'mounted' is emitted; then
    the state is set to idle and 'ready' is emitted.  Every factory is
    called and every [setup] hook there is runs in the first stretch, and
    no [setup] or [mount] hook runs after the stretch it belongs to.  The
    slider ends idle unless a destruction was waiting for 'ready'. *)
Theorem mount_order (n : nat)
    (Extensions : option (Obj ComponentConstructor))
    (Transition : option ComponentConstructor) (w : Splide) :
  state w = CREATED \/ state w = DESTROYED -> bus_ok w ->
  let T := chosen_Transition Fade Slide Transition w in
  let E := chosen_Extensions Extensions w in
  let Cs := assign [] [ComponentConstructors; E; [(KName "Transition", T)]] in
  let comps := registered Cs (Components w) in
  exists w' hm hr,
    mount (S (S n)) Extensions Transition w = Ok w'
    /\ trace w' = trace w ++ [StateSet CREATED]
                  ++ setup_actions Cs
                  ++ mount_hooks comps
                  ++ [Emitted EVENT_MOUNTED] ++ hm
                  ++ [StateSet IDLE; Emitted EVENT_READY] ++ hr
    /\ (forall k C, oget Cs k = Some C ->
          In (Instantiated k (ctor_id C)) (setup_actions Cs)
          /\ (with_setup C = true -> In (SetupHook k) (setup_actions Cs)))
    /\ (forall a, In a (setup_actions Cs) ->
          (exists k id, a = Instantiated k id) \/ (exists k, a = SetupHook k))
    /\ (forall a, In a (mount_hooks comps) -> exists k, a = MountHook k)
    /\ quiet hm /\ quiet hr
    /\ Components w' = comps
    /\ (user_only (handlers_for EVENT_READY (bus w)) -> state w' = IDLE).
Proof.
  intros Hst Hok T E Cs comps.
  destruct (mount_runs n Extensions Transition w Hst Hok)
    as (w' & hr & Hm & Ht & Hq & HC & _ & Hidle & _).
  exists w', (calls EVENT_MOUNTED (handlers_for EVENT_MOUNTED (bus w))), hr.
  split_and!; try done.
  - intros k C HkC. apply setup_actions_complete; [|done].
    intros ->. subst Cs. by rewrite oget_assign_PROTO in HkC.
  - apply setup_actions_only.
  - apply mount_hooks_only.
  - apply quiet_calls.
Qed.

Lemma destroy_hooks_complete completely comps k x :
  oget comps k = Some x -> c_destroy x = true -> k <> PROTO ->
  In (DestroyHook k completely) (destroy_hooks completely comps (rev (ownKeys comps))).
Proof.
  intros Hk Hx Hp. unfold destroy_hooks. apply in_flat_map. exists k. split.
  - apply in_rev. rewrite rev_involutive. by eapply oget_Some_ownKeys.
  - rewrite decide_False by done. rewrite Hk, Hx. by left.
Qed.

(** C6.  [destroy] on a created slider tears nothing down: no [destroy]
    hook runs, nothing is emitted, the state and the registry stay, and
    the request is left on the bus as a handler of 'ready'; the next
    [mount] then ends with the teardown, run after the 'ready' it emits
    (every [destroy] hook, then 'destroy'), and with the slider destroyed.
    In any other state [destroy] tears the slider down at once and leaves
    it destroyed.  The hooks are those of the components [forOwn] walks:
    all of the registry, [__proto__] not being a key [mount] stores
    under. *)
Theorem destroy_postponed_or_immediate (n : nat) (completely : bool) (w : Splide) :
  bus_ok w ->
  (state w = CREATED ->
     let w1 := event_on EVENT_READY (BoundDestroy completely) true w in
     destroy n completely w = Some w1
     /\ state w1 = CREATED /\ trace w1 = trace w
     /\ Components w1 = Components w /\ splides w1 = splides w
     /\ (exists x, x ∈ bus w1 /\ h_event x = EVENT_READY
                   /\ h_callback x = BoundDestroy completely)
     /\ forall Extensions Transition,
          exists w2 pre post,
            mount (S (S n)) Extensions Transition w1 = Ok w2
            /\ state w2 = DESTROYED
            /\ trace w2 = trace w ++ pre ++ [StateSet IDLE; Emitted EVENT_READY] ++ post
            /\ (forall k x, oget (Components w2) k = Some x -> c_destroy x = true ->
                  k <> PROTO -> In (DestroyHook k completely) post)
            /\ In (Emitted EVENT_DESTROY) post)
  /\ (state w <> CREATED ->
        exists w1 post,
          destroy (S n) completely w = Some w1
          /\ state w1 = DESTROYED
          /\ trace w1 = trace w ++ post ++ [StateSet DESTROYED]
          /\ (forall k x, oget (_Components w) k = Some x -> c_destroy x = true ->
                k <> PROTO -> In (DestroyHook k completely) post)
          /\ In (Emitted EVENT_DESTROY) post).
Proof.
  intros Hok. split.
  - intros Hst w1.
    assert (x_in : exists x, x ∈ bus w1 /\ h_event x = EVENT_READY
                             /\ h_callback x = BoundDestroy completely).
    { eexists. split; [apply elem_of_bus_insert; by left|]. split; reflexivity. }
    split_and!;
      [by apply destroy_postponed | exact Hst | reflexivity | reflexivity
      | reflexivity | exact x_in |].
    intros Extensions Transition.
    destruct (mount_runs n Extensions Transition w1) as
      (w2 & hr & Hm & Ht & _ & HC & _ & _ & Hd);
      [left; exact Hst | by apply event_on_bus_ok |].
    destruct x_in as (x & Hx & He & Hc).
    destruct (Hd x completely Hx He Hc) as (Hdes & t1 & t2 & Hhr).
    set (A := setup_actions _) in Ht. set (B := mount_hooks _) in Ht.
    set (C := calls _ _) in Ht.
    exists w2, ([StateSet CREATED] ++ A ++ B ++ Emitted EVENT_MOUNTED :: C), hr.
    split_and!; [exact Hm | exact Hdes | | |].
    + rewrite Ht. change (trace w1) with (trace w).
      simpl. rewrite <- !app_assoc. reflexivity.
    + intros k y Hk Hy Hp. rewrite Hhr. rewrite HC in Hk.
      apply in_or_app. right. apply in_or_app. left.
      by apply destroy_hooks_complete with y.
    + rewrite Hhr. apply in_or_app. right. apply in_or_app. right. by left.
  - intros Hst.
    exists (torn_down completely w),
           (destroy_hooks completely (_Components w) (rev (ownKeys (_Components w)))
            ++ Emitted EVENT_DESTROY
               :: calls EVENT_DESTROY (handlers_for EVENT_DESTROY (bus w))).
    split_and!; [by apply destroy_immediate | by destruct completely | | |].
    + rewrite trace_torn_down. simpl. by rewrite <- !app_assoc.
    + intros k y Hk Hy Hp. apply in_or_app. left.
      by apply destroy_hooks_complete with y.
    + apply in_or_app. right. by left.
Qed.

Lemma flat_map_rev {A B} (f : A -> list B) l :
  (forall a, (length (f a) <= 1)%nat) -> flat_map f (rev l) = rev (flat_map f l).
Proof.
  intros Hf. induction l as [|a l IH]; simpl; [done|].
  rewrite flat_map_app, IH, rev_app_distr. simpl. rewrite app_nil_r. f_equal.
  specialize (Hf a). destruct (f a) as [|b [|? ?]]; simpl in *; [done|done|lia].
Qed.

Lemma destroy_hooks_rev c comps ks :
  destroy_hooks c comps (rev ks) = rev (destroy_hooks c comps ks).
Proof.
  apply flat_map_rev. intros k.
  destruct (decide (k = PROTO)); [simpl; lia|].
  destruct (oget comps k) as [x|]; [destruct (c_destroy x)|]; simpl; lia.
Qed.

(** The registry keeps a key where it first got it: a key stored again
    stays in place.  So the order of the keys of the registry is the
    order in which the components were stored when the registry was
    empty before the mount, and need not be otherwise. *)
Lemma registry_keys_of_first_mount
    (Extensions : option (Obj ComponentConstructor))
    (Transition : option ComponentConstructor) (w : Splide) :
  let T := chosen_Transition Fade Slide Transition w in
  let E := chosen_Extensions Extensions w in
  let Cs := assign [] [ComponentConstructors; E; [(KName "Transition", T)]] in
  stored_keys (setup_actions Cs) = ownKeys Cs
  /\ ownKeys (registered Cs []) = ownKeys Cs.
Proof.
  intros T E Cs.
  assert (PROTO ∉ ownKeys Cs) as Hp.
  { intros Hin. apply list_elem_of_In, ownKeys_oget in Hin as [C HC].
    subst Cs. by rewrite oget_assign_PROTO in HC. }
  split.
  - by apply stored_keys_setup_actions.
  - apply ownKeys_registered_fresh; [apply key_sorted_assign; constructor|done].
Qed.

(** C7, amended.  A teardown that is not postponed runs the [destroy]
    hook of every component that has one, in the reverse of the order of
    the own keys of the registry, the component under the last key first,
    then emits 'destroy', then clears the bus, empties the synchronisation
    links when and only when the flag is set, and sets the state to
    destroyed. *)
Theorem teardown_order (n : nat) (completely : bool) (w : Splide) :
  bus_ok w -> state w <> CREATED ->
  exists w',
    destroy (S n) completely w = Some w'
    /\ trace w' = trace w
                  ++ rev (destroy_hooks completely (_Components w)
                            (ownKeys (_Components w)))
                  ++ [Emitted EVENT_DESTROY]
                  ++ calls EVENT_DESTROY (handlers_for EVENT_DESTROY (bus w))
                  ++ [StateSet DESTROYED]
    /\ bus w' = []
    /\ splides w' = (if completely then [] else splides w)
    /\ state w' = DESTROYED.
Proof.
  intros Hok Hst. exists (torn_down completely w).
  destruct (torn_down_facts completely w) as (Hs & Hb & _ & Hsp & _).
  split_and!; try done; [by apply destroy_immediate|].
  by rewrite trace_torn_down, destroy_hooks_rev.
Qed.

End WithLibrary.

Lemma bus_ok_mounted_example : bus_ok mounted_example.
Proof. intros x c Hx. by apply elem_of_nil in Hx. Qed.

(** [destroy] on a slider that was never mounted only leaves its request
    on the bus. *)
Lemma destroy_postponed_on_a_new_slider :
  bus_ok (created "slide")
  /\ Core.destroy 10 1 true (created "slide")
     = Some (Core.event_on 10 EVENT_READY (BoundDestroy true) true (created "slide"))
  /\ option_map trace (Core.destroy 10 1 true (created "slide")) = Some [].
Proof.
  assert (bus_ok (created "slide")) as Hok.
  { intros x c Hx. by apply elem_of_nil in Hx. }
  split; [exact Hok|].
  destruct (destroy_postponed_or_immediate [] (full_ctor 8) (full_ctor 9) 10 1 true
              (created "slide") Hok) as [H _].
  destruct (H eq_refl) as (Hd & _). rewrite Hd. split; reflexivity.
Defined.

(** A second [mount] on the mounted example is refused. *)
Lemma second_mount_refused :
  state mounted_example = IDLE
  /\ mount_example 2 mounted_example = Throw "Already mounted!" mounted_example.
Proof.
  split; [reflexivity|].
  apply (mount_refused_when_mounted [] (full_ctor 8) (full_ctor 9) 10 2
           (Some two_extensions) None mounted_example); discriminate.
Defined.

(** The example mounts in the stated order and ends idle. *)
Lemma mount_order_of_example :
  exists w',
    mount_example 2 (created "slide") = Ok w'
    /\ state w' = IDLE
    /\ ownKeys (Components w') = [KName "First"; KName "Second"; KName "Transition"].
Proof.
  destruct (mount_order [] (full_ctor 8) (full_ctor 9) 10 0
              (Some two_extensions) None (created "slide"))
    as (w' & hm & hr & Hm & _ & _ & _ & _ & _ & _ & HC & Hidle).
  - by left.
  - intros x c Hx. by apply elem_of_nil in Hx.
  - exists w'. split_and!; [exact Hm | apply Hidle; constructor | by rewrite HC].
Defined.

(** The example torn down: the hooks run from the last component stored
    to the first. *)
Lemma teardown_of_example :
  exists w',
    Core.destroy 10 1 true mounted_example = Some w'
    /\ trace w' = trace mounted_example
                  ++ [DestroyHook (KName "Transition") true;
                      DestroyHook (KName "Second") true;
                      DestroyHook (KName "First") true;
                      Emitted EVENT_DESTROY; StateSet DESTROYED].
Proof.
  destruct (teardown_order 10 0 true mounted_example bus_ok_mounted_example)
    as (w' & Hd & Ht & _); [discriminate|].
  exists w'. split; [exact Hd|]. rewrite Ht. reflexivity.
Defined.

(** C7, as stated, fails: the components of the example were stored as
    First, Second, Transition, and their [destroy] hooks run as
    Transition, Second, First.  Nor is it the order of storing read
    backwards: the example mounted again stores Second, First,
    Transition under the keys the registry has, which stay where they
    are, and the hooks run as Transition, Second, First again. *)
Lemma destroy_hooks_not_in_registration_order :
  ownKeys (Components mounted_example)
  = [KName "First"; KName "Second"; KName "Transition"]
  /\ stated_destroy_hooks true (Components mounted_example)
     = [DestroyHook (KName "First") true; DestroyHook (KName "Second") true;
        DestroyHook (KName "Transition") true]
  /\ option_map trace (Core.destroy 10 1 true mounted_example)
     = Some (trace mounted_example
             ++ [DestroyHook (KName "Transition") true;
                 DestroyHook (KName "Second") true;
                 DestroyHook (KName "First") true;
                 Emitted EVENT_DESTROY; StateSet DESTROYED])
  /\ option_map trace (Core.destroy 10 1 true mounted_example)
     <> Some (trace mounted_example
              ++ stated_destroy_hooks true (Components mounted_example)
              ++ [Emitted EVENT_DESTROY; StateSet DESTROYED])
  /\ stored_keys (drop (length (trace torn_down_example)) (trace remounted_example))
     = [KName "Second"; KName "First"; KName "Transition"]
  /\ ownKeys (Components remounted_example)
     = [KName "First"; KName "Second"; KName "Transition"]
  /\ option_map (fun w => drop (length (trace remounted_example)) (trace w))
                (Core.destroy 10 1 true remounted_example)
     = Some [DestroyHook (KName "Transition") true;
             DestroyHook (KName "Second") true;
             DestroyHook (KName "First") true;
             Emitted EVENT_DESTROY; StateSet DESTROYED].
Proof.
  split_and!; [by vm_compute | by vm_compute | by vm_compute | |
               by vm_compute | by vm_compute | by vm_compute].
  intros H. vm_compute in H. discriminate.
Qed.

End CoreProofs.

(** ** merge *)

Module MergeProofs.
Import JS Merge.

Local Open Scope nat_scope.

Section Objects.
Context {V : Type}.
Implicit Types (o : Obj V) (k : Key) (v : V).

Lemma oget_oset_eq o k v : oget (oset k v o) k = Some v.
Proof.
  induction o as [|[k' v'] o IH]; simpl.
  - by rewrite decide_True.
  - destruct (decide (k = k')) as [->|Hne]; simpl.
    + by rewrite decide_True.
    + destruct (key_before k k'); simpl.
      * by rewrite decide_True.
      * by rewrite decide_False.
Qed.

Lemma oget_oset_ne o k k' v : k' <> k -> oget (oset k v o) k' = oget o k'.
Proof.
  intros Hne. induction o as [|[k0 v0] o IH]; simpl.
  - by rewrite decide_False.
  - destruct (decide (k = k0)) as [->|Hk]; simpl.
    + by rewrite !decide_False.
    + destruct (key_before k k0); simpl.
      * by rewrite (decide_False (P := k' = k)).
      * destruct (decide (k' = k0)); [done|apply IH].
Qed.

Lemma oget_elem_of o k v : NoDup (ownKeys o) -> (k, v) ∈ o -> oget o k = Some v.
Proof.
  induction o as [|[k0 v0] o IH]; simpl; intros Hnd Hin.
  - by apply elem_of_nil in Hin.
  - apply NoDup_cons in Hnd as [Hk0 Hnd].
    apply elem_of_cons in Hin as [Heq|Hin].
    + injection Heq as -> ->. by rewrite decide_True.
    + destruct (decide (k = k0)) as [->|Hne]; [|by apply IH].
      exfalso. apply Hk0. unfold ownKeys.
      apply list_elem_of_fmap. by exists (k0, v).
Qed.

Lemma oget_Some_elem_of o k v : oget o k = Some v -> (k, v) ∈ o.
Proof.
  induction o as [|[k0 v0] o IH]; simpl; [done|].
  destruct (decide (k = k0)) as [->|Hne].
  - intros [= ->]. by left.
  - intros H. right. by apply IH.
Qed.

Lemma oget_None_ownKeys o k : k ∉ ownKeys o -> oget o k = None.
Proof.
  induction o as [|[k0 v0] o IH]; simpl; [done|].
  intros Hk. apply not_elem_of_cons in Hk as [Hne Hk].
  rewrite decide_False by done. by apply IH.
Qed.

End Objects.

(** *** The store *)

Implicit Types (h : list cell) (l o s t : nat) (k : Key) (v : value) (D : list nat).

Lemma length_set h l k v : length (set h l k v) = length h.
Proof. unfold set. destruct (h !! l); [by rewrite length_insert|done]. Qed.

Lemma lookup_set_ne h l l' k v : l' <> l -> set h l k v !! l' = h !! l'.
Proof.
  intros Hne. unfold set. destruct (h !! l); [|done].
  by rewrite list_lookup_insert_ne.
Qed.

Lemma lookup_set_eq h l k v c :
  h !! l = Some c ->
  set h l k v !! l = Some {| is_array := is_array c; props := oset k v (props c) |}.
Proof.
  intros Hc. unfold set. rewrite Hc.
  apply list_lookup_insert_eq. by eapply lookup_lt_Some.
Qed.

Lemma get_lookup h h' l k : h' !! l = h !! l -> get h' l k = get h l k.
Proof. intros H. unfold get, cell_at. by rewrite H. Qed.

Lemma cell_at_lookup h h' l : h' !! l = h !! l -> cell_at h' l = cell_at h l.
Proof. intros H. unfold cell_at. by rewrite H. Qed.

Lemma cell_at_Some h l c : h !! l = Some c -> cell_at h l = c.
Proof. intros H. unfold cell_at. by rewrite H. Qed.

Lemma get_Some h l k c : h !! l = Some c -> get h l k = default VUndef (oget (props c) k).
Proof. intros H. unfold get. by rewrite (cell_at_Some _ _ _ H). Qed.

Lemma own_Some c k v : own c k = Some v -> oget (props c) k = Some v.
Proof. unfold own. by destruct (decide (k = PROTO)). Qed.

Lemma own_None c k : k = PROTO \/ k ∉ ownKeys (props c) -> own c k = None.
Proof.
  unfold own. intros [->|H]; [by rewrite decide_True|].
  destruct (decide (k = PROTO)); [done|]. by apply oget_None_ownKeys.
Qed.

(** The loop of [forOwn] is the loop over the keys other than
    [__proto__]. *)
Lemma fold_left_skip {A} (f : A -> Key -> A) ks : forall a,
  fold_left (fun a k => if decide (k = PROTO) then a else f a k) ks a
  = fold_left f (filter (fun k => k <> PROTO) ks) a.
Proof.
  induction ks as [|k ks IH]; intros a; [done|]. simpl.
  destruct (decide (k = PROTO)) as [Hk|Hk].
  - rewrite filter_cons_False by (intros H; by apply H). apply IH.
  - rewrite filter_cons_True by done. simpl. apply IH.
Qed.

(** *** Trees *)

Lemma tree_allocated d : forall h D o x, tree d h D o -> x ∈ D -> x < length h.
Proof.
  induction d as [|d IH]; intros h D o x; simpl; [done|].
  intros (c & Ds & Hc & HF & _ & ->) Hx.
  apply elem_of_cons in Hx as [->|Hx]; [by eapply lookup_lt_Some|].
  clear Hc. induction HF as [|[k v] Di ps Ds Hv _ IHF]; simpl in *.
  - by apply elem_of_nil in Hx.
  - apply elem_of_app in Hx as [Hx|Hx]; [|by apply IHF].
    destruct v; try (subst; by apply elem_of_nil in Hx). by eapply IH.
Qed.

Lemma tree_ext d : forall h h' D o,
  tree d h D o -> (forall x, x ∈ D -> h' !! x = h !! x) -> tree d h' D o.
Proof.
  induction d as [|d IH]; intros h h' D o; simpl; [done|].
  intros (c & Ds & Hc & HF & Hnd & ->) Hsame.
  exists c, Ds. split_and!; try done.
  - rewrite Hsame; [done|by left].
  - assert (forall x, x ∈ concat Ds -> h' !! x = h !! x) as Hs
      by (intros x Hx; apply Hsame; by right).
    clear Hc Hnd Hsame.
    induction HF as [|[k v] Di ps Ds Hv _ IHF]; constructor.
    + destruct v; try done. simpl in *. eapply IH; [done|].
      intros x Hx. apply Hs. simpl. apply elem_of_app. by left.
    + apply IHF. intros x Hx. apply Hs. simpl. apply elem_of_app. by right.
Qed.

Lemma children_domains d h (ps : Obj value) (Ds : list (list nat)) :
  Forall2 (fun kv Di => match snd kv with
                        | VRef t => tree d h Di t
                        | _ => Di = []
                        end) ps Ds ->
  NoDup (concat Ds) ->
  exists dom : Key -> list nat,
    (forall k t, oget ps k = Some (VRef t) -> tree d h (dom k) t)
    /\ (forall k x, x ∈ dom k -> x ∈ concat Ds)
    /\ (forall k k' x, k <> k' -> x ∈ dom k -> x ∉ dom k').
Proof.
  induction 1 as [|[k0 v0] D0 ps Ds Hv _ IH]; simpl; intros Hnd.
  - exists (fun _ => []).
    split_and!; [done | intros k x Hx | intros k k' x _ Hx]; by apply elem_of_nil in Hx.
  - apply NoDup_app in Hnd as (_ & Hdisj & Hnd).
    destruct (IH Hnd) as (dom & H1 & H2 & H3).
    exists (fun k => if decide (k = k0) then D0 else dom k).
    split_and!.
    + intros k t. destruct (decide (k = k0)) as [->|Hne]; [|apply H1].
      intros [= ->]. done.
    + intros k x. destruct (decide (k = k0)); rewrite elem_of_app; [by left|].
      right. by eapply H2.
    + intros k k' x Hne.
      destruct (decide (k = k0)) as [->|Hk], (decide (k' = k0)) as [->|Hk']; try done.
      * intros Hx Hx'. by apply (Hdisj x Hx), (H2 k').
      * intros Hx Hx'. by apply (Hdisj x Hx'), (H2 k).
      * by apply H3.
Qed.

Lemma tree_children d h D o :
  tree (S d) h D o ->
  exists c (dom : Key -> list nat),
    h !! o = Some c
    /\ o ∈ D
    /\ (forall k t, oget (props c) k = Some (VRef t) -> tree d h (dom k) t)
    /\ (forall k x, x ∈ dom k -> x ∈ D /\ x <> o)
    /\ (forall k k' x, k <> k' -> x ∈ dom k -> x ∉ dom k').
Proof.
  simpl. intros (c & Ds & Hc & HF & Hnd & ->).
  apply NoDup_cons in Hnd as [Ho Hnd].
  destruct (children_domains d h _ _ HF Hnd) as (dom & H1 & H2 & H3).
  exists c, dom. split_and!; try done; [by left|].
  intros k x Hx. split; [right; by eapply H2|].
  intros ->. apply Ho. by eapply H2.
Qed.

(** A source stays in order when the store changes elsewhere. *)
Lemma source_ok_transport m : forall h h' D D' s,
  source_ok m h D s ->
  length h <= length h' ->
  (forall x, x < length h -> x ∉ D -> h' !! x = h !! x) ->
  (forall x, x ∈ D' -> x ∈ D \/ length h <= x) ->
  source_ok m h' D' s.
Proof.
  induction m as [|m IH]; intros h h' D D' s; simpl; [done|].
  intros (c & Hc & HsD & Hnd & Hch) Hlen Hsame HD'.
  assert (forall x, x < length h -> x ∉ D -> x ∉ D') as Hnot.
  { intros x Hx HxD HxD'. destruct (HD' x HxD'); [done|lia]. }
  assert (s < length h) as Hs by by eapply lookup_lt_Some.
  exists c. split_and!; try done.
  - by rewrite Hsame.
  - by apply Hnot.
  - intros k l Hin. destruct (Hch k l Hin) as (Hl & HlD & Hrec).
    split_and!; [lia|by apply Hnot|].
    rewrite (cell_at_lookup h h') by by apply Hsame.
    intros Harr. eapply IH; eauto.
Qed.

Lemma ref_or_not v : (exists l, v = VRef l) \/ (forall l, v <> VRef l).
Proof. destruct v; try (right; discriminate). left. by eexists. Qed.

Lemma tree_root d h D o : tree d h D o -> o ∈ D.
Proof. destruct d; simpl; [done|]. intros (c & Ds & _ & _ & _ & ->). by left. Qed.

Lemma get_dangling h l k : length h <= l -> get h l k = VUndef.
Proof. intros H. unfold get, cell_at. by rewrite lookup_ge_None_2. Qed.

Lemma tree_child d h D o k t :
  tree d h D o -> get h o k = VRef t ->
  exists d' Dt, tree d' h Dt t /\ (forall x, x ∈ Dt -> x ∈ D).
Proof.
  intros Htree Hg. destruct d as [|d]; [done|].
  destruct (tree_children d h D o Htree) as (c & dom & Hc & _ & Hd1 & Hd2 & _).
  exists d, (dom k). split.
  - apply Hd1. rewrite (get_Some _ _ _ _ Hc) in Hg.
    by destruct (oget (props c) k); simplify_eq/=.
  - intros x Hx. by apply (Hd2 k).
Qed.

(** What has been merged below a target stays so when the store changes
    elsewhere afterwards. *)
Lemma merged_final m : forall h h2 h' d Dt t l,
  length h <= length h2 ->
  (forall x, length h <= x -> x < length h2 -> h' !! x = h2 !! x) ->
  (tree d h Dt t /\ (forall x, x ∈ Dt -> h' !! x = h2 !! x)) \/ length h <= t ->
  t < length h2 ->
  merged m h t l h2 -> merged m h t l h'.
Proof.
  induction m as [|m IH]; intros h h2 h' d Dt t l Hlen Hfresh Hnode Ht Hm; [done|].
  assert (h' !! t = h2 !! t) as Htt.
  { destruct Hnode as [[Htree Hag]|Hge];
      [apply Hag; by eapply tree_root | by apply Hfresh]. }
  simpl in *. intros k. specialize (Hm k). unfold merged_at in *.
  rewrite (get_lookup h2 h' t k) by done.
  destruct (own (cell_at h l) k) as [v|]; [|done].
  destruct v as [| | | | | |l']; try done.
  destruct (is_array (cell_at h l')).
  - destruct Hm as (a & Ha & Hla & Hcell). exists a. split_and!; try done.
    rewrite Hfresh; [done|done|by eapply lookup_lt_Some].
  - destruct Hm as (t' & Hg & Hmatch & Hlt & Hnested).
    assert ((exists d' Dt', tree d' h Dt' t' /\ forall x, x ∈ Dt' -> h' !! x = h2 !! x)
            \/ length h <= t') as Hnode'.
    { destruct (ref_or_not (get h t k)) as [[t0 Ht0]|Hno].
      - rewrite Ht0 in Hmatch. subst t0.
        destruct Hnode as [[Htree Hag]|Hge]; [|by rewrite get_dangling in Ht0].
        destruct (tree_child d h Dt t k t' Htree Ht0) as (d' & Dt' & Htree' & Hsub).
        left. exists d', Dt'. split; [done|]. intros x Hx. by apply Hag, Hsub.
      - right. destruct (get h t k); try done. by edestruct Hno. }
    assert (h' !! t' = h2 !! t') as Htt'.
    { destruct Hnode' as [(d' & Dt' & Htree' & Hag')|Hge];
        [apply Hag'; by eapply tree_root | by apply Hfresh]. }
    exists t'. split_and!; try done.
    + apply lookup_lt_is_Some. rewrite Htt'. by apply lookup_lt_is_Some.
    + destruct Hnode' as [(d' & Dt' & Htree' & Hag')|Hge].
      * apply (IH h h2 h' d' Dt'); auto.
      * apply (IH h h2 h' 0 []); auto.
Qed.

(** What has been merged, told from a later store in which the source
    and the target had not changed, is merged told from the first one. *)
Lemma merged_initial m : forall h hc h2 D d Dt t l,
  length h <= length hc ->
  (forall x, x < length h -> x ∉ D -> hc !! x = h !! x) ->
  source_ok m h D l ->
  (tree d h Dt t /\ (forall x, x ∈ Dt -> hc !! x = h !! x))
    \/ (length h <= t /\ forall k, get hc t k = VUndef) ->
  merged m hc t l h2 -> merged m h t l h2.
Proof.
  induction m as [|m IH]; intros h hc h2 D d Dt t l Hlen Hsame Hsrc Hnode Hm; [done|].
  destruct Hsrc as (cs & Hcs & HlD & Hnd & Hch).
  assert (l < length h) as Hl by by eapply lookup_lt_Some.
  assert (cell_at hc l = cell_at h l) as Hcl by (apply cell_at_lookup; by apply Hsame).
  assert (forall k, get hc t k = get h t k) as Hget.
  { intros k. destruct Hnode as [[Htree Hag]|[Hge Hblank]].
    - apply get_lookup, Hag. by eapply tree_root.
    - by rewrite Hblank, get_dangling. }
  simpl in *. intros k. specialize (Hm k). unfold merged_at in *.
  rewrite Hcl, Hget in Hm. rewrite (cell_at_Some _ _ _ Hcs) in *.
  destruct (own cs k) as [v|] eqn:Hv; [|done].
  destruct v as [| | | | | |l']; try done.
  destruct (Hch k l') as (Hl' & Hl'D & Hrec);
    [by apply oget_Some_elem_of, own_Some|].
  rewrite (cell_at_lookup h hc l') in Hm by by apply Hsame.
  destruct (is_array (cell_at h l')) eqn:Harr.
  - destruct Hm as (a & Ha & Hla & Hcell). exists a. split_and!; [done|lia|done].
  - destruct Hm as (t' & Hg & Hmatch & Hlt & Hnested).
    exists t'. split_and!; try done.
    + destruct (get h t k); try done; lia.
    + destruct (ref_or_not (get h t k)) as [[t0 Ht0]|Hno].
      * rewrite Ht0 in Hmatch. subst t0.
        destruct Hnode as [[Htree Hag]|[Hge Hblank]]; [|by rewrite get_dangling in Ht0].
        destruct (tree_child d h Dt t k t' Htree Ht0) as (d' & Dt' & Htree' & Hsub).
        apply (IH h hc h2 D d' Dt'); auto.
      * assert (length hc <= t') as Hge by (destruct (get h t k); try done; by edestruct Hno).
        apply (IH h hc h2 D 0 []); auto.
        right. split; [lia|]. intros k'. by apply get_dangling.
Qed.

(** *** One call of merge, its recursive calls being in order *)

Section Steps.
Variables (m : nat) (h : list cell) (D : list nat) (o s : nat) (d : nat).
Variables (c cs : cell) (dom : Key -> list nat).
Hypothesis IHm : forall d h D o s,
  tree d h D o -> source_ok m h D s ->
  exists h', merge m h o s = Some (h', o) /\ length h <= length h'
             /\ (forall l, l < length h -> l ∉ D -> h' !! l = h !! l)
             /\ merged m h o s h'.
Hypothesis Ho : h !! o = Some c.
Hypothesis HoD : o ∈ D.
Hypothesis Hs : h !! s = Some cs.
Hypothesis HsD : s ∉ D.
Hypothesis Hsrc : forall k l,
  oget (props cs) k = Some (VRef l) ->
  l < length h /\ (l ∉ D) /\ (is_array (cell_at h l) = false -> source_ok m h D l).
Hypothesis Hdom1 : forall k t, oget (props c) k = Some (VRef t) -> tree d h (dom k) t.
Hypothesis Hdom2 : forall k x, x ∈ dom k -> x ∈ D /\ x <> o.
Hypothesis Hdom3 : forall k k' x, k <> k' -> x ∈ dom k -> x ∉ dom k'.
Hypothesis HD : forall x, x ∈ D -> x < length h.

Local Abbreviation Inv := (merging m h D o c cs dom).
Local Abbreviation below hc := (fun t l => merged m h t l hc).

Lemma old_child k t : get h o k = VRef t -> tree d h (dom k) t.
Proof using Ho Hdom1.
  intros Hg. apply Hdom1. rewrite (get_Some _ _ _ _ Ho) in Hg.
  by destruct (oget (props c) k); simplify_eq/=.
Qed.

Lemma merged_at_stable k hc hn :
  length h <= length hc ->
  merged_at (below hc) h o cs k hc ->
  get hn o k = get hc o k ->
  (forall a, length h <= a -> a < length hc -> hn !! a = hc !! a) ->
  (forall x, x ∈ dom k -> hn !! x = hc !! x) ->
  merged_at (below hn) h o cs k hn.
Proof using Ho Hdom1.
  unfold merged_at. intros Hlen Hm Hg Hfresh Hdom. rewrite Hg.
  destruct (own cs k) as [[| | | | | |l]|]; try done.
  destruct (is_array (cell_at h l)).
  - destruct Hm as (a & Ha & Hla & Hcell). exists a. split_and!; try done.
    rewrite Hfresh; [done|done|]. by eapply lookup_lt_Some.
  - destruct Hm as (t & Ht & Hmatch & Hlt & Hnested).
    assert ((tree d h (dom k) t /\ forall x, x ∈ dom k -> hn !! x = hc !! x)
            \/ length h <= t) as Hnode.
    { destruct (ref_or_not (get h o k)) as [[t0 Ht0]|Hno].
      - rewrite Ht0 in Hmatch. subst t0. left. split; [by apply old_child|done].
      - right. destruct (get h o k); try done. by edestruct Hno. }
    assert (hn !! t = hc !! t) as Htt.
    { destruct Hnode as [[Htree Hag]|Hge];
        [apply Hag; by eapply tree_root | by apply Hfresh]. }
    exists t. split_and!; try done.
    + apply lookup_lt_is_Some. rewrite Htt. by apply lookup_lt_is_Some.
    + by apply (merged_final m h hc hn d (dom k)).
Qed.

Lemma Inv_commit ps k ks hc h2 x :
  k ∉ ps -> k ∉ ks ->
  Inv ps (k :: ks) hc ->
  length hc <= length h2 ->
  (forall l, l < length hc -> l ∉ dom k -> h2 !! l = hc !! l) ->
  merged_at (below (set h2 o k x)) h o cs k (set h2 o k x) ->
  Inv (k :: ps) ks (set h2 o k x).
Proof using Ho HoD Hdom1 Hdom2 Hdom3 HD.
  intros Hkps Hkks (I1 & I2 & I3 & (co & Hco & Harr & I4) & I5) Hlen Hframe Hk.
  assert (o < length h) as Holt by by eapply lookup_lt_Some.
  assert (forall k x, x ∈ dom k -> x < length h) as Hdomlt
    by (intros k0 y Hy; apply HD; by apply (Hdom2 k0)).
  assert (o ∉ dom k) as Hodom by (intros Hin; by destruct (Hdom2 k o Hin)).
  assert (h2 !! o = Some co) as Hco2 by (rewrite Hframe; [done|lia|done]).
  unfold merging. split_and!.
  - rewrite length_set. lia.
  - intros l Hl HlD. rewrite lookup_set_ne by (intros ->; done).
    rewrite Hframe; [by apply I2|lia|].
    intros Hin. by destruct (Hdom2 k l Hin).
  - intros k' l Hk' Hl. destruct (Hdom2 k' l Hl) as [HlD Hlo].
    rewrite lookup_set_ne by done.
    rewrite Hframe; [apply (I3 k'); [by right|done] | specialize (HD l HlD); lia |].
    apply (Hdom3 k' k); [|done]. intros ->. done.
  - eexists. split_and!; [by apply lookup_set_eq|done|].
    intros k' Hk'. apply not_elem_of_cons in Hk' as [Hne Hk']. simpl.
    rewrite oget_oset_ne by done. by apply I4.
  - intros k' Hk'. apply elem_of_cons in Hk' as [->|Hk']; [done|].
    assert (k' <> k) as Hne by (intros ->; done).
    apply (merged_at_stable k' hc); [done|by apply I5| | |].
    + rewrite (get_Some _ _ _ _ (lookup_set_eq _ _ _ _ _ Hco2)), (get_Some _ _ _ _ Hco).
      simpl. by rewrite oget_oset_ne.
    + intros a Ha1 Ha2. rewrite lookup_set_ne by lia.
      apply Hframe; [done|]. intros Hin. specialize (Hdomlt k a Hin). lia.
    + intros y Hy. destruct (Hdom2 k' y Hy) as [HyD Hyo].
      rewrite lookup_set_ne by done.
      apply Hframe; [specialize (Hdomlt k' y Hy); lia|]. by apply (Hdom3 k' k).
Qed.

Lemma merge_step_Inv ps k ks hc :
  k ∉ ps -> k ∉ ks -> k <> PROTO -> is_Some (oget (props cs) k) ->
  Inv ps (k :: ks) hc ->
  exists hn, merge_step (merge m) o s (Some hc) k = Some hn /\ Inv (k :: ps) ks hn.
Proof using All.
  intros Hkps Hkks Hproto [v Hv] HI.
  assert (own cs k = Some v) as Hown by (unfold own; by rewrite decide_False).
  pose proof HI as (I1 & I2 & I3 & (co & Hco & Harr & I4) & I5).
  assert (s < length h) as Hslt by by eapply lookup_lt_Some.
  assert (o < length h) as Holt by by eapply lookup_lt_Some.
  assert (get hc s k = v) as Hval.
  { rewrite (get_Some hc s k cs) by (rewrite I2; done). by rewrite Hv. }
  assert (get hc o k = get h o k) as Hold.
  { rewrite (get_Some _ _ _ _ Hco), (get_Some _ _ _ _ Ho). by rewrite I4. }
  unfold merge_step. rewrite Hval.
  destruct (ref_or_not v) as [[l ->]|Hscalar]; cycle 1.
  { (* a scalar *)
    assert (isArray hc v = false) as -> by (destruct v; try done; by edestruct Hscalar).
    exists (set hc o k v). split; [destruct v; try done; by edestruct Hscalar|].
    apply (Inv_commit ps k ks hc hc v); try done.
    unfold merged_at. rewrite Hown.
    rewrite (get_Some _ _ _ _ (lookup_set_eq _ _ _ _ _ Hco)). simpl.
    rewrite oget_oset_eq. destruct v; try done. by edestruct Hscalar. }
  destruct (Hsrc k l Hv) as (Hl & HlD & Hrec).
  assert (hc !! l = h !! l) as Hcl by by apply I2.
  simpl. rewrite (cell_at_lookup h hc) by done.
  destruct (is_array (cell_at h l)) eqn:Hisarr.
  { (* an array *)
    eexists. split; [reflexivity|].
    assert ((hc ++ [slice_cell (cell_at h l)]) !! o = Some co) as Hco'
      by (rewrite lookup_app_l; [done|lia]).
    apply (Inv_commit ps k ks hc); try done.
    - rewrite length_app. lia.
    - intros x Hx _. by rewrite lookup_app_l.
    - unfold merged_at. rewrite Hown, Hisarr.
      exists (length hc). split_and!; [|done|].
      + rewrite (get_Some _ _ _ _ (lookup_set_eq _ _ _ _ _ Hco')). simpl.
        by rewrite oget_oset_eq.
      + rewrite lookup_set_ne by lia. by rewrite list_lookup_middle. }
  (* another object *)
  specialize (Hrec eq_refl).
  rewrite Hold.
  destruct (ref_or_not (get h o k)) as [[t Ht]|Hnone].
  - (* the target holds an object under the key *)
    rewrite Ht.
    pose proof (old_child k t Ht) as Htree0.
    assert (forall x, x ∈ dom k -> hc !! x = h !! x) as Hag
      by (intros x Hx; apply (I3 k); [by left|done]).
    assert (tree d hc (dom k) t) as Htree by by apply (tree_ext d h).
    assert (source_ok m hc (dom k) l) as Hsok.
    { apply (source_ok_transport m h hc D); try done.
      intros x Hx. left. by apply (Hdom2 k). }
    destruct (IHm d hc (dom k) t l Htree Hsok) as (h2 & -> & Hlen2 & Hframe2 & Hmerged).
    eexists. split; [reflexivity|].
    assert (t < length h) as Htlt by (apply HD, (Hdom2 k); by eapply tree_root).
    assert (h2 !! o = Some co) as Hco2.
    { rewrite Hframe2; [done|lia|]. intros Hin. by destruct (Hdom2 k o Hin). }
    apply (Inv_commit ps k ks hc); try done.
    unfold merged_at. rewrite Hown, Hisarr. exists t.
    rewrite (get_Some _ _ _ _ (lookup_set_eq _ _ _ _ _ Hco2)). simpl.
    rewrite oget_oset_eq, Ht, length_set. split_and!; [done|done|lia|].
    apply (merged_final m h h2 _ d (dom k)); [lia| | |lia|].
    + intros x Hx1 Hx2. apply lookup_set_ne. lia.
    + left. split; [done|]. intros x Hx. apply lookup_set_ne. by apply (Hdom2 k).
    + apply (merged_initial m h hc h2 D d (dom k)); auto.
  - (* it holds none: a new object *)
    assert (match get h o k with
            | VRef t => (hc, t)
            | _ => alloc hc empty_object
            end = (hc ++ [empty_object], length hc)) as ->.
    { destruct (get h o k); try done. by edestruct Hnone. }
    assert (tree 1 (hc ++ [empty_object]) [length hc] (length hc)) as Htree.
    { exists empty_object, []. split_and!; [by rewrite list_lookup_middle|constructor| |done].
      apply NoDup_singleton. }
    assert (forall x, x < length h -> x ∉ D -> (hc ++ [empty_object]) !! x = h !! x) as Hsame.
    { intros x Hx HxD. rewrite lookup_app_l by lia. by apply I2. }
    assert (source_ok m (hc ++ [empty_object]) [length hc] l) as Hsok.
    { apply (source_ok_transport m h _ D); try done.
      - rewrite length_app. lia.
      - intros x Hx. apply list_elem_of_singleton in Hx as ->. right. lia. }
    destruct (IHm 1 _ [length hc] (length hc) l Htree Hsok)
      as (h2 & -> & Hlen2 & Hframe2 & Hmerged).
    rewrite length_app in Hlen2, Hframe2. simpl in Hlen2, Hframe2.
    eexists. split; [reflexivity|].
    assert (forall x, x < length hc -> h2 !! x = hc !! x) as Hframe.
    { intros x Hx. rewrite Hframe2; [by rewrite lookup_app_l|lia|].
      intros Hin. apply list_elem_of_singleton in Hin. lia. }
    assert (h2 !! o = Some co) as Hco2 by (rewrite Hframe; [done|lia]).
    apply (Inv_commit ps k ks hc); try done; [lia|by intros; apply Hframe|].
    unfold merged_at. rewrite Hown, Hisarr. exists (length hc).
    rewrite (get_Some _ _ _ _ (lookup_set_eq _ _ _ _ _ Hco2)). simpl.
    rewrite oget_oset_eq, length_set. split_and!; [done| |lia|].
    + destruct (get h o k); try done. by edestruct Hnone.
    + apply (merged_final m h h2 _ 0 []); [lia| |right; lia|lia|].
      * intros x Hx1 Hx2. apply lookup_set_ne. lia.
      * apply (merged_initial m h (hc ++ [empty_object]) h2 D 0 []); auto.
        -- rewrite length_app. lia.
        -- right. split; [lia|]. intros k'.
           by rewrite (get_Some _ _ _ empty_object) by by rewrite list_lookup_middle.
Qed.

Lemma merge_steps_Inv ks : forall ps hc,
  NoDup ks ->
  (forall k, k ∈ ks -> k ∉ ps) ->
  (forall k, k ∈ ks -> k <> PROTO /\ is_Some (oget (props cs) k)) ->
  Inv ps ks hc ->
  exists h' ps',
    fold_left (merge_step (merge m) o s) ks (Some hc) = Some h'
    /\ Inv ps' [] h'
    /\ (forall k, k ∈ ps' <-> k ∈ ps \/ k ∈ ks).
Proof using All.
  induction ks as [|k ks IH]; intros ps hc Hnd Hps Hsome HI.
  - exists hc, ps. split_and!; [done|done|].
    intros k. rewrite elem_of_nil. tauto.
  - apply NoDup_cons in Hnd as [Hk Hnd].
    destruct (Hsome k) as [Hkp Hks]; [by left|].
    destruct (merge_step_Inv ps k ks hc) as (hn & Hstep & HIn);
      [apply Hps; by left | done | done | done | done |].
    destruct (IH (k :: ps) hn) as (h' & ps' & Hf & HI' & Hps'); [done| | |done|].
    + intros k' Hk' Hin. apply elem_of_cons in Hin as [->|Hin]; [done|].
      apply (Hps k'); [by right|done].
    + intros k' Hk'. apply Hsome. by right.
    + exists h', ps'. cbn [fold_left]. rewrite Hstep. split_and!; [done|done|].
      intros k'. rewrite Hps', !elem_of_cons. tauto.
Qed.

End Steps.

(** One call of [merge] on a target that is a tree and a source of depth
    at most [m] outside it. *)
Lemma merge_result (m : nat) : forall (d : nat) (h : list cell) (D : list nat) (o s : nat),
  tree d h D o -> source_ok m h D s ->
  exists h',
    merge m h o s = Some (h', o)
    /\ length h <= length h'
    /\ (forall l, l < length h -> l ∉ D -> h' !! l = h !! l)
    /\ merged m h o s h'
    /\ is_array (cell_at h' o) = is_array (cell_at h o)
    /\ get h' o PROTO = get h o PROTO.
Proof.
  induction m as [|m IH]; intros d h D o s Htree Hsrc; [done|].
  destruct d as [|d]; [done|].
  destruct (tree_children d h D o Htree) as (c & dom & Ho & HoD & Hd1 & Hd2 & Hd3).
  destruct Hsrc as (cs & Hs & HsD & Hnd & Hch).
  assert (forall d h D o s, tree d h D o -> source_ok m h D s ->
            exists h', merge m h o s = Some (h', o) /\ length h <= length h'
                       /\ (forall l, l < length h -> l ∉ D -> h' !! l = h !! l)
                       /\ merged m h o s h') as IHm.
  { intros d' h0 D0 o0 s0 Ht Hso.
    destruct (IH d' h0 D0 o0 s0 Ht Hso) as (h' & ? & ? & ? & ? & _). by exists h'. }
  assert (forall k l, oget (props cs) k = Some (VRef l) ->
            l < length h /\ (l ∉ D)
            /\ (is_array (cell_at h l) = false -> source_ok m h D l)) as Hsrc'.
  { intros k l Hkl. apply (Hch k l). by apply oget_Some_elem_of. }
  assert (forall x, x ∈ D -> x < length h) as HD.
  { intros x Hx. by eapply tree_allocated. }
  set (ks := filter (fun k => k <> PROTO) (ownKeys (props cs))).
  destruct (merge_steps_Inv m h D o s d c cs dom IHm Ho HoD Hs HsD Hsrc' Hd1 Hd2 Hd3 HD
              ks [] h)
    as (h' & ps' & Hfold & (I1 & I2 & _ & (co & Hco & Harr & I4) & I5) & Hps').
  - by apply NoDup_filter.
  - intros k Hk. by apply not_elem_of_nil.
  - intros k Hk. apply list_elem_of_filter in Hk as [Hp Hk]. split; [done|].
    unfold ownKeys in Hk. apply list_elem_of_fmap in Hk as ([k' v] & -> & Hin).
    exists v. by apply oget_elem_of.
  - split_and!; [done | done | done | by exists c |].
    intros k Hk. by apply elem_of_nil in Hk.
  - assert (forall k, k ∉ ks -> get h' o k = get h o k) as Hkept.
    { intros k Hk. rewrite (get_Some _ _ _ _ Hco), (get_Some _ _ _ _ Ho).
      rewrite I4; [done|]. intros Hin.
      apply Hps' in Hin as [Hin|Hin]; [by apply elem_of_nil in Hin|done]. }
    exists h'. split_and!; try done.
    + simpl. rewrite (cell_at_Some _ _ _ Hs). rewrite fold_left_skip.
      fold ks. by rewrite Hfold.
    + simpl. rewrite (cell_at_Some _ _ _ Hs).
      intros k. destruct (decide (k ∈ ks)) as [Hin|Hnin].
      * apply I5, Hps'. by right.
      * unfold merged_at. rewrite own_None; [by apply Hkept|].
        destruct (decide (k = PROTO)) as [?|Hp]; [by left|right].
        intros Hk. apply Hnin. by apply list_elem_of_filter.
    + by rewrite (cell_at_Some _ _ _ Hco), (cell_at_Some _ _ _ Ho).
    + apply Hkept. intros Hin. by apply list_elem_of_filter in Hin as [Hp _].
Qed.




(** Whenever [merge] returns, it returns its first argument. *)
Lemma merge_returns_object m h o s h' r : merge m h o s = Some (h', r) -> r = o.
Proof.
  destruct m as [|m]; simpl; [done|].
  destruct (fold_left _ _ _); [|done]. by intros [= _ <-].
Qed.

(** The target has to be a tree: when it holds one object under two
    keys, the copy of an array made for the first key is merged into for
    the second, and an object of the source (7) is written. *)
Lemma merge_into_shared_target :
  exists h',
    merge 4 shared_store 0 2 = Some (h', 0)
    /\ get shared_store 7 (KName "p") = VUndef
    /\ get h' 7 (KName "p") = VNum 1.
Proof. eexists. split_and!; by vm_compute. Qed.


Lemma example_source : source_ok 2 example_store [0; 1; 2] 3.
Proof.
  assert (forall x, (3 <= x) -> x ∉ [0; 1; 2]) as Hout.
  { intros x Hx Hin. apply list_elem_of_In in Hin. simpl in Hin. lia. }
  eexists. split_and!; [reflexivity | by apply Hout | |].
  - apply NoDup_ListNoDup. repeat constructor; simpl; intuition discriminate.
  - intros k l Hin. apply list_elem_of_In in Hin. simpl in Hin.
    destruct Hin as [Hin|[Hin|[Hin|[Hin|[]]]]]; simplify_eq; simpl;
      (split_and!; [lia | apply Hout; lia | try discriminate]).
    all: intros _; eexists; split_and!; [reflexivity | apply Hout; lia | |].
    all: try (apply NoDup_singleton).
    all: intros k l Hin; apply list_elem_of_In in Hin; simpl in Hin;
      destruct Hin as [Hin|[]]; discriminate.
Qed.


End MergeProofs.

(* ===================================================================== *)
(** * More properties *)
(* ===================================================================== *)

(** ** Lists *)

Module ListFacts.

Lemma filter_none {A} (P : A -> Prop) `{forall x, Decision (P x)} (l : list A) :
  Forall (fun x => ~ P x) l -> filter P l = [].
Proof.
  induction 1 as [|x l Hx _ IH]; [done|]. by rewrite filter_cons_False.
Qed.

Lemma filter_all {A} (P : A -> Prop) `{forall x, Decision (P x)} (l : list A) :
  Forall P l -> filter P l = l.
Proof.
  induction 1 as [|x l Hx _ IH]; [done|]. rewrite filter_cons_True by done. by rewrite IH.
Qed.

End ListFacts.

(** ** Clones: init, observe, destroy *)

Module ClonesMore.
Import JS Clones ClonesDestroy ClonesProofs ListFacts.

Lemma filter_real_slides rc :
  filter (fun s => isClone s = false) (real_slides rc) = real_slides rc.
Proof.
  unfold real_slides. induction (seq 0 rc) as [|i l IH]; [done|].
  simpl. rewrite filter_cons_True by done. by rewrite IH.
Qed.

Lemma filter_clones (f : nat -> SlideH) l :
  (forall j, isClone (f j) = true) ->
  filter (fun s => isClone s = false) (map f l) = [].
Proof.
  intros Hf. induction l as [|j l IH]; [done|].
  simpl. rewrite filter_cons_False; [done|]. by rewrite Hf.
Qed.

Lemma isClone_head rc N j : (0 < rc)%nat -> isClone (head_clone rc N j) = true.
Proof.
  intros Hrc. unfold isClone. simpl. apply Z.ltb_lt.
  assert (0 <= (Z.of_nat j - N) mod Z.of_nat rc) by (apply Z.mod_pos_bound; lia). lia.
Qed.

Lemma isClone_tail rc N j : (0 < rc)%nat -> isClone (tail_clone rc N j) = true.
Proof.
  intros Hrc. unfold isClone. simpl. apply Z.ltb_lt.
  assert (0 <= Z.of_nat j mod Z.of_nat rc) by (apply Z.mod_pos_bound; lia). lia.
Qed.

Lemma getLength_installed rc N a b st :
  (0 < rc)%nat ->
  getLength true (installed rc N a b st) = Z.of_nat rc
  /\ getLength false (installed rc N a b st) = Z.of_nat (a + rc + b).
Proof.
  intros Hrc. unfold getLength, installed. simpl. split.
  - rewrite !filter_app, filter_real_slides.
    rewrite !filter_clones by (intros; by apply isClone_head || by apply isClone_tail).
    simpl. by rewrite app_nil_r, length_real_slides.
  - rewrite !length_app, !length_map, !length_seq, length_real_slides. lia.
Qed.

(** [computeCloneCount] reads the registry through the number of real
    slides only. *)
Lemma computeCloneCount_ext o env st1 st2 :
  getLength true st1 = getLength true st2 ->
  computeCloneCount o env st1 = computeCloneCount o env st2.
Proof. intros H. unfold computeCloneCount. by rewrite H. Qed.

(** What [init] leaves when clones are needed. *)
Lemma init_result o env rc st :
  (0 < rc)%nat ->
  Slides st = real_slides rc -> list_dom st = real_elms rc ->
  0 < computeCloneCount o env st ->
  let c := computeCloneCount o env st in
  init o env st
  = Some (emit EVENT_RESIZE
            (installed rc c (Z.to_nat c) (Z.to_nat c) (set_cloneCount c st))).
Proof.
  intros Hrc HS HD Hc c. unfold init. fold c.
  assert (truthy c = true) as -> by (unfold truthy; apply negb_true_iff; lia).
  by rewrite (generate_installs rc c (set_cloneCount c st)).
Qed.

(** X1.  On a slider of [rc > 0] real slides for which clones are needed,
    [init] installs them: the registry then holds [rc + 2 c] handles of
    which [rc] are not clones, the first and the last [c] of the list are
    the clones, the count is recorded, and 'resize' is emitted once. *)
Theorem init_installs_clones (o : Options) (env : Env) (rc : nat) (st : State) :
  (0 < rc)%nat ->
  Slides st = real_slides rc -> list_dom st = real_elms rc ->
  0 < computeCloneCount o env st ->
  let c := computeCloneCount o env st in
  exists st',
    init o env st = Some st'
    /\ getLength false st' = Z.of_nat rc + 2 * c
    /\ getLength true st' = Z.of_nat rc
    /\ Z.of_nat (length (list_dom st')) = Z.of_nat rc + 2 * c
    /\ Z.of_nat (length (clones st')) = Z.of_nat (length (clones st)) + 2 * c
    /\ cloneCount st' = c
    /\ emitted st' = emitted st ++ [EVENT_RESIZE].
Proof.
  intros Hrc HS HD Hc c. eexists. split; [by apply init_result|].
  destruct (getLength_installed rc c (Z.to_nat c) (Z.to_nat c) (set_cloneCount c st) Hrc)
    as [Ht Hf].
  split_and!; try done.
  - change (getLength false (installed rc c (Z.to_nat c) (Z.to_nat c) (set_cloneCount c st))
            = Z.of_nat rc + 2 * c).
    rewrite Hf. lia.
  - simpl. unfold real_elms.
    rewrite !length_app, !length_map, !length_seq, length_real_slides. lia.
  - simpl. rewrite !length_app, !length_map, !length_seq. lia.
Qed.

Lemma init_installs_on_five_slides :
  let o := {| type := "loop"; clones_opt := 0; perPage := 1; drag := false;
              flickMaxPages := 0; autoWidth := false |} in
  let env := no_fixed_size in
  exists st',
    init o env (st0 5) = Some st'
    /\ getLength false st' = 9 /\ getLength true st' = 5.
Proof.
  intros o env.
  destruct (init_installs_clones o env 5 (st0 5)) as (st' & Hi & Hf & Ht & _);
    [lia | reflexivity | reflexivity | reflexivity |].
  exists st'. split_and!; [exact Hi | exact Hf | exact Ht].
Defined.

Lemma generate_nothing c st : Slides st = [] -> generate c st = Some st.
Proof. intros H. unfold generate. by rewrite H. Qed.

(** [init] leaves the number of real slides as it was. *)
Lemma init_real_count o env rc st st' :
  Slides st = real_slides rc -> list_dom st = real_elms rc ->
  0 <= computeCloneCount o env st ->
  init o env st = Some st' ->
  getLength true st' = getLength true st
  /\ cloneCount st' = computeCloneCount o env st.
Proof.
  intros HS HD Hc Hi.
  destruct (Z.eq_dec (computeCloneCount o env st) 0) as [H0|Hne].
  { unfold init in Hi. rewrite H0 in Hi. simpl in Hi. injection Hi as <-. by rewrite H0. }
  destruct rc as [|rc].
  { unfold init in Hi.
    assert (truthy (computeCloneCount o env st) = true) as Ht
      by (unfold truthy; apply negb_true_iff; lia).
    rewrite Ht, generate_nothing in Hi by done. by injection Hi as <-. }
  rewrite init_result with (rc := S rc) in Hi by (done || lia).
  injection Hi as <-.
  split; [|done].
  change (getLength true (installed (S rc) (computeCloneCount o env st)
                            (Z.to_nat (computeCloneCount o env st))
                            (Z.to_nat (computeCloneCount o env st))
                            (set_cloneCount (computeCloneCount o env st) st))
          = getLength true st).
  destruct (getLength_installed (S rc) (computeCloneCount o env st)
              (Z.to_nat (computeCloneCount o env st))
              (Z.to_nat (computeCloneCount o env st))
              (set_cloneCount (computeCloneCount o env st) st)) as [-> _]; [lia|].
  unfold getLength. rewrite HS, filter_real_slides, length_real_slides. done.
Qed.

(** X2.  Right after [init], with the options and the measures unchanged,
    [observe] asks for no refresh: the count installed is the count
    required, clones not being counted as slides. *)
Theorem observe_after_init (o : Options) (env : Env) (rc : nat) (st st' : State) :
  Slides st = real_slides rc -> list_dom st = real_elms rc ->
  0 <= computeCloneCount o env st ->
  init o env st = Some st' ->
  computeCloneCount o env st' = cloneCount st'
  /\ observe o env st' = st'.
Proof.
  intros HS HD Hc Hi.
  destruct (init_real_count o env rc st st' HS HD Hc Hi) as [Hlen Hcc].
  assert (computeCloneCount o env st' = cloneCount st') as Heq
    by (rewrite Hcc; by apply computeCloneCount_ext).
  split; [done|]. unfold observe. rewrite Heq.
  by assert ((cloneCount st' <? cloneCount st') = false) as -> by lia.
Qed.

Lemma observe_after_init_on_five_slides :
  let o := {| type := "loop"; clones_opt := 0; perPage := 1; drag := false;
              flickMaxPages := 0; autoWidth := false |} in
  let env := no_fixed_size in
  option_map (observe o env) (init o env (st0 5)) = init o env (st0 5).
Proof.
  intros o env. destruct (init o env (st0 5)) as [st'|] eqn:Hi; [|done].
  destruct (observe_after_init o env 5 (st0 5) st') as [_ Hobs];
    [reflexivity | reflexivity | by vm_compute | exact Hi |].
  simpl. by rewrite Hobs.
Defined.

(** X3.  [destroy] undoes in the list what [generate] did: the clones are
    taken out, the real slides stay in their order, and the array of
    clones is empty.  It leaves the registry of the Slides component, with
    the handles of the clones, as it is. *)
Theorem destroy_removes_the_clones (rc : nat) (N : Z) (st st' : State) :
  (0 < rc)%nat -> 0 < N ->
  Slides st = real_slides rc -> list_dom st = real_elms rc ->
  (forall e, e ∈ clones st -> e ∉ real_elms rc) ->
  generate N st = Some st' ->
  list_dom (destroy st') = list_dom st
  /\ clones (destroy st') = []
  /\ Slides (destroy st') = Slides st'
  /\ Z.of_nat (length (Slides (destroy st'))) = Z.of_nat rc + 2 * N.
Proof.
  intros Hrc HN HS HD Hcl Hg.
  rewrite generate_installs with (rc := rc) in Hg by done. injection Hg as <-.
  split_and!; try done.
  - unfold destroy, installed, remove. simpl. rewrite HD.
    set (nodes := clones st ++ _ ++ _).
    rewrite !filter_app.
    rewrite (filter_none _ (map slide (map (head_clone rc N) _))).
    2:{ apply Forall_forall. intros x Hx Hnot. apply Hnot. unfold nodes.
        rewrite !elem_of_app. right. by left. }
    rewrite (filter_none _ (map slide (map (tail_clone rc N) _))).
    2:{ apply Forall_forall. intros x Hx Hnot. apply Hnot. unfold nodes.
        rewrite !elem_of_app. right. by right. }
    rewrite filter_all; [by rewrite app_nil_r|].
    apply Forall_forall. intros x Hx Hin. unfold nodes in Hin.
    rewrite !elem_of_app in Hin. destruct Hin as [Hin|[Hin|Hin]].
    + by apply (Hcl x).
    + apply list_elem_of_In, in_map_iff in Hin as (y & <- & Hy).
      apply in_map_iff in Hy as (j & <- & _).
      apply list_elem_of_In, in_map_iff in Hx as (r & Hr & Hx).
      apply in_map_iff in Hx as (i & <- & _). discriminate.
    + apply list_elem_of_In, in_map_iff in Hin as (y & <- & Hy).
      apply in_map_iff in Hy as (j & <- & _).
      apply list_elem_of_In, in_map_iff in Hx as (r & Hr & Hx).
      apply in_map_iff in Hx as (i & <- & _). discriminate.
  - simpl. rewrite !length_app, !length_map, !length_seq, length_real_slides. lia.
Qed.

Lemma destroy_after_generate_on_two_slides :
  option_map (fun s => list_dom (destroy s)) (generate 5 (st0 2)) = Some (real_elms 2).
Proof.
  destruct (generate 5 (st0 2)) as [st'|] eqn:Hg; [|done].
  destruct (destroy_removes_the_clones 2 5 (st0 2) st') as (Hd & _);
    [lia | lia | reflexivity | reflexivity | | exact Hg |].
  - intros e He. by apply elem_of_nil in He.
  - unfold option_map. by rewrite Hd.
Defined.

(** What is rounded with the sign of a number that is not negative has
    a ceiling that is not negative. *)
Lemma ceil_round_nonneg mz ez lz :
  0 <= ceil (SpecFloat.binary_round_aux prec emax false mz ez lz).
Proof.
  unfold SpecFloat.binary_round_aux.
  destruct (SpecFloat.shr_fexp prec emax mz ez lz) as [mrs1 e1].
  destruct (SpecFloat.shr_fexp prec emax _ e1 SpecFloat.loc_Exact) as [mrs2 e2].
  destruct (SpecFloat.shr_m mrs2) as [|m|m]; simpl; [lia| |lia].
  destruct (e2 <=? emax - prec); simpl; [|lia].
  assert (~ 0 <= Z.shiftl (Z.neg m) e2) by (rewrite Z.shiftl_nonneg; lia).
  lia.
Qed.

Lemma fnonneg_cases x :
  fnonneg x = true ->
  (exists s, x = SpecFloat.S754_zero s) \/ x = SpecFloat.S754_infinity false
  \/ exists m e, x = SpecFloat.S754_finite false m e.
Proof.
  destruct x as [s|[|]| |[|] m e]; try discriminate; intros _; eauto.
Qed.

Lemma ceil_fdiv_nonneg x y :
  fnonneg x = true -> fnonneg y = true -> 0 <= ceil (fdiv x y).
Proof.
  intros Hx Hy.
  destruct (fnonneg_cases x Hx) as [[sx ->]|[->|(mx & ex & ->)]];
    destruct (fnonneg_cases y Hy) as [[sy ->]|[->|(my & ey & ->)]];
    try (simpl; lia).
  unfold fdiv, SpecFloat.SFdiv.
  destruct (SpecFloat.SFdiv_core_binary prec emax (Z.pos mx) ex (Z.pos my) ey)
    as [[mz ez] lz].
  apply ceil_round_nonneg.
Qed.

(** X4.  A loop slider with no clone count of its own, at least one slide
    per page and measures that are not negative asks for at least two
    clones a side. *)
Theorem loop_needs_clones (o : Options) (env : Env) (st : State) :
  type o = LOOP -> clones_opt o = 0 ->
  1 <= perPage o -> 0 <= flickMaxPages o ->
  fnonneg (trackSize env) = true -> fnonneg (fixedSize env) = true ->
  2 <= computeCloneCount o env st.
Proof.
  intros Ht Hc Hp Hf Htr Hfx.
  unfold computeCloneCount, is_type. rewrite Ht, Hc. simpl.
  assert (0 <= ceil (fdiv (trackSize env) (fixedSize env))) as Hceil
    by by apply ceil_fdiv_nonneg.
  assert (0 <= getLength true st) as Hlen by (unfold getLength; lia).
  set (fc := if ftruthy (fixedSize env) then _ else 0).
  assert (0 <= fc) as Hfc by (unfold fc; destruct (ftruthy _); lia).
  set (al := if autoWidth o then _ else 0).
  assert (0 <= al) as Hal by (unfold al; destruct (autoWidth o); lia).
  assert (1 <= or_else (or_else fc al) (perPage o)) as Hbase.
  { unfold or_else, truthy.
    destruct (fc =? 0) eqn:E1; simpl; rewrite ?E1; simpl;
      destruct (al =? 0) eqn:E2; simpl; rewrite ?E1, ?E2; simpl; lia. }
  assert (2 <= (if drag o then or_else (flickMaxPages o) 1 + 1 else 2)) as Hfac.
  { unfold or_else, truthy. destruct (drag o); [|lia].
    destruct (Z.eqb_spec (flickMaxPages o) 0); simpl; lia. }
  nia.
Qed.

Lemma loop_needs_clones_example :
  2 <= computeCloneCount loop_options hidden_track (st0 5).
Proof.
  apply loop_needs_clones; try reflexivity; try lia; by vm_compute.
Defined.

Lemma elem_of_heads rc N a e :
  e ∈ map slide (map (head_clone rc N) (seq 0 a)) ->
  exists j, (j < a)%nat
    /\ e = CloneElm (Z.of_nat j + 1) (RealElm ((Z.of_nat j - N) mod Z.of_nat rc)).
Proof.
  intros H. apply list_elem_of_In, in_map_iff in H as (x & <- & H).
  apply in_map_iff in H as (j & <- & H). apply in_seq in H.
  exists j. split; [lia|done].
Qed.

Lemma elem_of_tails rc N b e :
  e ∈ map slide (map (tail_clone rc N) (seq 0 b)) ->
  exists j, (j < b)%nat
    /\ e = CloneElm (N + Z.of_nat j + 1) (RealElm (Z.of_nat j mod Z.of_nat rc)).
Proof.
  intros H. apply list_elem_of_In, in_map_iff in H as (x & <- & H).
  apply in_map_iff in H as (j & <- & H). apply in_seq in H.
  exists j. split; [lia|done].
Qed.

Lemma elem_of_real_elms rc e :
  e ∈ real_elms rc -> exists i, (i < rc)%nat /\ e = RealElm (Z.of_nat i).
Proof.
  intros H. apply list_elem_of_In, in_map_iff in H as (x & <- & H).
  apply in_map_iff in H as (j & <- & H). apply in_seq in H.
  exists j. split; [lia|done].
Qed.

Lemma NoDup_map_seq {A} (f : nat -> A) a :
  (forall i j, f i = f j -> i = j) -> NoDup (map f (seq 0 a)).
Proof.
  intros Hinj. change (map f (seq 0 a)) with (f <$> seq 0 a).
  apply NoDup_fmap_2_strong; [|apply NoDup_seq].
  intros i j _ _. apply Hinj.
Qed.

(** X17.  After [generate] the clones are, in the order they were made,
    the [2 * N] elements of which the one at position [index] carries the
    number [index + 1] and is the copy of the real slide
    [(index - N) mod rc]: the numbers are those from 1 to [2 * N] in
    order, so no two clones carry the same number.  The clones are
    pairwise distinct elements, and so are the children of the list. *)
Theorem clones_are_distinct (rc : nat) (N : Z) (st st' : State) :
  (0 < rc)%nat -> 0 < N ->
  Slides st = real_slides rc -> list_dom st = real_elms rc -> clones st = [] ->
  generate N st = Some st' ->
  clones st'
  = map (fun index => cloneDeep (RealElm ((Z.of_nat index - N) mod Z.of_nat rc))
                                (Z.of_nat index))
        (seq 0 (2 * Z.to_nat N))
  /\ map clone_number (clones st')
     = map (fun index => Some (Z.of_nat index + 1)) (seq 0 (2 * Z.to_nat N))
  /\ NoDup (map clone_number (clones st'))
  /\ NoDup (clones st')
  /\ NoDup (list_dom st').
Proof.
  intros Hrc HN HS HD Hcl Hg.
  rewrite generate_installs with (rc := rc) in Hg by done. injection Hg as <-.
  unfold installed. simpl. rewrite Hcl. simpl.
  set (H := map slide (map (head_clone rc N) (seq 0 (Z.to_nat N)))).
  set (T := map slide (map (tail_clone rc N) (seq 0 (Z.to_nat N)))).
  set (made := fun index : nat =>
         cloneDeep (RealElm ((Z.of_nat index - N) mod Z.of_nat rc)) (Z.of_nat index)).
  assert (H ++ T = map made (seq 0 (2 * Z.to_nat N))) as Hmade.
  { replace (2 * Z.to_nat N)%nat with (Z.to_nat N + Z.to_nat N)%nat by lia.
    rewrite seq_app, map_app. rewrite Nat.add_0_l.
    assert (seq (Z.to_nat N) (Z.to_nat N)
            = map (Nat.add (Z.to_nat N)) (seq 0 (Z.to_nat N))) as ->.
    { rewrite <- (Nat.add_0_r (Z.to_nat N)) at 1.
      symmetry. apply (fmap_add_seq (Z.to_nat N) 0 (Z.to_nat N)). }
    unfold H, T. rewrite !map_map. apply (f_equal2 app); [reflexivity|].
    apply map_ext_in. intros j Hj. unfold made, tail_clone, cloneDeep. simpl.
    f_equal; [lia|]. f_equal. f_equal. lia. }
  assert (map clone_number (H ++ T)
          = map (fun index => Some (Z.of_nat index + 1)) (seq 0 (2 * Z.to_nat N)))
    as Hnum.
  { rewrite Hmade, map_map. by apply map_ext. }
  assert (NoDup (map clone_number (H ++ T))) as Hnd.
  { rewrite Hnum. apply NoDup_map_seq. intros i j Hij.
    injection Hij as Hij. lia. }
  assert (NoDup (H ++ T)) as HnHT.
  { eapply (NoDup_fmap_1 clone_number). exact Hnd. }
  apply NoDup_app in HnHT as HnHT'. destruct HnHT' as (HnH & HHT & HnT).
  assert (NoDup (real_elms rc)) as HnR.
  { unfold real_elms, real_slides. rewrite map_map. apply NoDup_map_seq.
    intros i j Hij. simpl in Hij. injection Hij as Hij. lia. }
  split_and!; try done.
  apply NoDup_app. split_and!; [done| |].
  - intros e He Hin. apply elem_of_app in Hin as [Hin|Hin]; [|by apply (HHT e)].
    apply elem_of_heads in He as (j & _ & ->).
    by apply elem_of_real_elms in Hin as (i & _ & ?).
  - apply NoDup_app. split_and!; [done| |done].
    intros e He Hin. apply elem_of_real_elms in He as (i & _ & ->).
    by apply elem_of_tails in Hin as (j & _ & ?).
Qed.

Lemma clones_are_distinct_on_two_slides :
  match generate 5 (st0 2) with
  | Some st' =>
      map clone_number (clones st')
      = [Some 1; Some 2; Some 3; Some 4; Some 5; Some 6; Some 7; Some 8; Some 9; Some 10]
      /\ NoDup (map clone_number (clones st')) /\ NoDup (list_dom st')
  | None => False
  end.
Proof.
  destruct (generate 5 (st0 2)) as [st'|] eqn:Hg; [|done].
  destruct (clones_are_distinct 2 5 (st0 2) st') as (_ & H1 & H2 & _ & H3);
    [lia | lia | reflexivity | reflexivity | reflexivity | exact Hg |].
  split_and!; [exact H1 | exact H2 | exact H3].
Defined.

(** X18.  On a slider without slides that asks for clones, [init]
    returns without making any: the list, the array of clones and the
    registry are as they were, the count is recorded, and 'resize' is
    emitted all the same. *)
Theorem init_without_slides (o : Options) (env : Env) (st : State) :
  Slides st = [] -> computeCloneCount o env st <> 0 ->
  exists st',
    init o env st = Some st'
    /\ Slides st' = [] /\ list_dom st' = list_dom st /\ clones st' = clones st
    /\ cloneCount st' = computeCloneCount o env st
    /\ emitted st' = emitted st ++ [EVENT_RESIZE].
Proof.
  intros HS Hc. unfold init.
  assert (truthy (computeCloneCount o env st) = true) as ->
    by (unfold truthy; apply negb_true_iff; lia).
  rewrite generate_nothing by done.
  eexists. split; [reflexivity|]. by split_and!.
Qed.

Lemma init_on_an_empty_loop_slider :
  exists st',
    init loop_options hidden_track (st0 0) = Some st'
    /\ list_dom st' = [] /\ emitted st' = [EVENT_RESIZE].
Proof.
  destruct (init_without_slides loop_options hidden_track (st0 0))
    as (st' & Hi & _ & Hd & _ & _ & He); [reflexivity | by vm_compute |].
  exists st'. split_and!; [exact Hi | exact Hd | exact He].
Defined.

End ClonesMore.

(** ** Slide: distance, attributes, destruction *)

Module SlideMoreProofs.
Import JS SlideStatus SlideMore SlideStatusProofs ListFacts.

Local Abbreviation without a l :=
  (@filter (string * string) (list (string * string)) _
     (fun p => String.eqb a (fst p) = false) _ l).
Local Abbreviation only a l :=
  (@filter (string * string) (list (string * string)) _
     (fun p => String.eqb a (fst p) = true) _ l).
Local Abbreviation entry a v :=
  (match v return list (string * string) with Some x => [(a, x)] | None => [] end).

Lemma State_ext (s t : State) :
  classes s = classes t -> attrs s = attrs t ->
  focusable_tabindex s = focusable_tabindex t ->
  destroyed s = destroyed t -> emitted s = emitted t -> s = t.
Proof. destruct s, t. simpl. by intros -> -> -> -> ->. Qed.

Lemma hasClass_false cl c :
  hasClass cl c = false -> Forall (fun x => String.eqb c x = false) cl.
Proof.
  unfold hasClass. induction cl as [|x cl IH]; simpl; [done|].
  intros H. apply orb_false_iff in H as [H1 H2]. constructor; [done|by apply IH].
Qed.

Lemma toggle_same cl c b : hasClass cl c = b -> toggleClass cl c b = cl.
Proof.
  intros H. destruct b; simpl.
  - unfold addClass. by rewrite H.
  - unfold removeClass. apply filter_all. by apply hasClass_false.
Qed.

Lemma updateActivity_same c (a : Flag) s :
  is_boolean a = true -> hasClass (classes s) CLASS_ACTIVE = a ->
  updateActivity c a s = s.
Proof.
  intros Hb Ha. unfold updateActivity.
  by rewrite differs_boolean, Ha, Bool.eqb_reflx by done.
Qed.

(** What [updateActivity] does with a flag that is falsy without being
    [false], on a slide without the class. *)
Lemma updateActivity_falsy c s :
  hasClass (classes s) CLASS_ACTIVE = false ->
  classes (updateActivity c Falsy s) = classes s
  /\ attrs (updateActivity c Falsy s)
     = (if isNavigation c then setAttr ARIA_CURRENT None (attrs s) else attrs s)
  /\ focusable_tabindex (updateActivity c Falsy s) = focusable_tabindex s
  /\ destroyed (updateActivity c Falsy s) = destroyed s
  /\ emitted (updateActivity c Falsy s) = emitted s ++ [EVENT_INACTIVE].
Proof.
  intros Hc. unfold updateActivity. simpl.
  destruct (isNavigation c); simpl; split_and!; try done;
    by apply (toggle_same _ _ false).
Qed.

Lemma updateVisibility_attrs c e (v : Flag) s :
  let hidden := negb v && (negb (isActive c e) || isClone c) in
  attrs (updateVisibility c e v s)
  = setAttr TAB_INDEX (if negb hidden && slideFocus c then Some "0" else None)
      (setAttr ARIA_HIDDEN (if hidden then Some "true" else None) (attrs s))
  /\ focusable_tabindex (updateVisibility c e v s)
     = (if hidden then Some "-1" else None).
Proof.
  unfold updateVisibility. simpl.
  by destruct (differs v (hasClass (classes s) CLASS_VISIBLE)).
Qed.

(** [updateVisibility] on a slide whose class agrees with the truth of
    the flag: the class stays, and an event comes only of a flag that is
    not a boolean. *)
Lemma updateVisibility_classes_same c e (v : Flag) s :
  hasClass (classes s) CLASS_VISIBLE = v ->
  classes (updateVisibility c e v s) = classes s
  /\ emitted (updateVisibility c e v s)
     = emitted s ++ (if is_boolean v then [] else [EVENT_HIDDEN])
  /\ destroyed (updateVisibility c e v s) = destroyed s.
Proof.
  intros Hv. unfold updateVisibility. simpl. rewrite Hv.
  destruct v; simpl; rewrite ?app_nil_r; split_and!; try done;
    apply (toggle_same _ _ false); by rewrite Hv.
Qed.

Lemma without_idem a l : without a (without a l) = without a l.
Proof.
  induction l as [|p l IH]; [done|].
  destruct (String.eqb a (fst p)) eqn:E.
  - by rewrite filter_cons_False by (by rewrite E).
  - rewrite (filter_cons_True _ p l) by done.
    rewrite filter_cons_True by done. by rewrite IH.
Qed.

Lemma without_comm a b l : without a (without b l) = without b (without a l).
Proof.
  induction l as [|p l IH]; [done|].
  destruct (String.eqb a (fst p)) eqn:Ea; destruct (String.eqb b (fst p)) eqn:Eb.
  - by rewrite !(filter_cons_False _ p l) by (by rewrite ?Ea, ?Eb).
  - rewrite (filter_cons_True _ p l) by done.
    rewrite (filter_cons_False _ p l) by (by rewrite Ea).
    by rewrite filter_cons_False by (by rewrite Ea).
  - rewrite (filter_cons_False _ p l) by (by rewrite Eb).
    rewrite (filter_cons_True _ p l) by done.
    by rewrite filter_cons_False by (by rewrite Eb).
  - rewrite !(filter_cons_True _ p l) by done.
    rewrite !filter_cons_True by done. by rewrite IH.
Qed.

Lemma setAttr_entry a v l : setAttr a v l = without a l ++ entry a v.
Proof. unfold setAttr. destruct v; [done|by rewrite app_nil_r]. Qed.

Lemma without_entry_eq a v : without a (entry a v) = [].
Proof.
  destruct v; [|done]. simpl.
  by rewrite filter_cons_False by (simpl; by rewrite String.eqb_refl).
Qed.

Lemma without_entry_ne a b v : a <> b -> without a (entry b v) = entry b v.
Proof.
  intros Hne. destruct v; [|done]. simpl.
  rewrite filter_cons_True; [done|]. simpl. by apply String.eqb_neq.
Qed.

(** Setting two attributes again to the values they were given changes
    nothing. *)
Lemma setAttr_twice a b v w l :
  a <> b ->
  setAttr a v (setAttr b w (setAttr a v (setAttr b w l)))
  = setAttr a v (setAttr b w l).
Proof.
  intros Hne. assert (b <> a) as Hne' by congruence.
  rewrite !setAttr_entry, !filter_app.
  repeat first [ rewrite without_entry_eq
               | rewrite (without_entry_ne a b) by done
               | rewrite (without_entry_ne b a) by done
               | rewrite filter_nil ].
  rewrite (without_comm b a (without b l)), !without_idem.
  by rewrite ?app_nil_r.
Qed.

Lemma only_without a l : only a (without a l) = [].
Proof.
  induction l as [|p l IH]; [done|].
  destruct (String.eqb a (fst p)) eqn:E.
  - by rewrite filter_cons_False by (by rewrite E).
  - rewrite (filter_cons_True _ p l) by done.
    by rewrite filter_cons_False by (by rewrite E).
Qed.

Lemma only_without_ne a b l : a <> b -> only a (without b l) = only a l.
Proof.
  intros Hne. induction l as [|p l IH]; [done|].
  destruct (String.eqb b (fst p)) eqn:Eb.
  - rewrite filter_cons_False by (by rewrite Eb).
    apply String.eqb_eq in Eb.
    rewrite (filter_cons_False _ p l); [done|].
    simpl. rewrite <- Eb. apply String.eqb_neq in Hne. by rewrite Hne.
  - rewrite (filter_cons_True _ p l) by done.
    destruct (String.eqb a (fst p)) eqn:Ea.
    + rewrite !filter_cons_True by done. by rewrite IH.
    + by rewrite !filter_cons_False by (by rewrite Ea).
Qed.

Lemma getAttr_setAttr_eq a v l : getAttr a (setAttr a v l) = v.
Proof.
  unfold getAttr. rewrite setAttr_entry, filter_app, only_without.
  destruct v; [|done]. simpl.
  by rewrite filter_cons_True by (simpl; apply String.eqb_refl).
Qed.

Lemma getAttr_setAttr_ne a b v l : a <> b -> getAttr a (setAttr b v l) = getAttr a l.
Proof.
  intros Hne. unfold getAttr.
  rewrite setAttr_entry, filter_app, only_without_ne by done.
  destruct v; simpl; [|by rewrite app_nil_r].
  rewrite (filter_cons_False _ (b, s)); [by rewrite app_nil_r|].
  simpl. apply String.eqb_neq in Hne. by rewrite Hne.
Qed.

(** X5.  For a slide that is not a clone, in a slider that rewinds or
    loops, [isWithin] measures the distance round the circle of the
    [length] slides: it holds exactly when some whole number of turns
    brings [from] within [distance] of the slide. *)
Theorem isWithin_round_the_circle (c : Config) (rewind is_loop : bool)
    (length from distance : Z) :
  isClone c = false -> rewind || is_loop = true ->
  0 <= from < length -> 0 <= index c < length ->
  isWithin c rewind is_loop length from distance = true
  <-> exists k, Z.abs (from - index c + k * length) <= distance.
Proof.
  intros Hc Hr Hf Hi. unfold isWithin. rewrite Hc, Hr. simpl.
  rewrite Z.leb_le. split.
  - intros H.
    destruct (Z_le_gt_dec (Z.abs (from - index c)) distance) as [Hd|Hd].
    + exists 0. by rewrite Z.mul_0_l, Z.add_0_r.
    + destruct (Z_le_gt_dec (index c) from).
      * exists (-1). lia.
      * exists 1. lia.
  - intros [k Hk].
    destruct (Z.eq_dec k 0) as [->|Hk0]; [lia|].
    destruct (Z_le_gt_dec 1 k).
    + assert (length <= k * length) by nia. lia.
    + assert (k * length <= - length) by nia. lia.
Qed.

Lemma isWithin_last_slide_near_the_first :
  let c := {| index := 9; slideIndex := -1; isNavigation := false;
              cloneStatus := Yes; slideFocus := false; is_fade := false |} in
  isWithin c false true 10 0 1 = true
  <-> exists k, Z.abs (0 - 9 + k * 10) <= 1.
Proof.
  intros c. apply (isWithin_round_the_circle c false true 10 0 1);
    [reflexivity | reflexivity | lia | simpl; lia].
Defined.

Lemma update_classes c e s :
  destroyed s = false ->
  hasClass (classes (update c e s)) CLASS_PREV = (index c =? curr e - 1)
  /\ hasClass (classes (update c e s)) CLASS_NEXT = (index c =? curr e + 1).
Proof.
  intros Hd. unfold update. rewrite Hd. simpl.
  rewrite hasClass_toggle_other by discriminate.
  by rewrite !hasClass_toggle.
Qed.

Lemma update_attrs c e s :
  destroyed s = false ->
  let hidden := negb (isVisible c e) && (negb (isActive c e) || isClone c) in
  attrs (update c e s)
  = setAttr TAB_INDEX (if negb hidden && slideFocus c then Some "0" else None)
      (setAttr ARIA_HIDDEN (if hidden then Some "true" else None)
         (attrs (updateActivity c (isActive c e) s)))
  /\ focusable_tabindex (update c e s) = (if hidden then Some "-1" else None).
Proof.
  intros Hd. unfold update. rewrite Hd. simpl.
  apply updateVisibility_attrs.
Qed.

(** X6.  After [update] a live slide carries each status class exactly
    when its condition holds, whatever classes it had: 'is-active',
    'is-visible', 'is-prev' and 'is-next'.  It is never both the previous
    and the next slide, and when it is either it has the current index on
    no account of its own. *)
Theorem update_sets_the_status_classes (c : Config) (e : Env) (s : State) :
  destroyed s = false ->
  let s' := update c e s in
  hasClass (classes s') CLASS_ACTIVE = isActive c e
  /\ hasClass (classes s') CLASS_VISIBLE = isVisible c e
  /\ hasClass (classes s') CLASS_PREV = (index c =? curr e - 1)
  /\ hasClass (classes s') CLASS_NEXT = (index c =? curr e + 1)
  /\ hasClass (classes s') CLASS_PREV && hasClass (classes s') CLASS_NEXT = false
  /\ (hasClass (classes s') CLASS_PREV || hasClass (classes s') CLASS_NEXT = true ->
      curr e <> index c).
Proof.
  intros Hd s'.
  destruct (update_result c e s Hd) as (Ha & Hv & _).
  destruct (update_classes c e s Hd) as [Hp Hn].
  fold s' in Ha, Hv, Hp, Hn. rewrite Ha, Hv, Hp, Hn.
  split_and!; try done.
  - destruct (Z.eqb_spec (index c) (curr e - 1)); [|done].
    simpl. apply Z.eqb_neq. lia.
  - intros H. apply orb_true_iff in H as [H|H]; apply Z.eqb_eq in H; lia.
Qed.

Lemma update_of_the_slide_before :
  let c := {| index := 2; slideIndex := -1; isNavigation := false;
              cloneStatus := Yes; slideFocus := false; is_fade := true |} in
  let e := {| curr := 3; track_left := 0; track_right := 100;
              slide_left := 0; slide_right := 100 |} in
  let s := {| classes := ["is-active"; "is-next"]; attrs := [];
              focusable_tabindex := None; destroyed := false; emitted := [] |} in
  hasClass (classes (update c e s)) CLASS_PREV = true
  /\ hasClass (classes (update c e s)) CLASS_NEXT = false
  /\ hasClass (classes (update c e s)) CLASS_ACTIVE = false.
Proof.
  intros c e s.
  destruct (update_sets_the_status_classes c e s) as (Ha & _ & Hp & Hn & _);
    [reflexivity|].
  split_and!; [exact Hp | exact Hn | exact Ha].
Defined.

Lemma setAttr_None a l : setAttr a None l = without a l.
Proof. reflexivity. Qed.

Lemma without_setAttr a b v l :
  a <> b -> without a (setAttr b v l) = setAttr b v (without a l).
Proof.
  intros Hne. rewrite !setAttr_entry, filter_app.
  rewrite (without_entry_ne a b) by done. by rewrite (without_comm a b l).
Qed.

(** [updateActivity] on a slide whose class agrees with the truth of the
    flag: nothing changes but the events, and those only for a flag that
    is not a boolean. *)
Lemma updateActivity_again c (a : Flag) s :
  hasClass (classes s) CLASS_ACTIVE = a ->
  let u := updateActivity c a s in
  classes u = classes s
  /\ focusable_tabindex u = focusable_tabindex s
  /\ destroyed u = destroyed s
  /\ emitted u = emitted s ++ (if is_boolean a then [] else [EVENT_INACTIVE])
  /\ (attrs u = attrs s \/ attrs u = without ARIA_CURRENT (attrs s)).
Proof.
  intros Ha u. destruct (is_boolean a) eqn:Hb.
  - unfold u. rewrite updateActivity_same by done.
    rewrite app_nil_r. split_and!; try done. by left.
  - destruct a; try discriminate.
    destruct (updateActivity_falsy c s Ha) as (H1 & H2 & H3 & H4 & H5).
    split_and!; try done. fold u in H2. rewrite H2.
    destruct (isNavigation c); [by right|by left].
Qed.

(** The attributes [update] leaves are rid of aria-current whenever the
    flag of activity is not a boolean and the slider is a navigation. *)
Lemma attrs_again c (a : Flag) s t h l :
  hasClass (classes s) CLASS_ACTIVE = a ->
  attrs s = setAttr TAB_INDEX t (setAttr ARIA_HIDDEN h l) ->
  (is_boolean a = false -> isNavigation c = true ->
   without ARIA_CURRENT l = l) ->
  setAttr TAB_INDEX t (setAttr ARIA_HIDDEN h (attrs (updateActivity c a s)))
  = attrs s.
Proof.
  intros Ha Hs Hl.
  assert (setAttr TAB_INDEX t (setAttr ARIA_HIDDEN h (attrs s)) = attrs s) as Hsame
    by (rewrite Hs; apply setAttr_twice; discriminate).
  destruct (is_boolean a) eqn:Hb.
  - by rewrite updateActivity_same.
  - destruct a; try discriminate.
    destruct (updateActivity_falsy c s Ha) as (_ & -> & _).
    destruct (isNavigation c); [|done].
    rewrite setAttr_None, Hs, !without_setAttr, Hl by done.
    rewrite <- Hs. done.
Qed.

Lemma updateActivity_falsy_attrs c s :
  isNavigation c = true ->
  without ARIA_CURRENT (attrs (updateActivity c Falsy s))
  = attrs (updateActivity c Falsy s).
Proof.
  intros Hnav. unfold updateActivity.
  change (differs Falsy (hasClass (classes s) CLASS_ACTIVE)) with true.
  cbv iota. rewrite Hnav. unfold emit, set_attrs, set_classes. cbn [attrs].
  rewrite setAttr_None. apply without_idem.
Qed.

(** X7.  [update] run again with the slider as it was leaves the
    classes, the attributes, the tab index of the focusable nodes and the
    destroyed flag as the first run left them.  It emits nothing more
    when what [isActive] and [isVisible] return are booleans, and then
    the slide is the same in all; when [isActive] returns a falsy value
    that is not [false] it emits 'inactive' again, and when [isVisible]
    does, 'hidden' again. *)
Theorem update_twice (c : Config) (e : Env) (s : State) :
  let s1 := update c e s in
  let s2 := update c e s1 in
  classes s2 = classes s1 /\ attrs s2 = attrs s1
  /\ focusable_tabindex s2 = focusable_tabindex s1
  /\ destroyed s2 = destroyed s1
  /\ emitted s2
     = emitted s1
       ++ (if destroyed s then []
           else (if is_boolean (isActive c e) then [] else [EVENT_INACTIVE])
                ++ (if is_boolean (isVisible c e) then [] else [EVENT_HIDDEN]))
  /\ (is_boolean (isActive c e) && is_boolean (isVisible c e) = true -> s2 = s1).
Proof.
  intros s1 s2.
  assert (classes s2 = classes s1 /\ attrs s2 = attrs s1
          /\ focusable_tabindex s2 = focusable_tabindex s1
          /\ destroyed s2 = destroyed s1
          /\ emitted s2
             = emitted s1
               ++ (if destroyed s then []
                   else (if is_boolean (isActive c e) then [] else [EVENT_INACTIVE])
                        ++ (if is_boolean (isVisible c e) then [] else [EVENT_HIDDEN])))
    as (H1 & H2 & H3 & H4 & H5).
  { destruct (destroyed s) eqn:Hd.
    { unfold s2, s1, update. rewrite Hd. simpl. rewrite Hd.
      by rewrite app_nil_r. }
    destruct (update_result c e s Hd) as (Ha & Hv & Hd' & _).
    destruct (update_classes c e s Hd) as [Hp Hn].
    destruct (update_attrs c e s Hd) as [Hat Hfo].
    fold s1 in Ha, Hv, Hd', Hp, Hn, Hat, Hfo.
    destruct (updateActivity_again c (isActive c e) s1 Ha)
      as (Uc & Uf & Ud & Ue & _).
    set (u := updateActivity c (isActive c e) s1) in *.
    assert (hasClass (classes u) CLASS_VISIBLE = isVisible c e) as Hvu
      by by rewrite Uc.
    destruct (updateVisibility_attrs c e (isVisible c e) u) as [Vat Vfo].
    destruct (updateVisibility_classes_same c e (isVisible c e) u Hvu)
      as (Vc & Ve & Vd).
    unfold s2, update. rewrite Hd'. simpl. fold u.
    split_and!.
    - rewrite Vc, Uc.
      rewrite (toggle_same (classes s1) CLASS_PREV) by done.
      by rewrite (toggle_same (classes s1) CLASS_NEXT).
    - rewrite Vat. unfold u. apply (attrs_again c _ s1 _ _ _ Ha Hat).
      intros Hb Hnav. destruct (isActive c e); try discriminate.
      by apply updateActivity_falsy_attrs.
    - by rewrite Vfo, Hfo.
    - by rewrite Vd, Ud.
    - by rewrite Ve, Ue, <- app_assoc. }
  split_and!; try done.
  intros Hb. apply andb_true_iff in Hb as [Hb1 Hb2].
  apply State_ext; try done.
  rewrite H5, Hb1, Hb2. destruct (destroyed s); by rewrite app_nil_r.
Qed.

Lemma update_twice_on_a_visible_slide :
  let c := {| index := 1; slideIndex := -1; isNavigation := true;
              cloneStatus := Yes; slideFocus := true; is_fade := false |} in
  let e := {| curr := 0; track_left := 0; track_right := 100;
              slide_left := 50; slide_right := 100 |} in
  let s := {| classes := []; attrs := []; focusable_tabindex := None;
              destroyed := false; emitted := [] |} in
  update c e (update c e s) = update c e s.
Proof.
  intros c e s.
  destruct (update_twice c e s) as (_ & _ & _ & _ & _ & H).
  apply H. reflexivity.
Defined.

(** X8.  After [update] a live slide is hidden from assistive technology
    exactly when it is not visible and is either not active or a clone.
    A hidden slide has no tab index and its focusable nodes have -1; a
    slide that is visible, or active and not a clone, is not hidden, and
    is focusable exactly when [slideFocus] is set.  It does not matter
    what the attributes were before. *)
Theorem update_sets_the_attributes (c : Config) (e : Env) (s : State) :
  destroyed s = false ->
  let s' := update c e s in
  let hidden := negb (isVisible c e) && (negb (isActive c e) || isClone c) in
  getAttr ARIA_HIDDEN (attrs s') = (if hidden then Some "true" else None)
  /\ getAttr TAB_INDEX (attrs s')
     = (if negb hidden && slideFocus c then Some "0" else None)
  /\ focusable_tabindex s' = (if hidden then Some "-1" else None)
  /\ (getAttr ARIA_HIDDEN (attrs s') = Some "true" ->
      getAttr TAB_INDEX (attrs s') = None /\ focusable_tabindex s' = Some "-1")
  /\ (truth (isVisible c e) = true
      \/ (truth (isActive c e) = true /\ isClone c = false) ->
      getAttr ARIA_HIDDEN (attrs s') = None /\ focusable_tabindex s' = None).
Proof.
  intros Hd s' hidden.
  destruct (update_attrs c e s Hd) as [Hat Hfo]. fold s' hidden in Hat, Hfo.
  assert (getAttr ARIA_HIDDEN (attrs s') = (if hidden then Some "true" else None)) as H1.
  { rewrite Hat, getAttr_setAttr_ne by discriminate. apply getAttr_setAttr_eq. }
  assert (getAttr TAB_INDEX (attrs s')
          = (if negb hidden && slideFocus c then Some "0" else None)) as H2.
  { rewrite Hat. apply getAttr_setAttr_eq. }
  rewrite H1, H2, Hfo. split_and!; try done.
  - by destruct hidden.
  - intros H. assert (hidden = false) as ->; [|done].
    unfold hidden. destruct H as [->|[-> ->]]; [done|]. simpl. apply andb_false_r.
Qed.

Lemma update_of_a_slide_out_of_view :
  let c := {| index := 2; slideIndex := -1; isNavigation := false;
              cloneStatus := Yes; slideFocus := true; is_fade := false |} in
  let e := {| curr := 0; track_left := 0; track_right := 100;
              slide_left := 200; slide_right := 300 |} in
  let s := {| classes := []; attrs := [("tabindex", "0")];
              focusable_tabindex := None; destroyed := false; emitted := [] |} in
  getAttr ARIA_HIDDEN (attrs (update c e s)) = Some "true"
  /\ getAttr TAB_INDEX (attrs (update c e s)) = None.
Proof.
  intros c e s.
  destruct (update_sets_the_attributes c e s) as (H1 & H2 & _); [reflexivity|].
  split; [exact H1 | exact H2].
Defined.

Lemma hasClass_removeClass_false cl c x :
  hasClass cl c = false -> hasClass (removeClass cl x) c = false.
Proof.
  unfold hasClass, removeClass. induction cl as [|y cl IH]; [done|].
  simpl. intros H. apply orb_false_iff in H as [H1 H2].
  destruct (String.eqb x y) eqn:E.
  - rewrite filter_cons_False by (by rewrite E). by apply IH.
  - rewrite filter_cons_True by done. simpl. rewrite H1. by apply IH.
Qed.

Lemma hasClass_remove_all L : forall cl c,
  (c ∈ L \/ hasClass cl c = false) -> hasClass (fold_left removeClass L cl) c = false.
Proof.
  induction L as [|x L IH]; intros cl c H; simpl.
  - destruct H as [H|H]; [by apply elem_of_nil in H|done].
  - apply IH. destruct H as [H|H].
    + apply elem_of_cons in H as [->|H]; [right; apply hasClass_removeClass|by left].
    + right. by apply hasClass_removeClass_false.
Qed.

Lemma getAttr_removeAttrs names a l : a ∈ names -> getAttr a (removeAttrs names l) = None.
Proof.
  intros Ha. unfold getAttr, removeAttrs.
  rewrite (filter_none _ (filter _ l)); [done|].
  apply Forall_forall. intros p Hp He.
  apply list_elem_of_filter in Hp as [Hp _].
  apply String.eqb_eq in He. subst a.
  assert (existsb (String.eqb (fst p)) names = true) as Hex; [|congruence].
  apply existsb_exists. exists (fst p). split; [by apply list_elem_of_In|].
  apply String.eqb_refl.
Qed.

(** X9.  A destroyed slide is inert: [update] and [onMove] no longer
    touch it.  [destroy] has taken every status class and every attribute
    of the component off it, has put back the style it had when the
    component was made, and has emitted nothing. *)
Theorem destroyed_slide_is_inert (STATUS_CLASSES ALL_ATTRIBUTES : list string)
    (styles : option string) (c : Config) (e : Env) (s : State) :
  let d := destroy STATUS_CLASSES ALL_ATTRIBUTES styles s in
  update c e d = d /\ onMove c e d = d
  /\ (forall cls, cls ∈ STATUS_CLASSES -> hasClass (classes d) cls = false)
  /\ (forall a, a ∈ ALL_ATTRIBUTES -> a <> "style" -> getAttr a (attrs d) = None)
  /\ getAttr "style" (attrs d) = styles
  /\ emitted d = emitted s.
Proof.
  intros d. split_and!; try done.
  - intros cls Hcls. simpl. apply hasClass_remove_all. by left.
  - intros a Ha Hne. simpl.
    rewrite getAttr_setAttr_ne by done. by apply getAttr_removeAttrs.
  - simpl. apply getAttr_setAttr_eq.
Qed.

Lemma destroyed_active_slide :
  let s := {| classes := ["splide__slide"; "is-active"; "is-visible"];
              attrs := [("style", "width: 10px"); ("aria-hidden", "true")];
              focusable_tabindex := None; destroyed := false; emitted := [] |} in
  let d := destroy ["is-active"; "is-visible"] ["aria-hidden"; "tabindex"] None s in
  hasClass (classes d) "is-active" = false
  /\ getAttr "aria-hidden" (attrs d) = None
  /\ getAttr "style" (attrs d) = None.
Proof.
  intros s d.
  destruct (destroyed_slide_is_inert ["is-active"; "is-visible"]
              ["aria-hidden"; "tabindex"] None
              {| index := 0; slideIndex := -1; isNavigation := false;
                 cloneStatus := Yes; slideFocus := false; is_fade := false |}
              {| curr := 0; track_left := 0; track_right := 0;
                 slide_left := 0; slide_right := 0 |} s)
    as (_ & _ & Hc & Ha & Hs & _).
  split_and!.
  - apply Hc. by left.
  - apply Ha; [by left | discriminate].
  - exact Hs.
Defined.

Lemma updateActivity_current c a s :
  isNavigation c = true ->
  getAttr ARIA_CURRENT (attrs s)
  = (if hasClass (classes s) CLASS_ACTIVE then Some "true" else None) ->
  getAttr ARIA_CURRENT (attrs (updateActivity c a s))
  = (if truth a then Some "true" else None).
Proof.
  intros Hnav Hinv. unfold updateActivity.
  destruct (differs a (hasClass (classes s) CLASS_ACTIVE)) eqn:E.
  - rewrite Hnav. unfold emit, set_attrs, set_classes. cbn [attrs].
    apply getAttr_setAttr_eq.
  - apply differs_false in E as [-> _]. exact Hinv.
Qed.

(** X16.  On a slider used as navigation, aria-current follows the
    'is-active' class: if a slide has the attribute exactly when it has
    the class, as a slide without either has, then so it has after every
    [update]. *)
Theorem aria_current_follows_active (c : Config) (e : Env) (s : State) :
  isNavigation c = true ->
  getAttr ARIA_CURRENT (attrs s)
  = (if hasClass (classes s) CLASS_ACTIVE then Some "true" else None) ->
  let s' := update c e s in
  getAttr ARIA_CURRENT (attrs s')
  = (if hasClass (classes s') CLASS_ACTIVE then Some "true" else None).
Proof.
  intros Hnav Hinv s'. destruct (destroyed s) eqn:Hd.
  { unfold s', update. by rewrite Hd. }
  destruct (update_result c e s Hd) as (Ha & _).
  destruct (update_attrs c e s Hd) as [Hat _].
  fold s' in Ha, Hat. rewrite Ha, Hat.
  rewrite !getAttr_setAttr_ne by discriminate.
  by apply updateActivity_current.
Qed.

Lemma aria_current_of_a_new_active_slide :
  let c := {| index := 0; slideIndex := -1; isNavigation := true;
              cloneStatus := Yes; slideFocus := false; is_fade := false |} in
  let e := {| curr := 0; track_left := 0; track_right := 100;
              slide_left := 0; slide_right := 100 |} in
  let s := {| classes := []; attrs := []; focusable_tabindex := None;
              destroyed := false; emitted := [] |} in
  getAttr ARIA_CURRENT (attrs (update c e s))
  = (if hasClass (classes (update c e s)) CLASS_ACTIVE then Some "true" else None).
Proof.
  intros c e s. apply (aria_current_follows_active c e s); reflexivity.
Defined.

End SlideMoreProofs.

(** ** Arrows: init *)

Module ArrowsProofs.
Import JS Arrows.

Local Abbreviation unmounted p n s :=
  (arrows_prev s = None /\ listens s = 0%nat /\ emitted s = []
   /\ controls s = []
   /\ prev s = p /\ next s = n /\ created s = false).

Local Abbreviation mounted p n s :=
  (arrows_prev s = prev s /\ arrows_next s = next s
   /\ prev s <> None /\ next s <> None
   /\ listens s = 1%nat /\ emitted s = [EVENT_ARROWS_MOUNTED]
   /\ (exists a b, prev s = Some a /\ next s = Some b /\ controls s = [a; b])
   /\ (created s = true -> p = None \/ n = None)
   /\ (created s = false -> prev s = p /\ next s = n)).

Lemma init_unmounted o hs p n s :
  unmounted p n s ->
  (unmounted p n (init o hs s) \/ mounted p n (init o hs s))
  /\ (is_on o = true -> mounted p n (init o hs s)).
Proof.
  destruct s as [w0 p0 n0 cr ap an pl co li di em]. simpl.
  intros (-> & -> & -> & -> & -> & -> & ->).
  unfold init.
  destruct o, p as [a|], n as [b|]; simpl; split;
    try (intros; discriminate);
    try (left; by split_and!);
    try (intros _); try right;
    (split_and!; try done; eauto 6; try (intros; discriminate)).
Qed.

Lemma init_mounted o hs p n s : mounted p n s -> mounted p n (init o hs s).
Proof.
  destruct s as [w0 p0 n0 cr ap an pl co li di em]. simpl.
  intros (-> & -> & Hp & Hn & -> & -> & Hc & Hcr & Hm).
  destruct p0 as [a|]; [|done]. destruct n0 as [b|]; [|done].
  unfold init. simpl.
  destruct (is_on o); simpl; by split_and!.
Qed.

Lemma inits_mounted hs p n os : forall s,
  mounted p n s -> mounted p n (fold_left (fun s o => init o hs s) os s).
Proof.
  induction os as [|o os IH]; intros s H; [done|].
  simpl. apply IH. by apply init_mounted.
Qed.

Lemma inits_unmounted hs p n os : forall s,
  unmounted p n s ->
  let s' := fold_left (fun s o => init o hs s) os s in
  (unmounted p n s' \/ mounted p n s')
  /\ ((exists o, o ∈ os /\ is_on o = true) -> mounted p n s').
Proof.
  induction os as [|o os IH]; intros s H; simpl.
  - split; [by left|]. intros (o & Ho & _). by apply elem_of_nil in Ho.
  - destruct (init_unmounted o hs p n s H) as [[Hu|Hm] Hon].
    + destruct (IH _ Hu) as [H1 H2]. split; [done|].
      intros (o' & Ho' & Hon'). apply elem_of_cons in Ho' as [->|Ho'].
      * apply inits_mounted. by apply Hon.
      * apply H2. by exists o'.
    + split; [right|intros _]; by apply inits_mounted.
Qed.

(** X10.  However many times [init] runs, and whatever the option is
    each time, the arrows are mounted at most once: [listen] runs at most
    once, 'arrows:mounted' is emitted as many times, and aria-controls is
    given to the two arrows only.  They are mounted as soon as one run
    finds the option on, whether or not the markup has them, and are then
    the arrows in use.  Arrows are made only when the markup lacks one;
    otherwise the ones of the markup stay. *)
Theorem arrows_mounted_once (hs : bool) (w p n : option Node)
    (os : list ArrowsOption) :
  let s' := fold_left (fun s o => init o hs s) os (fresh w p n) in
  (listens s' <= 1)%nat
  /\ emitted s' = repeat EVENT_ARROWS_MOUNTED (listens s')
  /\ length (controls s') = (2 * listens s')%nat
  /\ (listens s' = 1%nat <-> arrows_prev s' <> None)
  /\ ((exists o, o ∈ os /\ is_on o = true) -> listens s' = 1%nat)
  /\ (arrows_prev s' <> None ->
      arrows_prev s' = prev s' /\ arrows_next s' = next s')
  /\ (created s' = true -> p = None \/ n = None)
  /\ (created s' = false -> prev s' = p /\ next s' = n).
Proof.
  intros s'.
  destruct (inits_unmounted hs p n os (fresh w p n)) as [Hs Hon]; [done|].
  fold s' in Hs, Hon.
  destruct Hs as [(Ha & Hl & He & Hco & Hp & Hn & Hc)
                 |(Ha & Han & Hp & Hn & Hl & He & (a & b & Hpa & Hnb & Hco) & Hc & Hm)].
  - split_and!.
    + rewrite Hl. lia.
    + by rewrite He, Hl.
    + by rewrite Hco, Hl.
    + rewrite Hl, Ha. split; [discriminate|done].
    + intros H. by destruct (Hon H) as (_ & _ & _ & _ & ? & _).
    + by rewrite Ha.
    + by rewrite Hc.
    + done.
  - split_and!.
    + rewrite Hl. lia.
    + by rewrite He, Hl.
    + by rewrite Hco, Hl.
    + split; [|done]. intros _. by rewrite Ha.
    + done.
    + done.
    + done.
    + done.
Qed.

Lemma arrows_mounted_once_example :
  let s' := fold_left (fun s o => init o true s)
              [ArrowsUndefined; ArrowsSlider; ArrowsFalse; ArrowsTrue]
              (fresh None None None) in
  listens s' = 1%nat /\ emitted s' = [EVENT_ARROWS_MOUNTED].
Proof.
  intros s'.
  destruct (arrows_mounted_once true None None None
              [ArrowsUndefined; ArrowsSlider; ArrowsFalse; ArrowsTrue])
    as (_ & He & _ & _ & Hl & _).
  fold s' in He, Hl.
  assert (listens s' = 1%nat) as H1.
  { apply Hl. exists ArrowsSlider. split; [|reflexivity].
    apply elem_of_cons. right. apply elem_of_cons. by left. }
  split; [exact H1|]. rewrite He, H1. reflexivity.
Defined.

End ArrowsProofs.

(** ** Layout: sizes of a slider with clones *)

Module LayoutMore.
Import JS Layout ListFacts.

Local Abbreviation real_slides := Clones.real_slides.
Local Abbreviation real_slide := Clones.real_slide.

Lemma head_filter_middle {A} (P : A -> Prop) `{forall x, Decision (P x)}
    (l1 l2 : list A) (x : A) :
  Forall (fun y => ~ P y) l1 -> P x -> head (filter P (l1 ++ x :: l2)) = Some x.
Proof.
  intros H1 Hx. rewrite filter_app, (filter_none P l1 H1).
  simpl. by rewrite filter_cons_True.
Qed.

Lemma real_slides_split rc i :
  (i < rc)%nat ->
  real_slides rc
  = map real_slide (seq 0 i) ++ real_slide i :: map real_slide (seq (S i) (rc - S i)).
Proof.
  intros Hi. unfold Clones.real_slides.
  replace rc with (i + S (rc - S i))%nat at 1 by lia.
  by rewrite seq_app, map_app.
Qed.

Lemma getAt_real_slides rc i :
  (i < rc)%nat -> getAt (real_slides rc) (Z.of_nat i) = Some (real_slide i).
Proof.
  intros Hi. unfold getAt. rewrite (real_slides_split rc i Hi).
  apply head_filter_middle; [|done].
  apply Forall_forall. intros s Hs.
  apply list_elem_of_In, in_map_iff in Hs as (j & <- & Hj).
  apply in_seq in Hj. simpl. lia.
Qed.

(** With the clones installed, a real index still gives the real slide:
    the head clones, which come first, have negative indices. *)
Lemma getAt_installed rc N a b st i :
  (i < rc)%nat -> 0 <= N -> (a <= Z.to_nat N)%nat ->
  getAt (Clones.Slides (Clones.installed rc N a b st)) (Z.of_nat i)
  = Some (real_slide i).
Proof.
  intros Hi HN Ha. unfold Clones.installed, getAt. simpl.
  rewrite filter_app, (filter_none _ (map (Clones.head_clone rc N) (seq 0 a))).
  2:{ apply Forall_forall. intros s Hs.
      apply list_elem_of_In, in_map_iff in Hs as (j & <- & Hj).
      apply in_seq in Hj. simpl. lia. }
  simpl. rewrite (real_slides_split rc i Hi), <- app_assoc. simpl.
  apply head_filter_middle; [|done].
  apply Forall_forall. intros s Hs.
  apply list_elem_of_In, in_map_iff in Hs as (j & <- & Hj).
  apply in_seq in Hj. simpl. lia.
Qed.

(** X11.  With the clones installed, the Layout component still measures
    the real slides: on any page, the queries at a real index read the
    element of the real slide with that index, no clone, although the
    head clones come first in the registry.  The gap is the margin of
    the first real slide, the size of the slider runs from the first real
    slide to the last, and the size and the total size at a real index
    are the width and the right edge of that real slide.  Where the
    elements lie on the page after the clones went in is the page's
    matter: the queries are given by the measures of the page they are
    asked on. *)
Theorem sizes_read_the_real_slides (p : Page) (rc : nat) (N : Z) (st st' : Clones.State) :
  (0 < rc)%nat -> 0 < N ->
  Clones.Slides st = real_slides rc ->
  Clones.list_dom st = Clones.real_elms rc ->
  Clones.generate N st = Some st' ->
  let gap := match margin p (Clones.RealElm 0) with Some g => g | None => 0%Q end in
  getLength (Clones.Slides st') true = Z.of_nat rc
  /\ getGap p (Clones.Slides st') = gap
  /\ sliderSize p (Clones.Slides st')
     = (rect_right p (Clones.RealElm (Z.of_nat rc - 1))
        - rect_left p (Clones.RealElm 0))%Q
  /\ (forall i withoutGap, 0 <= i < Z.of_nat rc ->
        getAt (Clones.Slides st') i = Some (Clones.mkSlide i (-1) (Clones.RealElm i))
        /\ slideSize p (Clones.Slides st') (Some i) withoutGap
           = (rect_width p (Clones.RealElm i) + (if withoutGap then 0 else gap))%Q
        /\ totalSize p (Clones.Slides st') i withoutGap
           = (Qabs (rect_right p (Clones.RealElm i) - list_left p)
              + (if withoutGap then 0 else gap))%Q).
Proof.
  intros Hrc HN HS HD Hg gap.
  rewrite ClonesProofs.generate_installs with (rc := rc) in Hg by done.
  injection Hg as <-.
  set (all := Clones.Slides (Clones.installed rc N (Z.to_nat N) (Z.to_nat N) st)).
  assert (forall i, 0 <= i < Z.of_nat rc ->
            getAt all i = Some (Clones.mkSlide i (-1) (Clones.RealElm i))) as Hat.
  { intros i Hi. rewrite <- (Z2Nat.id i) at 1 by lia.
    unfold all. rewrite getAt_installed by lia.
    unfold Clones.real_slide. by rewrite Z2Nat.id by lia. }
  assert (getLength all true = Z.of_nat rc) as Hlen.
  { destruct (ClonesMore.getLength_installed rc N (Z.to_nat N) (Z.to_nat N) st Hrc)
      as [H _]. exact H. }
  assert (getGap p all = gap) as Hgap.
  { unfold getGap. by rewrite (Hat 0) by lia. }
  split_and!; [done|done| |].
  - unfold sliderSize. rewrite Hlen.
    rewrite (Hat 0) by lia. by rewrite (Hat (Z.of_nat rc - 1)) by lia.
  - intros i wg Hi. unfold slideSize, totalSize. rewrite Hgap.
    assert (or_else i 0 = i) as ->
      by (unfold or_else, truthy; destruct (Z.eqb_spec i 0); simpl; lia).
    by rewrite (Hat i Hi).
Qed.

Lemma sizes_on_a_page_with_clones :
  let p := {| rect_width := fun e => match e with Clones.RealElm _ => 200%Q | _ => 0%Q end;
              rect_left := fun e => match e with
                                    | Clones.RealElm i => inject_Z (400 + 200 * i)
                                    | _ => 0%Q
                                    end;
              rect_right := fun e => match e with
                                     | Clones.RealElm i => inject_Z (600 + 200 * i)
                                     | _ => 0%Q
                                     end;
              list_left := 0%Q; list_width := 1400%Q;
              margin := fun _ => None |} in
  match Clones.generate 2 (Clones.st0 3) with
  | Some st' =>
      sliderSize p (Clones.Slides st') = (inject_Z 1000 - inject_Z 400)%Q
      /\ totalSize p (Clones.Slides st') 0 true = (Qabs (inject_Z 600 - 0) + 0)%Q
  | None => False
  end.
Proof.
  intros p.
  destruct (Clones.generate 2 (Clones.st0 3)) as [st'|] eqn:Hg; [|done].
  destruct (sizes_read_the_real_slides p 3 2 (Clones.st0 3) st')
    as (_ & _ & Hs & Hi); [lia | lia | reflexivity | reflexivity | exact Hg |].
  split; [exact Hs|].
  destruct (Hi 0 true) as (_ & _ & Ht); [lia|]. exact Ht.
Defined.

End LayoutMore.

(** ** Splide: the registry, remounting, destroying twice *)

Module CoreMore.
Import JS Core CoreProofs.

Lemma oget_assign1 {V} (s : Obj V) : forall (t : Obj V) k,
  NoDup (ownKeys s) ->
  oget (assign1 t s) k
  = if decide (k = PROTO) then oget t k
    else match oget s k with Some v => Some v | None => oget t k end.
Proof.
  unfold assign1. induction s as [|[k0 v0] s IH]; intros t k Hnd.
  { simpl. by destruct (decide (k = PROTO)). }
  simpl in *. apply NoDup_cons in Hnd as [Hk0 Hnd].
  rewrite IH by done.
  destruct (decide (k = PROTO)) as [->|Hp].
  - destruct (decide (k0 = PROTO)); [done|].
    apply MergeProofs.oget_oset_ne. congruence.
  - destruct (decide (k = k0)) as [->|Hne].
    + rewrite (MergeProofs.oget_None_ownKeys s k0 Hk0).
      rewrite decide_False by done. apply MergeProofs.oget_oset_eq.
    + destruct (oget s k); [done|].
      destruct (decide (k0 = PROTO)); [done|].
      by apply MergeProofs.oget_oset_ne.
Qed.

Local Abbreviation store ctors :=
  (fun (comps : Obj Component) (k : Key) =>
     if decide (k = PROTO) then comps
     else match oget ctors k with
          | Some C => oset k (instantiate C) comps
          | None => comps
          end).

Lemma oget_registered_keep ctors ks : forall comps k,
  (k = PROTO \/ oget ctors k = None \/ k ∉ ks) ->
  oget (fold_left (store ctors) ks comps) k = oget comps k.
Proof.
  induction ks as [|k' ks IH]; intros comps k H; [done|].
  simpl. rewrite IH.
  - destruct (decide (k' = PROTO)) as [->|Hp']; [done|].
    destruct (oget ctors k') as [C|] eqn:E; [|done].
    apply MergeProofs.oget_oset_ne. intros ->.
    destruct H as [H|[H|H]]; [done|congruence|]. apply H. by left.
  - destruct H as [H|[H|H]]; [by left|right; by left|right; right].
    by apply not_elem_of_cons in H as [_ H].
Qed.

Lemma oget_registered_set ctors ks : forall comps k C,
  k <> PROTO -> oget ctors k = Some C ->
  (k ∈ ks \/ oget comps k = Some (instantiate C)) ->
  oget (fold_left (store ctors) ks comps) k = Some (instantiate C).
Proof.
  induction ks as [|k' ks IH]; intros comps k C Hp HC H.
  - destruct H as [H|H]; [by apply elem_of_nil in H|done].
  - simpl. apply IH; [done|done|].
    destruct (decide (k = k')) as [<-|Hne].
    + right. rewrite decide_False by done. rewrite HC.
      apply MergeProofs.oget_oset_eq.
    + destruct H as [H|H].
      * left. by apply elem_of_cons in H as [?|H].
      * right. destruct (decide (k' = PROTO)); [done|].
        destruct (oget ctors k'); [|done].
        by rewrite MergeProofs.oget_oset_ne.
Qed.

(** The registry [mount] leaves, key by key. *)
Lemma oget_registered ctors comps k :
  oget (registered ctors comps) k
  = if decide (k = PROTO) then oget comps k
    else match oget ctors k with
         | Some C => Some (instantiate C)
         | None => oget comps k
         end.
Proof.
  unfold registered. destruct (decide (k = PROTO)) as [Hp|Hp].
  { apply oget_registered_keep. by left. }
  destruct (oget ctors k) as [C|] eqn:E.
  - apply oget_registered_set; [done|done|]. left.
    apply list_elem_of_In. by apply oget_Some_ownKeys with (v := C).
  - apply oget_registered_keep. right. by left.
Qed.

Section WithLibrary.
Variable ComponentConstructors : Obj ComponentConstructor.
Variable Fade Slide : ComponentConstructor.
Variable DEFAULT_EVENT_PRIORITY : Z.

Local Abbreviation emit := (Core.emit DEFAULT_EVENT_PRIORITY).
Local Abbreviation destroy := (Core.destroy DEFAULT_EVENT_PRIORITY).
Local Abbreviation mount :=
  (Core.mount ComponentConstructors Fade Slide DEFAULT_EVENT_PRIORITY).


(** X12.  The registry after a [mount], key by key: under 'Transition'
    is the component of the chosen transition, whatever the extensions and
    the built-in table have there; under any other key the component of
    the extension of that name, else of the built-in factory of that name;
    and a key that no factory has keeps the component an earlier mount put
    there.  Nothing is stored under [__proto__], whatever the tables hold
    under it. *)
Theorem registry_after_mount (n : nat)
    (Extensions : option (Obj ComponentConstructor))
    (Transition : option ComponentConstructor) (w : Splide) :
  state w = CREATED \/ state w = DESTROYED -> bus_ok w ->
  NoDup (ownKeys ComponentConstructors) ->
  NoDup (ownKeys (chosen_Extensions Extensions w)) ->
  let T := chosen_Transition Fade Slide Transition w in
  let E := chosen_Extensions Extensions w in
  exists w',
    mount (S (S n)) Extensions Transition w = Ok w'
    /\ _Components w' = Components w'
    /\ forall k,
         oget (Components w') k
         = if decide (k = PROTO) then oget (Components w) k
           else if decide (k = KName "Transition") then Some (instantiate T)
           else match oget E k with
                | Some C => Some (instantiate C)
                | None => match oget ComponentConstructors k with
                          | Some C => Some (instantiate C)
                          | None => oget (Components w) k
                          end
                end.
Proof.
  intros Hst Hok HndC HndE T E.
  destruct (mount_runs ComponentConstructors Fade Slide DEFAULT_EVENT_PRIORITY
              n Extensions Transition w Hst Hok)
    as (w' & hr & Hm & _ & _ & HC & HhC & _).
  exists w'. split; [done|]. split; [unfold _Components; by rewrite HhC|].
  intros k. rewrite HC, oget_registered.
  unfold assign. cbn [fold_left].
  rewrite !oget_assign1; [|done|done|].
  2:{ apply NoDup_cons. split; [apply not_elem_of_nil|apply NoDup_nil_2]. }
  cbn [oget]. fold T E.
  destruct (decide (k = PROTO)); [done|].
  destruct (decide (k = KName "Transition")); [done|].
  destruct (oget E k); [done|].
  by destruct (oget ComponentConstructors k).
Qed.


(** X14.  [destroy] does not look whether the slider is destroyed
    already: called again, it runs the [destroy] hook of every component
    of the registry once more, in the same order, emits 'destroy', which
    no handler is left to hear, and sets the state again. *)
Theorem destroy_again (n : nat) (c c' : bool) (w : Splide) :
  bus_ok w -> state w <> CREATED ->
  exists w1 w2,
    destroy (S n) c w = Some w1 /\ state w1 = DESTROYED
    /\ destroy (S n) c' w1 = Some w2 /\ state w2 = DESTROYED
    /\ trace w2
       = trace w1
         ++ destroy_hooks c' (_Components w) (rev (ownKeys (_Components w)))
         ++ [Emitted EVENT_DESTROY; StateSet DESTROYED]
    /\ splides w2 = (if c || c' then [] else splides w).
Proof.
  intros Hok Hst.
  destruct (torn_down_facts c w) as (Hs1 & Hb1 & Hok1 & Hsp1 & HC1 & HhC1).
  destruct (torn_down_facts c' (torn_down c w)) as (Hs2 & _ & _ & Hsp2 & _).
  exists (torn_down c w), (torn_down c' (torn_down c w)).
  split_and!; try done.
  - by apply destroy_immediate.
  - apply destroy_immediate; [done|]. rewrite Hs1. discriminate.
  - rewrite (trace_torn_down c' (torn_down c w)), Hb1.
    unfold _Components. by rewrite HC1, HhC1.
  - rewrite Hsp2, Hsp1. by destruct c, c'.
Qed.

End WithLibrary.

Lemma registry_of_example :
  exists w',
    Core.mount [] (full_ctor 8) (full_ctor 9) 10 2 (Some two_extensions) None
      (created "slide") = Ok w'
    /\ oget (Components w') (KName "Transition") = Some (instantiate (full_ctor 9))
    /\ oget (Components w') (KName "Second") = Some (instantiate (full_ctor 2)).
Proof.
  destruct (registry_after_mount [] (full_ctor 8) (full_ctor 9) 10 0
              (Some two_extensions) None (created "slide"))
    as (w' & Hm & _ & Hk).
  - by left.
  - intros x c Hx. by apply elem_of_nil in Hx.
  - apply NoDup_nil_2.
  - simpl. apply NoDup_cons. split.
    + intros H. apply elem_of_cons in H as [H|H]; [discriminate|].
      by apply elem_of_nil in H.
    + apply NoDup_cons. split; [apply not_elem_of_nil|apply NoDup_nil_2].
  - exists w'. split; [exact Hm|]. split; rewrite Hk; reflexivity.
Defined.


Lemma destroy_again_on_example :
  exists w1 w2,
    Core.destroy 10 1 true mounted_example = Some w1
    /\ Core.destroy 10 1 true w1 = Some w2
    /\ state w2 = DESTROYED.
Proof.
  destruct (destroy_again 10 0 true true mounted_example)
    as (w1 & w2 & H1 & _ & H2 & H3 & _).
  - exact bus_ok_mounted_example.
  - by vm_compute.
  - exists w1, w2. split_and!; [exact H1 | exact H2 | exact H3].
Defined.

End CoreMore.

(** ** merge: into a new object *)

Module MergeCopyProofs.
Import JS Merge MergeCopy MergeProofs.

Local Open Scope nat_scope.

(** What is merged into an object that held nothing is a copy. *)
Lemma merged_copied (m : nat) : forall (h : list cell) (t l : nat) (h' : list cell),
  (forall k, get h t k = VUndef) -> merged m h t l h' -> copied m h l t h'.
Proof.
  induction m as [|m IH]; intros h t l h' Hblank Hm; [done|].
  simpl in *. intros k. specialize (Hm k). unfold merged_at in Hm.
  rewrite Hblank in Hm.
  destruct (own (cell_at h l) k) as [v|]; [|done].
  destruct v as [| | | | | |l']; try done.
  destruct (is_array (cell_at h l')); [done|].
  destruct Hm as (t' & Hg & Hge & _ & Hn).
  exists t'. split_and!; [done|done|].
  apply IH; [|done]. intros k'. by apply get_dangling.
Qed.

(** X15.  [merge] into a new empty object returns that object as a copy
    of the source to its full depth: under every key of the source but
    [__proto__] the scalars are the source's, every array is a new array
    with the same elements (the elements themselves are shared with the
    source array), and every other object is a new object copied in the
    same way; the copy has nothing under [__proto__]; and no object the
    store had is written, the source least of all. *)
Theorem merge_into_new_object (m : nat) (h : list cell) (s : nat) :
  source_ok m h [] s ->
  let h1 := h ++ [empty_object] in
  let o := length h in
  exists h',
    merge m h1 o s = Some (h', o)
    /\ (forall l, l < length h -> h' !! l = h !! l)
    /\ copied m h1 s o h'.
Proof.
  intros Hsrc h1 o.
  assert (h1 !! o = Some empty_object) as Ho by (by apply list_lookup_middle).
  assert (tree 1 h1 [o] o) as Htree.
  { exists empty_object, []. split_and!; [done | constructor | apply NoDup_singleton | done]. }
  assert (source_ok m h1 [o] s) as Hsrc1.
  { apply (source_ok_transport m h h1 [] [o] s Hsrc).
    - unfold h1. rewrite length_app. lia.
    - intros x Hx _. unfold h1. by apply lookup_app_l.
    - intros x Hx. apply list_elem_of_singleton in Hx. right. unfold o in Hx. lia. }
  destruct (merge_result m 1 h1 [o] o s Htree Hsrc1)
    as (h' & Hm & _ & Hframe & Hmerged & _).
  exists h'. split_and!; [done| |].
  - intros l Hl. rewrite Hframe.
    + unfold h1. by apply lookup_app_l.
    + unfold h1. rewrite length_app. lia.
    + intros Hin. apply list_elem_of_singleton in Hin. unfold o in Hin. lia.
  - apply merged_copied; [|done].
    intros k. by rewrite (get_Some _ _ _ _ Ho).
Qed.

Lemma merge_example_into_new_object :
  exists h',
    merge 2 (example_store ++ [empty_object]) 6 3 = Some (h', 6)
    /\ get h' 6 (KName "a") = VNum 2
    /\ (forall l, l < 6 -> h' !! l = example_store !! l).
Proof.
  destruct (merge_into_new_object 2 example_store 3) as (h' & Hm & Hframe & Hc).
  - apply (source_ok_transport 2 example_store example_store [0; 1; 2] [] 3 example_source).
    + done.
    + done.
    + intros x Hx. by apply elem_of_nil in Hx.
  - exists h'. split; [exact Hm|]. split; [exact (Hc (KName "a"))|exact Hframe].
Defined.

End MergeCopyProofs.
